(** * Playlist generator of the jukebox: a shallow embedding

    Source: [src/jukebox/jukebox/playlistgenerator.py].

    Python [str] values are modelled as Rocq strings: a character is a
    code point below 256 and string comparison is code-point
    lexicographic.  The methods that look at the class of a character
    ([casefold], [strip], matching with [re.IGNORECASE]) are modelled as
    they act on ASCII text; [Py.isascii] says that a string is ASCII text,
    and the statements that depend on the class of characters carry it as
    a hypothesis.  The file system, the network and the logger are the
    environment of the program; they are modelled explicitly below. *)

From Stdlib Require Import String Ascii List Bool Arith Lia ZArith.
From Stdlib Require Import Sorted Permutation DecimalString.
Import ListNotations.

Local Open Scope list_scope.
Local Open Scope string_scope.

Set Implicit Arguments.

(** ** Python string methods *)

Module Py.

Definition dq : string := String "034"%char "".
Definition nl : ascii := "010"%char.

Definition lower_ascii (c : ascii) : ascii :=
  let n := nat_of_ascii c in
  if ((65 <=? n)%nat && (n <=? 90)%nat) then ascii_of_nat (n + 32) else c.

Definition upper_ascii (c : ascii) : ascii :=
  let n := nat_of_ascii c in
  if ((97 <=? n)%nat && (n <=? 122)%nat) then ascii_of_nat (n - 32) else c.

(** [str.isascii] *)
Definition ascii_char (c : ascii) : bool := (nat_of_ascii c <? 128)%nat.

Fixpoint isascii (s : string) : bool :=
  match s with
  | "" => true
  | String c s' => ascii_char c && isascii s'
  end.

(** [str.casefold], on ASCII text: the letters A-Z are lowered. *)
Fixpoint casefold (s : string) : string :=
  match s with
  | "" => ""
  | String c s' => String (lower_ascii c) (casefold s')
  end.

(** [str.startswith] *)
Fixpoint startswith (s p : string) {struct p} : bool :=
  match p with
  | "" => true
  | String c p' =>
      match s with
      | "" => false
      | String d s' => Ascii.eqb c d && startswith s' p'
      end
  end.

(** [str.endswith] *)
Fixpoint endswith (s suf : string) : bool :=
  if String.eqb s suf then true
  else match s with
       | "" => false
       | String _ s' => endswith s' suf
       end.

(** [str.isspace] on one ASCII character: TAB, LF, VT, FF, CR, FS, GS,
    RS, US and the blank. *)
Definition isspace (c : ascii) : bool :=
  let n := nat_of_ascii c in
  ((9 <=? n)%nat && (n <=? 13)%nat) || ((28 <=? n)%nat && (n <=? 32)%nat).

Fixpoint lstrip (s : string) : string :=
  match s with
  | "" => ""
  | String c s' => if isspace c then lstrip s' else s
  end.

Fixpoint rstrip (s : string) : string :=
  match s with
  | "" => ""
  | String c s' =>
      match rstrip s' with
      | "" => if isspace c then "" else String c ""
      | r => String c r
      end
  end.

(** [str.strip] *)
Definition strip (s : string) : string := rstrip (lstrip s).

(** [sep.join(items)] *)
Fixpoint join (sep : string) (items : list string) : string :=
  match items with
  | [] => ""
  | [x] => x
  | x :: rest => x ++ sep ++ join sep rest
  end.

(** [s.split(sep)] for a one-character separator: never the empty list. *)
Fixpoint split (sep : ascii) (s : string) : list string :=
  match s with
  | "" => [""]
  | String c s' =>
      if Ascii.eqb c sep then "" :: split sep s'
      else match split sep s' with
           | [] => [String c ""]
           | x :: rest => String c x :: rest
           end
  end.

(** [sorted(l, key=key)]: stable, keys compared as strings. *)
Section Sorted.
Variable A : Type.
Variable key : A -> string.

Fixpoint insert (x : A) (l : list A) : list A :=
  match l with
  | [] => [x]
  | y :: r => if String.leb (key x) (key y) then x :: y :: r
              else y :: insert x r
  end.

Fixpoint sorted (l : list A) : list A :=
  match l with
  | [] => []
  | x :: r => insert x (sorted r)
  end.
End Sorted.

(** [str(n)] for an integer. *)
Definition str_of_Z (z : Z) : string := NilZero.string_of_int (Z.to_int z).

(** [repr(s)] of a string: the double quote is chosen when the string
    holds an apostrophe and no double quote; the quote chosen and the
    backslash are escaped, TAB, LF and CR are written with their letter,
    the other characters that are not printable (below 32, 127 to 160,
    173) as two hexadecimal digits. *)
Fixpoint contains (c : ascii) (s : string) : bool :=
  match s with
  | "" => false
  | String d s' => Ascii.eqb d c || contains c s'
  end.

Definition isprintable (c : ascii) : bool :=
  let n := nat_of_ascii c in
  ((32 <=? n)%nat && (n <? 127)%nat) || ((161 <=? n)%nat && negb (n =? 173)%nat).

Definition hex_digit (n : nat) : ascii :=
  if (n <? 10)%nat then ascii_of_nat (48 + n) else ascii_of_nat (87 + n).

Definition repr_char (quote c : ascii) : string :=
  if Ascii.eqb c quote || Ascii.eqb c "\" then String "\" (String c "")
  else if Ascii.eqb c "009" then "\t"
  else if Ascii.eqb c "010" then "\n"
  else if Ascii.eqb c "013" then "\r"
  else if isprintable c then String c ""
  else String "\" (String "x" (String (hex_digit (nat_of_ascii c / 16))
                                 (String (hex_digit (nat_of_ascii c mod 16)) ""))).

Fixpoint repr_body (quote : ascii) (s : string) : string :=
  match s with
  | "" => ""
  | String c s' => repr_char quote c ++ repr_body quote s'
  end.

Definition repr (s : string) : string :=
  let quote : ascii :=
    if contains "'" s && negb (contains "034" s) then "034"%char else "'"%char in
  String quote (repr_body quote s ++ String quote "").

End Py.

(** ** [os.path] on POSIX *)

Module OsPath.

Definition sep : string := "/".

Definition isabs (p : string) : bool := Py.startswith p sep.

(** [os.path.join(a, b)] *)
Definition join (a b : string) : string :=
  if Py.startswith b sep then b
  else if String.eqb a "" || Py.endswith a sep then a ++ b
  else a ++ sep ++ b.

(** The loop of [normpath]; [new_comps] is kept with its last element
    first. *)
Fixpoint normpath_comps (initial_slashes : nat) (comps new_comps : list string)
  : list string :=
  match comps with
  | [] => new_comps
  | comp :: rest =>
      if String.eqb comp "" || String.eqb comp "." then
        normpath_comps initial_slashes rest new_comps
      else if negb (String.eqb comp "..")
              || (Nat.eqb initial_slashes 0 && match new_comps with [] => true | _ => false end)
              || match new_comps with
                 | last :: _ => String.eqb last ".."
                 | [] => false
                 end
      then normpath_comps initial_slashes rest (comp :: new_comps)
      else match new_comps with
           | _ :: popped => normpath_comps initial_slashes rest popped
           | [] => normpath_comps initial_slashes rest new_comps
           end
  end.

Fixpoint repeat_sep (n : nat) : string :=
  match n with
  | 0 => ""
  | S n' => sep ++ repeat_sep n'
  end.

(** [os.path.normpath] *)
Definition normpath (path : string) : string :=
  if String.eqb path "" then "."
  else
    let initial_slashes :=
      if Py.startswith path "/" then
        if Py.startswith path "//" && negb (Py.startswith path "///") then 2 else 1
      else 0 in
    let comps := normpath_comps initial_slashes (Py.split "/" path) [] in
    let path' := repeat_sep initial_slashes ++ Py.join "/" (rev comps) in
    if String.eqb path' "" then "." else path'.

(** [os.path.abspath], with the current working directory made explicit. *)
Definition abspath (cwd path : string) : string :=
  normpath (if isabs path then path else join cwd path).

End OsPath.


(** ** A model of the part of Python's [re] the program uses

    Patterns are parsed from their text, as [re.compile] does.  The model
    covers a subset of the syntax: ASCII literals, [.], [$], escaped
    punctuation, bracket sets of plain ASCII characters, capturing groups,
    alternation, and one of the postfix operators [*], [+] and [?] after an
    item, [*] and [+] on an item that cannot match the empty text.
    [compile] answers [Some] for a pattern of the subset, which [re]
    compiles to an expression that matches the same way; it answers [None]
    for every other text, whether [re] compiles it (ranges, classes such as
    [\d], counted repetition, [^], lazy repetition, [(?...)],
    back-references) or rejects it: on [None] the model says nothing about
    [re].  Matching is the backtracking search of [re]: alternatives left
    to right, repetition greedy. *)

Module Re.

Inductive regex : Type :=
| Eps : regex
| Chr : ascii -> regex
| Any : regex                                      (* [.]: all but newline *)
| Set_ : bool -> list ascii -> regex               (* [[...]], [[^...]] *)
| Seq : regex -> regex -> regex
| Alt : regex -> regex -> regex
| Star : regex -> regex
| Group : nat -> regex -> regex
| Eol : regex.                                     (* [$] *)

Definition is_alnum (c : ascii) : bool :=
  let n := nat_of_ascii c in
  ((48 <=? n)%nat && (n <=? 57)%nat) || ((65 <=? n)%nat && (n <=? 90)%nat)
  || ((97 <=? n)%nat && (n <=? 122)%nat) || (128 <=? n)%nat.

Definition is_repeat (c : ascii) : bool :=
  Ascii.eqb c "*" || Ascii.eqb c "+" || Ascii.eqb c "?".

(** The items of a bracket set, up to the closing bracket; a closing
    bracket that comes first is an item.  Ranges, escapes, an opening
    bracket, the characters of the set operations and characters that are
    not ASCII are outside the subset. *)
Fixpoint parse_set_items (first : bool) (s : string)
  : option (list ascii * string) :=
  match s with
  | "" => None
  | String c s' =>
      if Ascii.eqb c "]" && negb first then Some ([], s')
      else if Ascii.eqb c "\" || Ascii.eqb c "-" || Ascii.eqb c "["
              || Ascii.eqb c "&" || Ascii.eqb c "~" || Ascii.eqb c "|"
              || negb (Py.ascii_char c) then None
      else
        match parse_set_items false s' with
        | Some (items, rest) => Some (c :: items, rest)
        | None => None
        end
  end.

Definition parse_set (s : string) : option (regex * string) :=
  match s with
  | "" => None
  | String c s' =>
      if Ascii.eqb c "^" then
        match parse_set_items true s' with
        | Some (items, rest) => Some (Set_ true items, rest)
        | None => None
        end
      else
        match parse_set_items true s with
        | Some (items, rest) => Some (Set_ false items, rest)
        | None => None
        end
  end.

Definition repeat_of (c : ascii) (atom : regex) : regex :=
  if Ascii.eqb c "*" then Star atom
  else if Ascii.eqb c "+" then Seq atom (Star atom)
  else Alt atom Eps.

Definition is_eol (r : regex) : bool :=
  match r with Eol => true | _ => false end.

(** The expression can match the empty text. *)
Fixpoint nullable (r : regex) : bool :=
  match r with
  | Eps => true
  | Chr _ => false
  | Any => false
  | Set_ _ _ => false
  | Seq a b => nullable a && nullable b
  | Alt a b => nullable a || nullable b
  | Star _ => true
  | Group _ a => nullable a
  | Eol => true
  end.

(** One postfix operator at most; a second one is lazy or possessive
    matching, or an error.  A repetition of an item that can match the
    empty text is outside the subset. *)
Definition parse_postfix (atom : regex) (s : string) : option (regex * string) :=
  match s with
  | String c s' =>
      if is_repeat c then
        if is_eol atom || (negb (Ascii.eqb c "?") && nullable atom) then None
        else
          match s' with
          | String c' _ => if is_repeat c' then None else Some (repeat_of c atom, s')
          | "" => Some (repeat_of c atom, s')
          end
      else if Ascii.eqb c "{" then None
      else Some (atom, s)
  | "" => Some (atom, s)
  end.

(** Recursive descent; [n] counts the groups opened so far. *)
Fixpoint parse_alt (fuel : nat) (s : string) (n : nat)
  : option (regex * string * nat) :=
  match fuel with
  | 0 => None
  | S fuel' =>
      match parse_seq fuel' s n with
      | Some (r, rest, n') =>
          match rest with
          | String c s' =>
              if Ascii.eqb c "|" then
                match parse_alt fuel' s' n' with
                | Some (r', rest', n'') => Some (Alt r r', rest', n'')
                | None => None
                end
              else Some (r, rest, n')
          | "" => Some (r, rest, n')
          end
      | None => None
      end
  end

with parse_seq (fuel : nat) (s : string) (n : nat)
  : option (regex * string * nat) :=
  match fuel with
  | 0 => None
  | S fuel' =>
      match s with
      | "" => Some (Eps, s, n)
      | String c _ =>
          if Ascii.eqb c "|" || Ascii.eqb c ")" then Some (Eps, s, n)
          else
            match parse_atom fuel' s n with
            | Some (a, s', n') =>
                match parse_postfix a s' with
                | Some (a', s'') =>
                    match parse_seq fuel' s'' n' with
                    | Some (r, rest, n'') => Some (Seq a' r, rest, n'')
                    | None => None
                    end
                | None => None
                end
            | None => None
            end
      end
  end

with parse_atom (fuel : nat) (s : string) (n : nat)
  : option (regex * string * nat) :=
  match fuel with
  | 0 => None
  | S fuel' =>
      match s with
      | "" => None
      | String c s' =>
          if Ascii.eqb c "(" then
            if Py.startswith s' "?" then None
            else
              match parse_alt fuel' s' (S n) with
              | Some (r, String c' s'', n') =>
                  if Ascii.eqb c' ")" then Some (Group (S n) r, s'', n') else None
              | _ => None
              end
          else if Ascii.eqb c "." then Some (Any, s', n)
          else if Ascii.eqb c "$" then Some (Eol, s', n)
          else if Ascii.eqb c "\" then
            match s' with
            | String d s'' => if is_alnum d then None else Some (Chr d, s'', n)
            | "" => None
            end
          else if Ascii.eqb c "[" then
            match parse_set s' with
            | Some (r, rest) => Some (r, rest, n)
            | None => None
            end
          else if is_repeat c || Ascii.eqb c "^" || Ascii.eqb c "{"
                  || negb (Py.ascii_char c) then None
          else Some (Chr c, s', n)
      end
  end.

Record pattern : Type := { ast : regex; ignorecase : bool }.

(** [re.compile(s)] and [re.compile(s, re.IGNORECASE)] on the subset;
    [None] for a text outside the subset. *)
Definition compile (s : string) (ic : bool) : option pattern :=
  match parse_alt (3 * String.length s + 3) s 0 with
  | Some (r, "", _) => Some {| ast := r; ignorecase := ic |}
  | _ => None
  end.

(** *** Matching *)

Definition captures : Type := list (nat * string).

Fixpoint lookup (n : nat) (caps : captures) : option string :=
  match caps with
  | [] => None
  | (m, v) :: rest => if Nat.eqb n m then Some v else lookup n rest
  end.

(** A literal [c] of the pattern against the character [x] of the
    subject.  A literal is ASCII; with [re.IGNORECASE] the letters A-Z
    and a-z match in both cases. *)
Definition chr_eq (ic : bool) (c x : ascii) : bool :=
  if ic then Ascii.eqb (Py.lower_ascii c) (Py.lower_ascii x) else Ascii.eqb c x.

Definition in_set (ic : bool) (items : list ascii) (x : ascii) : bool :=
  if ic then existsb (Ascii.eqb (Py.lower_ascii x)) items
             || existsb (Ascii.eqb (Py.upper_ascii x)) items
  else existsb (Ascii.eqb x) items.

(** The text consumed between two positions [s] and its suffix [s']. *)
Definition consumed (s s' : string) : string :=
  String.substring 0 (String.length s - String.length s') s.

Section Match.
Variable R : Type.
Variable ic : bool.

(** The greedy loop of a repetition: [step] matches the repeated
    expression once; an iteration has to consume something. *)
Fixpoint star_loop (step : string -> captures -> (string -> captures -> option R) -> option R)
         (k : string -> captures -> option R)
         (fuel : nat) (s : string) (caps : captures) {struct fuel} : option R :=
  match fuel with
  | 0 => k s caps
  | S fuel' =>
      match step s caps
              (fun s' caps' =>
                 if (String.length s' <? String.length s)%nat
                 then star_loop step k fuel' s' caps' else None) with
      | Some x => Some x
      | None => k s caps
      end
  end.

(** [rmatch r s caps k]: match [r] at the head of [s], then go on with
    [k] on the rest; the first success in priority order wins. *)
Fixpoint rmatch (r : regex) (s : string) (caps : captures)
         (k : string -> captures -> option R) {struct r} : option R :=
  match r with
  | Eps => k s caps
  | Chr c =>
      match s with
      | String x s' => if chr_eq ic c x then k s' caps else None
      | "" => None
      end
  | Any =>
      match s with
      | String x s' => if Ascii.eqb x Py.nl then None else k s' caps
      | "" => None
      end
  | Set_ neg items =>
      match s with
      | String x s' => if xorb neg (in_set ic items x) then k s' caps else None
      | "" => None
      end
  | Seq a b => rmatch a s caps (fun s' caps' => rmatch b s' caps' k)
  | Alt a b =>
      match rmatch a s caps k with
      | Some x => Some x
      | None => rmatch b s caps k
      end
  | Star a => star_loop (rmatch a) k (String.length s) s caps
  | Group n a =>
      rmatch a s caps (fun s' caps' => k s' ((n, consumed s s') :: caps'))
  | Eol =>
      if String.eqb s "" || String.eqb s (String Py.nl "") then k s caps else None
  end.
End Match.

(** The position after the match and the captures, or [None]. *)
Definition match_at (p : pattern) (s : string) : option (string * captures) :=
  rmatch (ignorecase p) (ast p) s [] (fun s' caps => Some (s', caps)).

Definition match_nonempty_at (p : pattern) (s : string) : option (string * captures) :=
  rmatch (ignorecase p) (ast p) s []
    (fun s' caps => if (String.length s' <? String.length s)%nat
                    then Some (s', caps) else None).

(** [p.match(s) is not None] *)
Definition matches (p : pattern) (s : string) : bool :=
  match match_at p s with Some _ => true | None => false end.

Definition group1 (caps : captures) : string :=
  match lookup 1 caps with Some v => v | None => "" end.

(** [p.findall(s)] for a pattern with exactly one group: the text of
    group 1 of each match, scanning from the left; after an empty match
    the next match at the same place has to advance. *)
Fixpoint findall_from (fuel : nat) (p : pattern) (s : string) (must_advance : bool)
  : list string :=
  match fuel with
  | 0 => []
  | S fuel' =>
      match (if must_advance then match_nonempty_at p s else match_at p s) with
      | Some (s', caps) =>
          group1 caps
            :: findall_from fuel' p s' (Nat.eqb (String.length s') (String.length s))
      | None =>
          match s with
          | "" => []
          | String _ t => findall_from fuel' p t false
          end
      end
  end.

Definition findall (p : pattern) (s : string) : list string :=
  findall_from (2 * String.length s + 2) p s false.

End Re.

(** ** Exceptions, the logger and the monad of the program

    A computation reads and extends the log and either returns a value or
    raises.  Records are kept oldest first. *)

Inductive exn_class : Type :=
| FileNotFoundError
| NotADirectoryError
| IsADirectoryError
| PermissionError
| UnicodeDecodeError
| ConnectionError
| OtherError (name : string).

Definition class_name (c : exn_class) : string :=
  match c with
  | FileNotFoundError => "FileNotFoundError"
  | NotADirectoryError => "NotADirectoryError"
  | IsADirectoryError => "IsADirectoryError"
  | PermissionError => "PermissionError"
  | UnicodeDecodeError => "UnicodeDecodeError"
  | ConnectionError => "ConnectionError"
  | OtherError name => name
  end.

Record exn : Type := Exn { exn_cls : exn_class; exn_str : string }.

Inductive result (A : Type) : Type :=
| Ok : A -> result A
| Raise : exn -> result A.
Arguments Ok {A} _.
Arguments Raise {A} _.

Inductive level : Type := DEBUG | ERROR.

Definition log_record : Type := (level * string)%type.

Definition M (A : Type) : Type := list log_record -> result A * list log_record.

Definition ret {A : Type} (a : A) : M A := fun log => (Ok a, log).

Definition bind {A B : Type} (c : M A) (f : A -> M B) : M B :=
  fun log =>
    match c log with
    | (Ok a, log') => f a log'
    | (Raise e, log') => (Raise e, log')
    end.

Definition lift {A : Type} (r : result A) : M A := fun log => (r, log).

(** [logger.debug] and [logger.error] *)
Definition logger_debug (m : string) : M unit := fun log => (Ok tt, (log ++ [(DEBUG, m)])%list).
Definition logger_error (m : string) : M unit := fun log => (Ok tt, (log ++ [(ERROR, m)])%list).

(** [try: c  except <classes>: handler]; [handler] answers [None] for an
    exception its clauses do not name. *)
Definition try_except {A : Type} (c : M A) (handler : exn -> option (M A)) : M A :=
  fun log =>
    match c log with
    | (Ok a, log') => (Ok a, log')
    | (Raise e, log') =>
        match handler e with
        | Some h => h log'
        | None => (Raise e, log')
        end
    end.

Declare Scope monad_scope.
Delimit Scope monad_scope with monad.
Notation "x <- c ;; k" := (bind c (fun x => k))
  (at level 61, c at next level, right associativity) : monad_scope.
Notation "c ;;; k" := (bind c (fun _ => k))
  (at level 61, right associativity) : monad_scope.
Local Open Scope monad_scope.

(** ** The environment: file system and network *)

(** A directory tree.  A symbolic link is seen as what it points to, as
    [DirEntry.is_file], [os.walk(followlinks=True)] and [open] see it; a
    file carries what opening and reading it gives.  [Dir] is a directory
    the process may list and search; [Denied] is a directory it may
    neither list nor search. *)
#[warnings="-register-all"]
Inductive node : Type :=
| File (content : result string)
| Dir (children : list (string * node))
| Other
| Denied.

Record Response : Type := {
  status_code : Z;
  (** [r.content.decode(r.encoding)] *)
  decoded : result string
}.

Record World : Type := {
  cwd : string;
  root : node;
  requests_get : string -> result Response
}.

(** [os.DirEntry] *)
Module DirEntry.
Record t : Type := {
  name : string;
  path : string;
  is_file : bool
}.
End DirEntry.

Definition node_is_file (n : node) : bool :=
  match n with File _ => true | _ => false end.

Fixpoint lookup_child (nm : string) (children : list (string * node)) : option node :=
  match children with
  | [] => None
  | (nm', n) :: rest => if String.eqb nm nm' then Some n else lookup_child nm rest
  end.

(** The errors of the operating system; the text names the path with its
    [repr]. *)
Definition enoent (p : string) : exn :=
  Exn FileNotFoundError ("[Errno 2] No such file or directory: " ++ Py.repr p).
Definition enotdir (p : string) : exn :=
  Exn NotADirectoryError ("[Errno 20] Not a directory: " ++ Py.repr p).
Definition eisdir (p : string) : exn :=
  Exn IsADirectoryError ("[Errno 21] Is a directory: " ++ Py.repr p).
Definition eacces (p : string) : exn :=
  Exn PermissionError ("[Errno 13] Permission denied: " ++ Py.repr p).

(** Path lookup, one component at a time; [ancestors] serves [..]. *)
Fixpoint resolve_comps (p : string) (comps : list string) (cur : node)
         (ancestors : list node) : result node :=
  match comps with
  | [] => Ok cur
  | c :: rest =>
      match cur with
      | Dir children =>
          if String.eqb c "" || String.eqb c "." then resolve_comps p rest cur ancestors
          else if String.eqb c ".." then
            match ancestors with
            | parent :: up => resolve_comps p rest parent up
            | [] => resolve_comps p rest cur []
            end
          else
            match lookup_child c children with
            | Some n => resolve_comps p rest n (cur :: ancestors)
            | None => Raise (enoent p)
            end
      | Denied =>
          if String.eqb c "" then resolve_comps p rest cur ancestors
          else Raise (eacces p)
      | _ => Raise (enotdir p)
      end
  end.

Definition resolve (w : World) (p : string) : result node :=
  if String.eqb p "" then Raise (enoent p)
  else if OsPath.isabs p then resolve_comps p (Py.split "/" p) (root w) []
  else resolve_comps p (Py.split "/" (cwd w) ++ Py.split "/" p)%list (root w) [].

(** [os.scandir(p)], consumed to the end; a directory that may not be
    listed raises [PermissionError]. *)
Definition scandir (w : World) (p : string) : result (list DirEntry.t) :=
  match resolve w p with
  | Ok (Dir children) =>
      Ok (map (fun c => {| DirEntry.name := fst c;
                           DirEntry.path := OsPath.join p (fst c);
                           DirEntry.is_file := node_is_file (snd c) |}) children)
  | Ok Denied => Raise (eacces p)
  | Ok _ => Raise (enotdir p)
  | Raise e => Raise e
  end.

(** [open(p)] followed by reading the whole text. *)
Definition open_read (w : World) (p : string) : result string :=
  match resolve w p with
  | Ok (File content) => content
  | Ok (Dir _) => Raise (eisdir p)
  | Ok Denied => Raise (eacces p)
  | Ok Other => Raise (Exn (OtherError "OSError") p)
  | Raise e => Raise e
  end.

(** The lines a text file object yields, line ends translated to LF. *)
Fixpoint file_lines (s : string) : list string :=
  match s with
  | "" => []
  | String c s' =>
      if Ascii.eqb c "013" then
        match s' with
        | String "010" s'' => String Py.nl "" :: file_lines s''
        | _ => String Py.nl "" :: file_lines s'
        end
      else if Ascii.eqb c Py.nl then String Py.nl "" :: file_lines s'
      else match file_lines s' with
           | [] => [String c ""]
           | x :: rest => String c x :: rest
           end
      end.

(** ** The program *)

(** The text of [enclosure_re]; [Py.dq] is the double quote character. *)
Definition enclosure_str : string :=
  ".*enclosure.*url=" ++ Py.dq ++ "([^" ++ Py.dq ++ "]*)" ++ Py.dq.

Definition enclosure_re : Re.pattern :=
  Eval vm_compute in
    match Re.compile enclosure_str false with
    | Some p => p
    | None => {| Re.ast := Re.Eps; Re.ignorecase := false |}
    end.

(** What [open] and an f-string make of the [filename] argument of the
    handlers: a directory entry or a plain string. *)
Inductive pathlike : Type :=
| PEntry (e : DirEntry.t)
| PStr (s : string).

Definition fspath (f : pathlike) : string :=
  match f with PEntry e => DirEntry.path e | PStr s => s end.

(** [str(filename)]: a directory entry shows the [repr] of its name, a
    string is itself. *)
Definition format_pathlike (f : pathlike) : string :=
  match f with
  | PEntry e => "<DirEntry " ++ Py.repr (DirEntry.name e) ++ ">"
  | PStr s => s
  end.

(** [for x in xs: acc = body(x, acc)] *)
Fixpoint for_each {A B : Type} (body : A -> B -> M B) (xs : list A) (acc : B) : M B :=
  match xs with
  | [] => ret acc
  | x :: rest => acc' <- body x acc ;; for_each body rest acc'
  end.

(** [len(line) > 0 and not line.startswith('#')] *)
Definition is_entry_line (line : string) : bool :=
  (0 <? String.length line)%nat && negb (Py.startswith line "#").

(** The texts [decode_podcast_core] logs. *)
Definition get_error_text (e : exn) : string :=
  "Get URL: " ++ class_name (exn_cls e) ++ ": " ++ exn_str e.
Definition status_error_text (code : Z) (url : string) : string :=
  "Got error code " ++ Py.str_of_Z code ++ " fetching from '" ++ url ++ "'".
Definition zero_entries_text (url : string) : string :=
  "Zero file entries in parsed content from '" ++ url ++ "'".

Section Program.

Variable w : World.

Definition decode_podcast_core (url : string) (playlist : list string)
  : M (list string) :=
  match requests_get w url with
  | Raise e =>
      logger_error (get_error_text e) ;;;
      ret playlist
  | Ok r =>
      (if negb (Z.eqb (status_code r) 200)
       then logger_error (status_error_text (status_code r) url)
       else ret tt) ;;;
      body <- lift (decoded r) ;;
      let er := Re.findall enclosure_re body in
      (if Nat.eqb (List.length er) 0
       then logger_error (zero_entries_text url)
       else ret tt) ;;;
      ret (playlist ++ er)%list
  end.

(** The body of the loop of [decode_podcast] on one line. *)
Definition decode_podcast_line (line : string) (playlist : list string)
  : M (list string) :=
  let line := Py.strip line in
  if is_entry_line line then decode_podcast_core line playlist
  else ret playlist.

Definition decode_podcast (filename : pathlike) (path : string)
           (playlist : list string) : M (list string) :=
  logger_debug ("Decode podcast: '" ++ format_pathlike filename ++ "'") ;;;
  f <- lift (open_read w (fspath filename)) ;;
  for_each decode_podcast_line (file_lines f) playlist.

(** The body of the loop of [decode_livestream] on one line. *)
Definition decode_livestream_line (line : string) (playlist : list string)
  : M (list string) :=
  let line := Py.strip line in
  if is_entry_line line then ret (playlist ++ [line])%list
  else ret playlist.

Definition decode_livestream (filename : DirEntry.t) (path : string)
           (playlist : list string) : M (list string) :=
  logger_debug ("Decode livestream: '" ++ format_pathlike (PEntry filename) ++ "'") ;;;
  f <- lift (open_read w (DirEntry.path filename)) ;;
  for_each decode_livestream_line (file_lines f) playlist.

Definition decode_musicfile (filename : DirEntry.t) (path : string)
           (playlist : list string) : M (list string) :=
  ret (playlist ++ [OsPath.normpath (OsPath.join path (DirEntry.name filename))])%list.

(** The body of the loop of [decode_m3u] on one line. *)
Definition decode_m3u_line (path : string) (line : string) (playlist : list string)
  : M (list string) :=
  let line := Py.strip line in
  if is_entry_line line then
    if Py.endswith line ".xml" || Py.endswith line ".podcast" then
      decode_podcast (PStr line) path playlist
    else if Py.startswith line "http://" || Py.startswith line "https://"
            || Py.startswith line "ftp://" then
      ret (playlist ++ [line])%list
    else
      ret (playlist ++ [OsPath.normpath (OsPath.join path line)])%list
  else ret playlist.

(** [playlist.clear()] makes the list handed in irrelevant; the list
    after the call is returned. *)
Definition decode_m3u (filename : DirEntry.t) (path : string)
           (playlist : list string) : M (list string) :=
  logger_debug ("Decode M3U '" ++ DirEntry.path filename
                ++ "'. Replacing current (sub-)folder playlist") ;;;
  let playlist := @nil string in
  f <- lift (open_read w (DirEntry.path filename)) ;;
  for_each (decode_m3u_line path) (file_lines f) playlist.

(** A handler gives the list after the call and the truth value of what
    it returns. *)
Definition handler : Type := DirEntry.t -> string -> list string -> M (list string * bool).

Definition returning (b : bool) (c : M (list string)) : M (list string * bool) :=
  playlist <- c ;; ret (playlist, b).

(** [self.special_handlers], in the order of insertion, which is the
    order [keys()] runs through. *)
Definition special_handlers : list (string * handler) :=
  [ ("livestream.txt", fun f p l => returning false (decode_livestream f p l));
    ("podcast.txt", fun f p l => returning false (decode_podcast (PEntry f) p l));
    (".txt", fun f p l => returning false (ret l));
    (".m3u", fun f p l => returning true (decode_m3u f p l)) ].

Definition default_handler : DirEntry.t -> string -> list string -> M (list string) :=
  decode_musicfile.

(** *** The class attributes *)

Record ClassState : Type := {
  _exclude_endings : list string;
  _exclude_str : string;
  _exclude_re : Re.pattern
}.

Definition exclude_str_of (endings : list string) : string :=
  ".*\.((" ++ Py.join ")|(" endings ++ "))$".

Definition default_exclude_endings : list string :=
  ["zip"; "py"; "db"; "png"; "jpg"; "conf"; "yaml"; "json"; ".*~"; ".*#"].

Definition default_exclude_re : Re.pattern :=
  Eval vm_compute in
    match Re.compile (exclude_str_of default_exclude_endings) true with
    | Some p => p
    | None => {| Re.ast := Re.Eps; Re.ignorecase := true |}
    end.

Definition default_class : ClassState :=
  {| _exclude_endings := default_exclude_endings;
     _exclude_str := exclude_str_of default_exclude_endings;
     _exclude_re := default_exclude_re |}.

(** [PlaylistCollector.set_exclusion_endings]: the class attributes
    after the call, when the pattern text is in the subset of [Re.compile];
    [None] when it is not: what the call does then is not modelled. *)
Definition set_exclusion_endings (endings : list string) : option ClassState :=
  match Re.compile (exclude_str_of endings) true with
  | Some p => Some {| _exclude_endings := endings;
                      _exclude_str := exclude_str_of endings;
                      _exclude_re := p |}
  | None => None
  end.

Variable cls : ClassState.

(** [PlaylistCollector._is_valid] *)
Definition _is_valid (direntry : DirEntry.t) : bool :=
  DirEntry.is_file direntry && negb (Py.startswith (DirEntry.name direntry) ".")
  && negb (Re.matches (_exclude_re cls) (DirEntry.name direntry)).

(** *** The instance *)

Record PlaylistCollector : Type := {
  playlist : list string;
  _music_library_base_path : string;
  _folder : string;
  _recursive : bool
}.

Definition __init__ (music_library_base_path : string) : M PlaylistCollector :=
  logger_debug ("Exclusion regex: '" ++ _exclude_str cls ++ "'") ;;;
  ret {| playlist := [];
         _music_library_base_path := OsPath.abspath (cwd w) music_library_base_path;
         _folder := "";
         _recursive := false |}.

(** The inner loop over [special_handlers.keys()], with its [else]. *)
Fixpoint dispatch (handlers : list (string * handler)) (filename : DirEntry.t)
         (path : string) (folder_playlist : list string) : M (list string * bool) :=
  match handlers with
  | [] => returning false (default_handler filename path folder_playlist)
  | (key, h) :: rest =>
      if Py.endswith (Py.casefold (DirEntry.name filename)) key
      then h filename path folder_playlist
      else dispatch rest filename path folder_playlist
  end.

(** The outer loop over the sorted directory. *)
Fixpoint process_directory (directory : list DirEntry.t) (path : string)
         (folder_playlist : list string) (stop_processing : bool) : M (list string) :=
  match directory with
  | [] => ret folder_playlist
  | filename :: rest =>
      if stop_processing then ret folder_playlist
      else
        step <- dispatch special_handlers filename path folder_playlist ;;
        process_directory rest path (fst step) (snd step)
  end.

(** What [_parse_nonrecusive] does with the entries [os.scandir] gave. *)
Definition process_listing (entries : list DirEntry.t) (path : string) : M (list string) :=
  let directory := filter _is_valid entries in
  let directory := Py.sorted (fun x => Py.casefold (DirEntry.name x)) directory in
  process_directory directory path [] false.

Definition _parse_nonrecusive (path : string) : M (list string) :=
  entries <- lift (scandir w path) ;;
  process_listing entries path.

(** [os.walk(top, followlinks=True)], the directory paths it yields:
    top down, the sub-directories in the order of the listing.  A
    directory whose listing fails yields nothing, neither itself nor what
    is below it, and no error: [onerror] is not given. *)
Fixpoint walk_node (top : string) (n : node) : list string :=
  match n with
  | Dir children =>
      top :: flat_map (fun c => walk_node (OsPath.join top (fst c)) (snd c)) children
  | _ => []
  end.

Definition os_walk (top : string) : list string :=
  match resolve w top with
  | Ok n => walk_node top n
  | Raise _ => []
  end.

Definition _parse_recursive (path : string) : M (list string) :=
  let dir_list := os_walk path in
  for_each (fun d recursive_playlist =>
              folder <- _parse_nonrecusive d ;;
              ret (recursive_playlist ++ folder)%list)
           (Py.sorted Py.casefold dir_list) [].

Definition error_message (e : exn) : string :=
  " " ++ class_name (exn_cls e) ++ ": " ++ exn_str e.

(** [PlaylistCollector.parse] *)
Definition parse (self : PlaylistCollector) (path : string) (recursive : bool)
  : M PlaylistCollector :=
  let self := {| playlist := [];
                 _music_library_base_path := _music_library_base_path self;
                 _folder := OsPath.abspath (cwd w)
                              (OsPath.join (_music_library_base_path self) path);
                 _recursive := recursive |} in
  let func := if recursive then _parse_recursive else _parse_nonrecusive in
  try_except
    (pl <- func (_folder self) ;;
     ret {| playlist := pl;
            _music_library_base_path := _music_library_base_path self;
            _folder := _folder self;
            _recursive := _recursive self |})
    (fun e =>
       match exn_cls e with
       | NotADirectoryError => Some (logger_error (error_message e) ;;; ret self)
       | FileNotFoundError => Some (logger_error (error_message e) ;;; ret self)
       | _ => None
       end).

End Program.

(** ** Vocabulary of the statements *)

(** Two computations agree: same outcome and same log from every log. *)
Definition meq {A : Type} (c1 c2 : M A) : Prop := forall log, c1 log = c2 log.
Infix "=m=" := meq (at level 70, no associativity).

Definition folded_name (e : DirEntry.t) : string := Py.casefold (DirEntry.name e).

Definition is_m3u (e : DirEntry.t) : bool := Py.endswith (folded_name e) ".m3u".

(** An entry no classifier of [special_handlers] claims. *)
Definition is_plain (e : DirEntry.t) : bool :=
  negb (Py.endswith (folded_name e) "livestream.txt")
  && negb (Py.endswith (folded_name e) "podcast.txt")
  && negb (Py.endswith (folded_name e) ".txt")
  && negb (Py.endswith (folded_name e) ".m3u").

(** What [decode_m3u] does with a line that counts, already stripped. *)
Definition m3u_entry (w : World) (path : string) (line : string) (playlist : list string)
  : M (list string) :=
  if Py.endswith line ".xml" || Py.endswith line ".podcast" then
    decode_podcast w (PStr line) path playlist
  else if Py.startswith line "http://" || Py.startswith line "https://"
          || Py.startswith line "ftp://" then
    ret (playlist ++ [line])%list
  else
    ret (playlist ++ [OsPath.normpath (OsPath.join path line)])%list.

(** The stripped lines of a list file that are neither blank nor comment. *)
Definition entry_lines (text : string) : list string :=
  filter is_entry_line (map Py.strip (file_lines text)).

Fixpoint last_char (s : string) : option ascii :=
  match s with
  | "" => None
  | String c "" => Some c
  | String _ s' => last_char s'
  end.

(** No newline in the string. *)
Fixpoint no_nl (s : string) : bool :=
  match s with
  | "" => true
  | String c s' => negb (Ascii.eqb c Py.nl) && no_nl s'
  end.

(** [q] is the path of a directory of the tree [n] found at path [top]:
    [top] itself or below it, a directory that may be listed, reached
    through directories that may be listed. *)
Inductive subdir : string -> node -> string -> Prop :=
| subdir_root : forall top children, subdir top (Dir children) top
| subdir_child : forall top children nm children' q,
    In (nm, Dir children') children ->
    subdir (OsPath.join top nm) (Dir children') q ->
    subdir top (Dir children) q.

(** [map f] in the monad, left to right. *)
Fixpoint map_m {A B : Type} (f : A -> M B) (xs : list A) : M (list B) :=
  match xs with
  | [] => ret []
  | x :: rest => y <- f x ;; ys <- map_m f rest ;; ret (y :: ys)
  end.

(** The collector [parse] leaves when the resolution gave nothing. *)
Definition emptied (w : World) (self : PlaylistCollector) (path : string) (recursive : bool)
  : PlaylistCollector :=
  {| playlist := [];
     _music_library_base_path := _music_library_base_path self;
     _folder := OsPath.abspath (cwd w) (OsPath.join (_music_library_base_path self) path);
     _recursive := recursive |}.

(** The body of the loop of [_parse_recursive]. *)
Definition add_folder (w : World) (cls : ClassState) (d : string)
           (recursive_playlist : list string) : M (list string) :=
  folder <- _parse_nonrecusive w cls d ;;
  ret (recursive_playlist ++ folder)%list.

(** The function [parse] selects. *)
Definition selected (w : World) (cls : ClassState) (recursive : bool)
  : string -> M (list string) :=
  if recursive then _parse_recursive w cls else _parse_nonrecusive w cls.

(** The entry is one of the list files a handler opens. *)
Definition is_read_list_file (f : DirEntry.t) : bool :=
  Py.endswith (folded_name f) "livestream.txt"
  || Py.endswith (folded_name f) "podcast.txt"
  || is_m3u f.

Definition casefold_le (a b : string) : Prop :=
  String.leb (Py.casefold a) (Py.casefold b) = true.

(** What a pattern means, apart from the search order: [matching ic r u t]
    says that [r] matches the text [u] when [t] is what follows it in the
    subject.  An iteration of a repetition consumes something. *)
Inductive matching (ic : bool) : Re.regex -> string -> string -> Prop :=
| m_eps : forall t, matching ic Re.Eps "" t
| m_chr : forall c x t, Re.chr_eq ic c x = true -> matching ic (Re.Chr c) (String x "") t
| m_any : forall x t, Ascii.eqb x Py.nl = false -> matching ic Re.Any (String x "") t
| m_set : forall neg items x t,
    xorb neg (Re.in_set ic items x) = true ->
    matching ic (Re.Set_ neg items) (String x "") t
| m_seq : forall a b u1 u2 t,
    matching ic a u1 (u2 ++ t) -> matching ic b u2 t ->
    matching ic (Re.Seq a b) (u1 ++ u2) t
| m_alt_l : forall a b u t, matching ic a u t -> matching ic (Re.Alt a b) u t
| m_alt_r : forall a b u t, matching ic b u t -> matching ic (Re.Alt a b) u t
| m_star_0 : forall a t, matching ic (Re.Star a) "" t
| m_star_s : forall a u1 u2 t,
    matching ic a u1 (u2 ++ t) -> u1 <> "" -> matching ic (Re.Star a) u2 t ->
    matching ic (Re.Star a) (u1 ++ u2) t
| m_group : forall n a u t, matching ic a u t -> matching ic (Re.Group n a) u t
| m_eol : forall t, t = "" \/ t = String Py.nl "" -> matching ic Re.Eol "" t.

(** Failure of the continuation does not depend on the captures. *)
Definition caps_blind {R : Type} (k : string -> Re.captures -> option R) : Prop :=
  forall s c1 c2, k s c1 = None -> k s c2 = None.

(** What [rmatch] is to achieve on [r] for every continuation. *)
Definition finds (R : Type) (ic : bool) (r : Re.regex) : Prop :=
  forall (k : string -> Re.captures -> option R), caps_blind k ->
  forall s caps,
    Re.rmatch ic r s caps k <> None
    <-> exists u t caps', s = u ++ t /\ matching ic r u t /\ k t caps' <> None.

(** Group numbers moved up by [k]. *)
Fixpoint shift (k : nat) (r : Re.regex) : Re.regex :=
  match r with
  | Re.Seq a b => Re.Seq (shift k a) (shift k b)
  | Re.Alt a b => Re.Alt (shift k a) (shift k b)
  | Re.Star a => Re.Star (shift k a)
  | Re.Group n a => Re.Group (n + k) (shift k a)
  | other => other
  end.

(** The expression [set_exclusion_endings] aims at: anything, a dot, one
    of the alternatives, the end. *)
Definition exclusion_ast (alts : Re.regex) : Re.regex :=
  Re.Seq (Re.Star Re.Any)
    (Re.Seq (Re.Chr ".") (Re.Seq (Re.Group 1 alts) (Re.Seq Re.Eol Re.Eps))).

(** The ending is a pattern of its own: [re.compile] takes it and gives
    the expression [r]. *)
Definition compiles_to (ending : string) (r : Re.regex) : Prop :=
  exists ic, Re.compile ending ic = Some {| Re.ast := r; Re.ignorecase := ic |}.

(** What is joined: [join] makes of no ending what it makes of the empty
    ending alone. *)
Definition joined_endings (endings : list string) : list string :=
  match endings with
  | [] => [""]
  | _ => endings
  end.

(** The alternatives between the inner parentheses, as text. *)
Definition alternatives_text (endings : list string) : string :=
  "(" ++ Py.join ")|(" endings ++ ")".

(** Name and end of subject: the subject ends here or with one newline. *)
Definition at_end (t : string) : Prop := t = "" \/ t = String Py.nl "".

(** A pattern parsed to some point is parsed the same way, its groups
    renumbered, when a closing parenthesis and more text follow, the
    numbering starts higher and there is more fuel. *)
Definition extends (parse : nat -> string -> nat -> option (Re.regex * string * nat))
           (f : nat) : Prop :=
  forall f' s n r rest n' k t,
    f <= f' ->
    parse f s n = Some (r, rest, n') ->
    parse f' (s ++ String ")" t) (n + k) = Some (shift k r, rest ++ String ")" t, n' + k).


(** ** An example environment

    A music library under [/music] with one folder per situation, and
    three feeds: one answers with two enclosures on two lines, one with two
    enclosures on one line, one with status 404; every other address
    refuses the connection. *)

Definition LF : string := String Py.nl "".

Definition enclosure_tag (url : string) : string :=
  "<enclosure url=" ++ Py.dq ++ url ++ Py.dq ++ " type=" ++ Py.dq ++ "audio/mpeg" ++ Py.dq ++ "/>".

Definition feed_two_lines : string :=
  "<rss>" ++ LF ++ enclosure_tag "http://h/1.mp3" ++ LF
  ++ enclosure_tag "http://h/2.mp3" ++ LF ++ "</rss>".

Definition feed_one_line : string :=
  "<rss>" ++ enclosure_tag "http://h/1.mp3" ++ enclosure_tag "http://h/2.mp3" ++ "</rss>".

Definition demo_get (url : string) : result Response :=
  if String.eqb url "http://feed/ok" then
    Ok {| status_code := 200; decoded := Ok feed_two_lines |}
  else if String.eqb url "http://feed/oneline" then
    Ok {| status_code := 200; decoded := Ok feed_one_line |}
  else if String.eqb url "http://feed/404" then
    Ok {| status_code := 404; decoded := Ok "not found" |}
  else Raise (Exn ConnectionError "connection refused").

Definition mp3 : node := File (Ok "").

Definition demo_root : node :=
  Dir [("music",
        Dir [("A", Dir [("b.mp3", mp3); ("a.mp3", mp3); ("C.mp3", mp3);
                        (".hidden", mp3); ("cover.jpg", mp3);
                        ("sub", Dir [("z.mp3", mp3)])]);
             ("B", Dir [("1.mp3", mp3);
                        ("2-livestream.txt",
                         File (Ok ("# radio" ++ LF ++ " http://s/1 " ++ LF ++ LF ++ "http://s/2")));
                        ("3-podcast.txt",
                         File (Ok ("http://feed/down" ++ LF ++ "http://feed/ok")));
                        ("4.mp3", mp3)]);
             ("M", Dir [("a.mp3", mp3);
                        ("p.M3U", File (Ok ("c.mp3" ++ LF ++ "#x" ++ LF ++ "http://u/v")));
                        ("q.m3u", File (Ok "never.mp3"));
                        ("z.mp3", mp3)]);
             ("P", Dir [("1-livestream.txt",
                         File (Raise (Exn PermissionError "[Errno 13] Permission denied")));
                        ("2.mp3", mp3)]);
             ("G", Dir [("1-livestream.txt",
                         File (Raise (Exn FileNotFoundError "[Errno 2] No such file or directory")));
                        ("2.mp3", mp3)]);
             ("T", Dir [("notes.txt", File (Raise (Exn PermissionError "[Errno 13] Permission denied")));
                        ("song.mp3", mp3)]);
             ("X", Dir [("p.m3u", File (Ok "http://feed/ok.xml"))]);
             ("f.mp3", mp3)]);
       ("home", Dir [("pi", Dir [])])].

Definition demo_world : World :=
  {| cwd := "/home/pi"; root := demo_root; requests_get := demo_get |}.

Definition walk_collector : PlaylistCollector :=
  {| playlist := []; _music_library_base_path := "/lib"; _folder := ""; _recursive := false |}.

Definition demo_collector : PlaylistCollector :=
  {| playlist := []; _music_library_base_path := "/music"; _folder := ""; _recursive := false |}.

(** Folders [A/], [B/] and [A/sub/], listed in another order. *)
Definition walk_world : World :=
  {| cwd := "/";
     root := Dir [("lib", Dir [("B", Dir [("b.mp3", mp3)]);
                               ("A", Dir [("sub", Dir [("s.mp3", mp3)]); ("a.mp3", mp3)])])];
     requests_get := demo_get |}.

Definition entry (nm : string) (folder : string) : DirEntry.t :=
  {| DirEntry.name := nm; DirEntry.path := OsPath.join folder nm; DirEntry.is_file := true |}.

(** ** Further vocabulary *)

(** The texts the handlers log at debug level. *)
Definition livestream_debug_text (f : DirEntry.t) : string :=
  "Decode livestream: '" ++ format_pathlike (PEntry f) ++ "'".
Definition podcast_debug_text (f : pathlike) : string :=
  "Decode podcast: '" ++ format_pathlike f ++ "'".
Definition m3u_debug_text (f : DirEntry.t) : string :=
  "Decode M3U '" ++ DirEntry.path f ++ "'. Replacing current (sub-)folder playlist".

(** A line of a folder playlist that [decode_m3u] takes for a feed. *)
Definition is_feed_line (line : string) : bool :=
  Py.endswith line ".xml" || Py.endswith line ".podcast".

(** What [decode_m3u] appends for a line that is no feed. *)
Definition m3u_plain_entry (path : string) (line : string) : string :=
  if Py.startswith line "http://" || Py.startswith line "https://"
     || Py.startswith line "ftp://"
  then line
  else OsPath.normpath (OsPath.join path line).

(** What one feed address contributes when nothing raises past the
    fetcher. *)
Definition enclosures_of (w : World) (url : string) : list string :=
  match requests_get w url with
  | Ok r =>
      match decoded r with
      | Ok body => Re.findall enclosure_re body
      | Raise _ => []
      end
  | Raise _ => []
  end.

(** The address either cannot be fetched or answers with a body that
    decodes. *)
Definition fetch_decodes (w : World) (url : string) : bool :=
  match requests_get w url with
  | Ok r => match decoded r with Ok _ => true | Raise _ => false end
  | Raise _ => true
  end.

(** The entry is handled without the feed fetcher: it is no folder
    playlist and no podcast list. *)
Definition is_offline (e : DirEntry.t) : bool :=
  negb (is_m3u e)
  && (Py.endswith (folded_name e) "livestream.txt"
      || negb (Py.endswith (folded_name e) "podcast.txt")).

Definition node_is_dir (n : node) : bool :=
  match n with Dir _ => true | Denied => true | _ => false end.

(** What follows the leading [.*] in [enclosure_re]. *)
Definition enclosure_rest : Re.regex :=
  Eval vm_compute in
    match Re.ast enclosure_re with
    | Re.Seq _ b => b
    | r => r
    end.

(** The continuations of [match_at] and [match_nonempty_at]. *)
Definition k_all : string -> Re.captures -> option (string * Re.captures) :=
  fun s' caps => Some (s', caps).
Definition k_advance (s : string) : string -> Re.captures -> option (string * Re.captures) :=
  fun s' caps => if (String.length s' <? String.length s)%nat then Some (s', caps) else None.

(** [v] is what is left of [s] from some position on. *)
Definition suffix_of (v s : string) : Prop := exists w, s = w ++ v.

(** The characters the pattern syntax gives a meaning to. *)
Definition special_chars : list ascii :=
  ["|"; "("; ")"; "."; "$"; "\"; "["; "*"; "+"; "?"; "^"; "{"]%char.

Definition is_literal_char (c : ascii) : bool :=
  negb (existsb (Ascii.eqb c) special_chars) && Py.ascii_char c.

(** An ending like [zip] or [log]: ASCII text, no character of it is
    special. *)
Fixpoint all_literal (s : string) : bool :=
  match s with
  | "" => true
  | String c s' => is_literal_char c && all_literal s'
  end.

(** The expression a text without special characters compiles to. *)
Fixpoint lit (s : string) : Re.regex :=
  match s with
  | "" => Re.Eps
  | String c s' => Re.Seq (Re.Chr c) (lit s')
  end.

(** *** Rendering *)

(** [str(b)] for a truth value and [str(n)] for a natural number. *)
Definition bool_str (b : bool) : string := if b then "True" else "False".
Definition str_of_nat (n : nat) : string := NilZero.string_of_uint (Nat.to_uint n).

Fixpoint spaces (n : nat) : string :=
  match n with
  | 0 => ""
  | S n' => String " " (spaces n')
  end.

(** The format [>width]: right-aligned, padded with blanks. *)
Definition format_right (width : nat) (s : string) : string :=
  spaces (width - String.length s) ++ s.

(** The first line [__str__] writes, without its line end. *)
Definition str_header (self : PlaylistCollector) : string :=
  "Playlist for '" ++ _folder self ++ "' (recursive=" ++ bool_str (_recursive self) ++ ")".

(** The loop of [__str__] over [enumerate(self.playlist)], from index
    [idx] on. *)
Fixpoint str_entries (idx : nat) (entries : list string) : string :=
  match entries with
  | [] => ""
  | e :: rest =>
      format_right 4 (str_of_nat idx) ++ ": " ++ e ++ LF ++ str_entries (S idx) rest
  end.

(** [PlaylistCollector.__str__] *)
Definition __str__ (self : PlaylistCollector) : string :=
  str_header self ++ LF
  ++ (if Nat.eqb (List.length (playlist self)) 0 then "    -- empty --" else "")
  ++ str_entries 0 (playlist self).

(** [PlaylistCollector.__iter__], as the sequence it runs through. *)
Definition __iter__ (self : PlaylistCollector) : list string := playlist self.

(** Reading a rendering back: the text after the first colon and blank
    of every line but the first; a line without them holds no entry. *)
Fixpoint after_colon (s : string) : option string :=
  match s with
  | "" => None
  | String c r =>
      match r with
      | String d r' =>
          if Ascii.eqb c ":" && Ascii.eqb d " " then Some r' else after_colon r
      | "" => None
      end
  end.

Definition entries_of_str (s : string) : list string :=
  match Py.split Py.nl s with
  | [] => []
  | _ :: lines =>
      flat_map (fun l => match after_colon l with Some e => [e] | None => [] end) lines
  end.

Fixpoint has_char (c : ascii) (s : string) : bool :=
  match s with
  | "" => false
  | String d s' => Ascii.eqb d c || has_char c s'
  end.

(** *** The walk below a folder *)

(** No name in the tree starts with the separator, as on a file system. *)
Fixpoint plain_names (n : node) : bool :=
  match n with
  | Dir children =>
      forallb (fun c => negb (Py.startswith (fst c) "/") && plain_names (snd c)) children
  | _ => true
  end.

(** The directories [os.walk] reports after [top] itself. *)
Definition below (top : string) (children : list (string * node)) : list string :=
  flat_map (fun c => walk_node (OsPath.join top (fst c)) (snd c)) children.

(** *** Order, first match and failing feeds *)

(** The order of the entries of a folder: by their folded names. *)
Definition name_le (a b : DirEntry.t) : Prop :=
  String.leb (folded_name a) (folded_name b) = true.

(** The list cut at its first element with [P]. *)
Fixpoint split_first {A : Type} (P : A -> bool) (l : list A)
  : option (list A * A * list A) :=
  match l with
  | [] => None
  | a :: rest =>
      if P a then Some ([], a, rest)
      else match split_first P rest with
           | Some (pre, m, post) => Some (a :: pre, m, post)
           | None => None
           end
  end.

(** The GET of the address raises. *)
Definition get_raises (w : World) (url : string) : bool :=
  match requests_get w url with Raise _ => true | Ok _ => false end.

(** One error record for each address whose GET raises. *)
Definition get_failure_records (w : World) (urls : list string) : list log_record :=
  flat_map (fun url => match requests_get w url with
                       | Raise e => [(ERROR, get_error_text e)]
                       | Ok _ => []
                       end) urls.

(** *** More example environments *)

(** Folders whose names differ in the case of letters: the code points
    put [B] before [a]. *)
Definition case_world : World :=
  {| cwd := "/";
     root := Dir [("lib", Dir [("c", Dir [("3.mp3", mp3)]);
                               ("B", Dir [("2.mp3", mp3)]);
                               ("a", Dir [("1.mp3", mp3)])])];
     requests_get := demo_get |}.

(** A library with a directory that may not be listed. *)
Definition locked_world : World :=
  {| cwd := "/";
     root := Dir [("lib", Dir [("L", Denied); ("A", Dir [("a.mp3", mp3)])])];
     requests_get := demo_get |}.

(** Folder [W] has two folder playlists whose names differ in case,
    folder [H] a hidden one, folder [Q] a livestream list with an
    apostrophe in its name. *)
Definition m3u_world : World :=
  {| cwd := "/";
     root := Dir [("lib",
                   Dir [("W", Dir [("z.mp3", mp3);
                                   ("B.m3u", File (Ok "b.mp3"));
                                   ("a.m3u", File (Ok ("a1.mp3" ++ LF ++ "#c" ++ LF ++ "http://u/v")));
                                   ("0.mp3", mp3)]);
                        ("H", Dir [(".first.m3u", File (Ok "x.mp3")); ("a.mp3", mp3)]);
                        ("Q", Dir [("it's-livestream.txt", File (Ok "http://s/1"))])])];
     requests_get := demo_get |}.

(** A folder with a podcast list none of whose feeds can be fetched. *)
Definition down_world : World :=
  {| cwd := "/";
     root := Dir [("lib",
                   Dir [("D", Dir [("d-podcast.txt",
                                    File (Ok ("http://feed/down" ++ LF ++ "http://feed/out")));
                                   ("e.mp3", mp3)])])];
     requests_get := demo_get |}.

Unset Implicit Arguments.

(** ** Basic facts *)

Example normpath_ex1 : OsPath.normpath "/music/A/../B//c.mp3" = "/music/B/c.mp3".
Proof. reflexivity. Qed.

Example strip_ex1 : Py.strip (String "009" " ab c  " ++ String Py.nl "") = "ab c".
Proof. reflexivity. Qed.

Lemma enclosure_re_compiled : Re.compile enclosure_str false = Some enclosure_re.
Proof. vm_compute. reflexivity. Qed.

Lemma default_exclude_re_compiled :
  Re.compile (exclude_str_of default_exclude_endings) true = Some default_exclude_re.
Proof. vm_compute. reflexivity. Qed.

Lemma last_char_cons c s : s <> "" -> last_char (String c s) = last_char s.
Proof. destruct s; [congruence | reflexivity]. Qed.

Lemma endswith_cons c s suf :
  Py.endswith (String c s) suf
  = if String.eqb (String c s) suf then true else Py.endswith s suf.
Proof. reflexivity. Qed.

Lemma endswith_nil suf : Py.endswith "" suf = String.eqb "" suf.
Proof. destruct suf; reflexivity. Qed.

Lemma endswith_last s suf :
  suf <> "" -> Py.endswith s suf = true -> last_char s = last_char suf.
Proof.
  intros Hsuf. induction s as [| c s IH].
  - rewrite endswith_nil. intros H. apply String.eqb_eq in H. congruence.
  - rewrite endswith_cons.
    destruct (String.eqb_spec (String c s) suf) as [-> | Hne]; [reflexivity |].
    intros H. destruct s as [| d s'].
    + rewrite endswith_nil in H. apply String.eqb_eq in H. congruence.
    + rewrite <- (IH H). reflexivity.
Qed.

Lemma m3u_not_txt s : Py.endswith s ".m3u" = true -> Py.endswith s ".txt" = false.
Proof.
  intros H. destruct (Py.endswith s ".txt") eqn:E; [| reflexivity].
  apply endswith_last in H; [| discriminate].
  apply endswith_last in E; [| discriminate].
  rewrite H in E. discriminate.
Qed.

Lemma m3u_not_livestream s :
  Py.endswith s ".m3u" = true -> Py.endswith s "livestream.txt" = false.
Proof.
  intros H. destruct (Py.endswith s "livestream.txt") eqn:E; [| reflexivity].
  apply endswith_last in H; [| discriminate].
  apply endswith_last in E; [| discriminate].
  rewrite H in E. discriminate.
Qed.

Lemma m3u_not_podcast s :
  Py.endswith s ".m3u" = true -> Py.endswith s "podcast.txt" = false.
Proof.
  intros H. destruct (Py.endswith s "podcast.txt") eqn:E; [| reflexivity].
  apply endswith_last in H; [| discriminate].
  apply endswith_last in E; [| discriminate].
  rewrite H in E. discriminate.
Qed.

(** *** The monad *)

Lemma bind_ret_l {A B : Type} (a : A) (f : A -> M B) log : bind (ret a) f log = f a log.
Proof. reflexivity. Qed.

Lemma bind_ok {A B : Type} (c : M A) (f : A -> M B) log a log' :
  c log = (Ok a, log') -> bind c f log = f a log'.
Proof. unfold bind. intros ->. reflexivity. Qed.

Lemma bind_raise {A B : Type} (c : M A) (f : A -> M B) log e log' :
  c log = (Raise e, log') -> bind c f log = (Raise e, log').
Proof. unfold bind. intros ->. reflexivity. Qed.

Lemma bind_assoc {A B C : Type} (c : M A) (f : A -> M B) (g : B -> M C) log :
  bind (bind c f) g log = bind c (fun a => bind (f a) g) log.
Proof. unfold bind. destruct (c log) as [[a | e] log']; reflexivity. Qed.

Lemma bind_ext {A B : Type} (c : M A) (f g : A -> M B) log :
  (forall a log', f a log' = g a log') -> bind c f log = bind c g log.
Proof. intros H. unfold bind. destruct (c log) as [[a | e] log']; [apply H | reflexivity]. Qed.

Lemma for_each_app {A B : Type} (body : A -> B -> M B) (xs ys : list A) (acc : B) log :
  for_each body (xs ++ ys)%list acc log
  = bind (for_each body xs acc) (fun acc' => for_each body ys acc') log.
Proof.
  revert acc log. induction xs as [| x xs IH]; intros acc log; simpl.
  - reflexivity.
  - rewrite bind_assoc. apply bind_ext. intros a log'. apply IH.
Qed.

(** *** Sorting *)

Section SortedFacts.
Variable A : Type.
Variable key : A -> string.

Let le (x y : A) : Prop := String.leb (key x) (key y) = true.

Lemma insert_perm x l : Permutation (Py.insert key x l) (x :: l).
Proof.
  induction l as [| y r IH]; simpl.
  - apply Permutation_refl.
  - destruct (String.leb (key x) (key y)).
    + apply Permutation_refl.
    + eapply Permutation_trans; [apply perm_skip, IH | apply perm_swap].
Qed.

Lemma sorted_perm l : Permutation (Py.sorted key l) l.
Proof.
  induction l as [| x r IH]; simpl.
  - apply perm_nil.
  - eapply Permutation_trans; [apply insert_perm | apply perm_skip, IH].
Qed.

Lemma sorted_In l x : In x (Py.sorted key l) <-> In x l.
Proof.
  split; apply Permutation_in; [| apply Permutation_sym]; apply sorted_perm.
Qed.

Lemma insert_hdrel a x l :
  le a x -> HdRel le a l -> HdRel le a (Py.insert key x l).
Proof.
  intros Hax Hal. destruct l as [| y r]; simpl.
  - constructor. exact Hax.
  - destruct (String.leb (key x) (key y)); constructor; [exact Hax |].
    inversion Hal; assumption.
Qed.

Lemma insert_sorted x l : Sorted le l -> Sorted le (Py.insert key x l).
Proof.
  induction 1 as [| y r Hs IH Hhd]; simpl.
  - repeat constructor.
  - destruct (String.leb (key x) (key y)) eqn:E.
    + constructor; [constructor; assumption | constructor; exact E].
    + constructor; [exact IH |].
      apply insert_hdrel; [| exact Hhd].
      unfold le. destruct (String.leb_total (key x) (key y)) as [H | H]; congruence.
Qed.

Lemma sorted_sorted l : Sorted le (Py.sorted key l).
Proof.
  induction l as [| x r IH]; simpl; [constructor | apply insert_sorted, IH].
Qed.

End SortedFacts.

(** ** The per-folder loop *)

Section Folder.
Variable w : World.

Lemma dispatch_cases (f : DirEntry.t) (p : string) (l : list string) :
  dispatch (special_handlers w) f p l =
    if Py.endswith (folded_name f) "livestream.txt"
    then returning false (decode_livestream w f p l)
    else if Py.endswith (folded_name f) "podcast.txt"
    then returning false (decode_podcast w (PEntry f) p l)
    else if Py.endswith (folded_name f) ".txt"
    then ret (l, false)
    else if Py.endswith (folded_name f) ".m3u"
    then returning true (decode_m3u w f p l)
    else returning false (default_handler f p l).
Proof. reflexivity. Qed.

Lemma dispatch_m3u f p l :
  is_m3u f = true ->
  dispatch (special_handlers w) f p l = returning true (decode_m3u w f p l).
Proof.
  intros H. rewrite dispatch_cases. unfold is_m3u in H.
  rewrite (m3u_not_livestream _ H), (m3u_not_podcast _ H), (m3u_not_txt _ H), H.
  reflexivity.
Qed.

Lemma dispatch_plain f p l :
  is_plain f = true ->
  dispatch (special_handlers w) f p l = returning false (default_handler f p l).
Proof.
  intros H. rewrite dispatch_cases. unfold is_plain in H.
  repeat (apply andb_prop in H; destruct H as [H ?]).
  repeat match goal with
         | H : negb _ = true |- _ => apply negb_true_iff in H; rewrite H; clear H
         end.
  reflexivity.
Qed.

Lemma process_directory_stopped dir p l :
  process_directory w dir p l true = ret l.
Proof. destruct dir; reflexivity. Qed.

Lemma process_directory_cons f rest p l log :
  process_directory w (f :: rest) p l false log
  = bind (dispatch (special_handlers w) f p l)
         (fun step => process_directory w rest p (fst step) (snd step)) log.
Proof. reflexivity. Qed.

(** Entries that are not folder playlists leave the loop running. *)
Lemma dispatch_not_m3u_stop f p l log step log' :
  is_m3u f = false ->
  dispatch (special_handlers w) f p l log = (Ok step, log') ->
  snd step = false.
Proof.
  intros Hm. rewrite dispatch_cases. fold (is_m3u f). rewrite Hm.
  unfold returning, bind, ret.
  repeat match goal with
         | |- context [if ?b then _ else _] => destruct b
         end;
    try match goal with
        | |- context [match ?c log with _ => _ end] =>
            destruct (c log) as [[a | e] lg]
        end;
    intros H; inversion H; reflexivity.
Qed.

Lemma process_directory_app pre post p l log :
  (forall e, In e pre -> is_m3u e = false) ->
  process_directory w (pre ++ post)%list p l false log
  = bind (process_directory w pre p l false)
         (fun l' => process_directory w post p l' false) log.
Proof.
  revert l log. induction pre as [| f pre IH]; intros l log Hpre.
  - reflexivity.
  - change ((f :: pre) ++ post)%list with (f :: (pre ++ post))%list.
    rewrite process_directory_cons.
    assert (Hc : forall lg, process_directory w (f :: pre) p l false lg
                 = bind (dispatch (special_handlers w) f p l)
                     (fun step => process_directory w pre p (fst step) (snd step)) lg)
      by reflexivity.
    unfold bind at 2. rewrite Hc. unfold bind.
    destruct (dispatch (special_handlers w) f p l log) as [[step | e] log'] eqn:E;
      [| reflexivity].
    assert (Hs : snd step = false).
    { eapply dispatch_not_m3u_stop; [| exact E]. apply Hpre. left. reflexivity. }
    rewrite Hs. apply IH. intros e He. apply Hpre. right. exact He.
Qed.

Lemma process_directory_m3u f rest p l log :
  is_m3u f = true ->
  process_directory w (f :: rest) p l false log = decode_m3u w f p l log.
Proof.
  intros H. rewrite process_directory_cons, (dispatch_m3u _ _ _ H).
  unfold returning. rewrite bind_assoc. unfold bind.
  destruct (decode_m3u w f p l log) as [[pl | e] log']; [| reflexivity].
  simpl. rewrite process_directory_stopped. reflexivity.
Qed.

End Folder.

(** *** Lines of a list file *)

Lemma for_each_filter_map {A B C : Type} (g : A -> B) (P : B -> bool)
      (h : B -> C -> M C) (xs : list A) (acc : C) log :
  for_each (fun x acc => if P (g x) then h (g x) acc else ret acc) xs acc log
  = for_each h (filter P (map g xs)) acc log.
Proof.
  revert acc log. induction xs as [| x xs IH]; intros acc log; [reflexivity |].
  simpl. destruct (P (g x)); simpl.
  - apply bind_ext. intros a log'. apply IH.
  - apply IH.
Qed.

Lemma decode_m3u_lines w path lines pl log :
  for_each (decode_m3u_line w path) lines pl log
  = for_each (m3u_entry w path) (filter is_entry_line (map Py.strip lines)) pl log.
Proof. apply (for_each_filter_map Py.strip is_entry_line (m3u_entry w path)). Qed.

Lemma append_assoc (a b c : string) : (a ++ b) ++ c = a ++ (b ++ c).
Proof. induction a as [| x a IH]; simpl; [reflexivity | rewrite IH; reflexivity]. Qed.

Lemma append_nil_r (a : string) : a ++ "" = a.
Proof. induction a as [| x a IH]; simpl; [reflexivity | rewrite IH; reflexivity]. Qed.

Lemma endswith_app s suf : Py.endswith s suf = true <-> exists p, s = p ++ suf.
Proof.
  split.
  - induction s as [| c s IH].
    + rewrite endswith_nil. intros H. apply String.eqb_eq in H. exists "". exact H.
    + rewrite endswith_cons. destruct (String.eqb_spec (String c s) suf) as [-> | _].
      * intros _. exists "". reflexivity.
      * intros H. destruct (IH H) as [p ->]. exists (String c p). reflexivity.
  - intros [p ->]. induction p as [| c p IH].
    + simpl. destruct suf; [reflexivity |]. rewrite endswith_cons, String.eqb_refl.
      reflexivity.
    + change (String c p ++ suf) with (String c (p ++ suf)). rewrite endswith_cons.
      destruct (String.eqb (String c (p ++ suf)) suf); [reflexivity | exact IH].
Qed.

Lemma split_first_spec {A : Type} (P : A -> bool) (l : list A) :
  forall pre m post,
    split_first P l = Some (pre, m, post) ->
    l = (pre ++ m :: post)%list /\ (forall x, In x pre -> P x = false) /\ P m = true.
Proof.
  induction l as [| a l IH]; intros pre m post; simpl; [discriminate |].
  destruct (P a) eqn:Ea.
  - intros H. inversion H; subst. split; [reflexivity |]. split; [intros x [] | exact Ea].
  - destruct (split_first P l) as [[[pre' m'] post'] |]; [| discriminate].
    intros H. inversion H; subst.
    destruct (IH pre' m post eq_refl) as [Hl [Hp Hm]].
    split; [rewrite Hl; reflexivity |]. split; [| exact Hm].
    intros x [<- | Hx]; [exact Ea | apply Hp, Hx].
Qed.

Lemma split_first_exists {A : Type} (P : A -> bool) (l : list A) :
  (exists x, In x l /\ P x = true) ->
  exists pre m post, split_first P l = Some (pre, m, post).
Proof.
  induction l as [| a l IH]; intros [x [Hin HP]]; [destruct Hin |].
  simpl. destruct (P a) eqn:Ea; [eauto |].
  destruct IH as [pre [m [post H]]].
  - destruct Hin as [-> | Hin]; [congruence | eauto].
  - rewrite H. eauto.
Qed.

(** *** The order of strings *)

Lemma compare_not_gt_trans a :
  forall b c, String.compare a b <> Gt -> String.compare b c <> Gt ->
              String.compare a c <> Gt.
Proof.
  induction a as [| x a IH]; intros b c Hab Hbc.
  - destruct c; discriminate.
  - destruct b as [| y b]; [simpl in Hab; congruence |].
    destruct c as [| z c]; [simpl in Hbc; congruence |].
    simpl in *. unfold Ascii.compare in *.
    destruct (N.compare_spec (N_of_ascii x) (N_of_ascii y)) as [E1 | L1 | G1];
      try congruence;
      destruct (N.compare_spec (N_of_ascii y) (N_of_ascii z)) as [E2 | L2 | G2];
      try congruence;
      destruct (N.compare_spec (N_of_ascii x) (N_of_ascii z)) as [E3 | L3 | G3];
      try discriminate; try (exfalso; lia).
    apply (IH b c Hab Hbc).
Qed.

Lemma leb_trans a b c :
  String.leb a b = true -> String.leb b c = true -> String.leb a c = true.
Proof.
  unfold String.leb. intros Hab Hbc.
  pose proof (compare_not_gt_trans a b c) as H.
  destruct (String.compare a b); destruct (String.compare b c);
    destruct (String.compare a c); try reflexivity; try discriminate;
    exfalso; apply H; congruence.
Qed.

Lemma leb_refl a : String.leb a a = true.
Proof. destruct (String.leb_total a a); assumption. Qed.

Lemma sorted_head_least {A : Type} (le : A -> A -> Prop) (pre : list A) (m : A)
      (post : list A) :
  (forall a b c, le a b -> le b c -> le a c) ->
  Sorted le (pre ++ m :: post)%list -> forall x, In x post -> le m x.
Proof.
  intros Htr Hs. apply (Sorted_StronglySorted Htr) in Hs.
  induction pre as [| a pre IH].
  - apply StronglySorted_inv in Hs. destruct Hs as [_ Hf].
    intros x Hx. rewrite Forall_forall in Hf. apply Hf, Hx.
  - apply IH. apply StronglySorted_inv in Hs. exact (proj1 Hs).
Qed.

(** ** The folder playlist, the classifiers and the filter *)

(** C2: when an entry that passes the validity filter has a folded name
    ending in [.m3u], the sorted valid entries (a permutation of the valid
    entries, in order of their folded names) hold a first such entry [m],
    not after any other valid folder playlist in that order.  The folder's
    result is what [decode_m3u] makes of [m], started from the empty list
    whatever had been accumulated, built from the stripped non-blank
    non-comment lines of that file alone; the entries sorted after it, a
    second folder playlist included, take no part.  The entries sorted
    before it are still processed, for their effects. *)
Theorem C2_first_m3u_replaces_folder_list (w : World) (cls : ClassState)
        (entries : list DirEntry.t) (path : string) :
  scandir w path = Ok entries ->
  (exists e, In e entries /\ _is_valid cls e = true /\ is_m3u e = true) ->
  exists pre m post,
    split_first is_m3u (Py.sorted folded_name (filter (_is_valid cls) entries))
    = Some (pre, m, post)
    /\ Py.sorted folded_name (filter (_is_valid cls) entries) = (pre ++ m :: post)%list
    /\ Permutation (pre ++ m :: post)%list (filter (_is_valid cls) entries)
    /\ Sorted name_le (pre ++ m :: post)%list
    /\ (forall e, In e pre -> is_m3u e = false)
    /\ is_m3u m = true
    /\ (forall e, In e entries -> _is_valid cls e = true -> is_m3u e = true -> name_le m e)
    /\ _parse_nonrecusive w cls path
       =m= (process_directory w pre path [] false ;;; decode_m3u w m path [])
    /\ (forall acc, decode_m3u w m path acc =m= decode_m3u w m path [])
    /\ decode_m3u w m path []
       =m= (logger_debug (m3u_debug_text m) ;;;
            text <- lift (open_read w (DirEntry.path m)) ;;
            for_each (m3u_entry w path) (entry_lines text) [])
    /\ (forall log acc log1 text,
          process_directory w pre path [] false log = (Ok acc, log1) ->
          open_read w (DirEntry.path m) = Ok text ->
          _parse_nonrecusive w cls path log
          = for_each (m3u_entry w path) (entry_lines text) []
              (log1 ++ [(DEBUG, m3u_debug_text m)])%list).
Proof.
  intros Hscan [e [Hin [Hv Hm]]].
  destruct (split_first_exists is_m3u (Py.sorted folded_name (filter (_is_valid cls) entries)))
    as [pre [m [post Hsf]]].
  { exists e. split; [| exact Hm]. apply sorted_In, filter_In. auto. }
  destruct (split_first_spec is_m3u _ pre m post Hsf) as [Hl [Hpre Hmm]].
  assert (Hsorted : Sorted name_le (pre ++ m :: post)%list).
  { rewrite <- Hl. apply (sorted_sorted DirEntry.t folded_name). }
  assert (Hrun : forall log,
             _parse_nonrecusive w cls path log
             = bind (process_directory w pre path [] false)
                    (fun _ => decode_m3u w m path []) log).
  { intros log. unfold _parse_nonrecusive, bind, lift. rewrite Hscan.
    unfold process_listing.
    change (fun x : DirEntry.t => Py.casefold (DirEntry.name x)) with folded_name.
    rewrite Hl, process_directory_app by exact Hpre.
    apply bind_ext. intros l' log'.
    rewrite process_directory_m3u by exact Hmm. reflexivity. }
  assert (Hlines : forall log,
             decode_m3u w m path [] log
             = bind (logger_debug (m3u_debug_text m))
                    (fun _ => bind (lift (open_read w (DirEntry.path m)))
                                (fun text => for_each (m3u_entry w path) (entry_lines text) []))
                    log).
  { intros log. unfold decode_m3u. apply bind_ext. intros _ log'.
    apply bind_ext. intros text log''. unfold entry_lines. apply decode_m3u_lines. }
  exists pre, m, post.
  split; [exact Hsf |]. split; [exact Hl |].
  split; [rewrite <- Hl; apply sorted_perm |].
  split; [exact Hsorted |]. split; [exact Hpre |]. split; [exact Hmm |].
  split; [| split; [exact Hrun | split; [| split; [exact Hlines |]]]].
  - intros x Hx Hxv Hxm.
    assert (Hxs : In x (pre ++ m :: post)%list).
    { rewrite <- Hl. apply sorted_In, filter_In. auto. }
    apply in_app_or in Hxs. destruct Hxs as [Hxp | [<- | Hxp]].
    + rewrite (Hpre x Hxp) in Hxm. discriminate.
    + apply leb_refl.
    + apply (sorted_head_least name_le pre m post); [| exact Hsorted | exact Hxp].
      intros a b c. unfold name_le. apply leb_trans.
  - intros acc log. reflexivity.
  - intros log acc log1 text Hp Ho.
    rewrite Hrun, (bind_ok _ _ _ _ _ Hp), Hlines.
    unfold bind, logger_debug, lift. rewrite Ho. reflexivity.
Qed.

Lemma C2_witness :
  split_first is_m3u
    (Py.sorted folded_name
       (filter (_is_valid default_class)
          [entry "z.mp3" "/lib/W"; entry "B.m3u" "/lib/W"; entry "a.m3u" "/lib/W";
           entry "0.mp3" "/lib/W"]))
  = Some ([entry "0.mp3" "/lib/W"], entry "a.m3u" "/lib/W",
          [entry "B.m3u" "/lib/W"; entry "z.mp3" "/lib/W"])
  /\ _parse_nonrecusive m3u_world default_class "/lib/W" []
     = (Ok ["/lib/W/a1.mp3"; "http://u/v"],
        [(DEBUG, "Decode M3U '/lib/W/a.m3u'. Replacing current (sub-)folder playlist")]).
Proof.
  destruct (C2_first_m3u_replaces_folder_list m3u_world default_class
              [entry "z.mp3" "/lib/W"; entry "B.m3u" "/lib/W"; entry "a.m3u" "/lib/W";
               entry "0.mp3" "/lib/W"] "/lib/W" eq_refl)
    as [pre [m [post [Hs [_ [_ [_ [_ [_ [_ [_ [_ [_ Hfin]]]]]]]]]]]]].
  { exists (entry "B.m3u" "/lib/W").
    split; [right; left; reflexivity | split; reflexivity]. }
  assert (E : Some (pre, m, post)
              = Some ([entry "0.mp3" "/lib/W"], entry "a.m3u" "/lib/W",
                      [entry "B.m3u" "/lib/W"; entry "z.mp3" "/lib/W"])).
  { rewrite <- Hs. vm_compute. reflexivity. }
  inversion E; subst pre m post.
  split; [exact Hs |].
  rewrite (Hfin [] ["/lib/W/0.mp3"] [] ("a1.mp3" ++ LF ++ "#c" ++ LF ++ "http://u/v"));
    vm_compute; reflexivity.
Defined.

(** C2, as stated, fails: folder [H] holds the file [.first.m3u], whose
    lowered name ends in [.m3u]; the name starts with a dot, the filter
    drops the entry, and the folder resolves to its media file, not to the
    lines of the folder playlist. *)
Lemma C2_counterexample :
  scandir m3u_world "/lib/H" = Ok [entry ".first.m3u" "/lib/H"; entry "a.mp3" "/lib/H"]
  /\ is_m3u (entry ".first.m3u" "/lib/H") = true
  /\ open_read m3u_world "/lib/H/.first.m3u" = Ok "x.mp3"
  /\ _is_valid default_class (entry ".first.m3u" "/lib/H") = false
  /\ _parse_nonrecusive m3u_world default_class "/lib/H" [] = (Ok ["/lib/H/a.mp3"], []).
Proof. vm_compute. repeat split. Qed.

Example folder_M_resolved :
  _parse_nonrecusive demo_world default_class "/music/M" []
  = (Ok ["/music/M/c.mp3"; "http://u/v"],
     [(DEBUG, "Decode M3U '/music/M/p.M3U'. Replacing current (sub-)folder playlist")]).
Proof. vm_compute. reflexivity. Qed.




Lemma filter_valid_files (cls : ClassState) (l : list DirEntry.t) :
  filter (_is_valid cls) (filter DirEntry.is_file l) = filter (_is_valid cls) l.
Proof.
  induction l as [| a l IH]; [reflexivity |].
  simpl. destruct (DirEntry.is_file a) eqn:E; simpl.
  - rewrite IH. reflexivity.
  - unfold _is_valid at 2. rewrite E. exact IH.
Qed.

(** C10: an entry passes the filter only if it is a regular file, is not
    hidden and is not excluded; the entries that are not regular files
    could as well be absent from the listing: outcome and log of the
    folder are the same without them. *)
Theorem C10_only_regular_files_contribute (w : World) (cls : ClassState)
        (entries : list DirEntry.t) (path : string) :
  (forall e, In e (Py.sorted folded_name (filter (_is_valid cls) entries)) ->
             DirEntry.is_file e = true
             /\ Py.startswith (DirEntry.name e) "." = false
             /\ Re.matches (_exclude_re cls) (DirEntry.name e) = false)
  /\ process_listing w cls entries path
     =m= process_listing w cls (filter DirEntry.is_file entries) path.
Proof.
  split.
  - intros e He. apply sorted_In, filter_In in He. destruct He as [_ Hv].
    unfold _is_valid in Hv. apply andb_prop in Hv. destruct Hv as [Hv H3].
    apply andb_prop in Hv. destruct Hv as [H1 H2].
    apply negb_true_iff in H2, H3. auto.
  - intros log. unfold process_listing. rewrite filter_valid_files. reflexivity.
Qed.

Lemma C10_witness :
  (DirEntry.is_file (entry "a.mp3" "/music/A") = true
   /\ Py.startswith (DirEntry.name (entry "a.mp3" "/music/A")) "." = false
   /\ Re.matches (_exclude_re default_class) (DirEntry.name (entry "a.mp3" "/music/A")) = false)
  /\ process_listing demo_world default_class
       [entry "b.mp3" "/music/A"; entry "a.mp3" "/music/A";
        {| DirEntry.name := "sub"; DirEntry.path := "/music/A/sub"; DirEntry.is_file := false |}]
       "/music/A"
     =m= process_listing demo_world default_class
           (filter DirEntry.is_file
              [entry "b.mp3" "/music/A"; entry "a.mp3" "/music/A";
               {| DirEntry.name := "sub"; DirEntry.path := "/music/A/sub";
                  DirEntry.is_file := false |}])
           "/music/A".
Proof.
  destruct (C10_only_regular_files_contribute demo_world default_class
              [entry "b.mp3" "/music/A"; entry "a.mp3" "/music/A";
               {| DirEntry.name := "sub"; DirEntry.path := "/music/A/sub";
                  DirEntry.is_file := false |}] "/music/A") as [H1 H2].
  split; [| exact H2].
  apply H1. vm_compute. left. reflexivity.
Defined.

(** ** The feed fetcher *)

Section Feed.
Variable w : World.

Lemma decode_podcast_core_raise url pl log e :
  requests_get w url = Raise e ->
  decode_podcast_core w url pl log
  = (Ok pl, (log ++ [(ERROR, get_error_text e)])%list).
Proof. unfold decode_podcast_core. intros ->. reflexivity. Qed.

(** An answer whose body decodes: the captures of [findall] are
    appended, in the order [findall] gives them. *)
Lemma decode_podcast_core_ok url pl log r body :
  requests_get w url = Ok r ->
  decoded r = Ok body ->
  decode_podcast_core w url pl log
  = (Ok (pl ++ Re.findall enclosure_re body)%list,
     (log
      ++ (if Z.eqb (status_code r) 200 then []
          else [(ERROR, status_error_text (status_code r) url)])
      ++ (if Nat.eqb (List.length (Re.findall enclosure_re body)) 0
          then [(ERROR, zero_entries_text url)]
          else []))%list).
Proof.
  unfold decode_podcast_core. intros -> Hb.
  unfold bind, lift, ret, logger_error. rewrite Hb.
  destruct (Z.eqb (status_code r) 200); simpl;
    destruct (Nat.eqb (List.length (Re.findall enclosure_re body)) 0); simpl;
    rewrite <- ?app_assoc, ?app_nil_r; reflexivity.
Qed.

Lemma podcast_classified f p l :
  Py.endswith (folded_name f) "livestream.txt" = false ->
  Py.endswith (folded_name f) "podcast.txt" = true ->
  dispatch (special_handlers w) f p l = returning false (decode_podcast w (PEntry f) p l).
Proof. intros H1 H2. rewrite dispatch_cases, H1, H2. reflexivity. Qed.

End Feed.

Lemma decode_podcast_lines w lines pl log :
  for_each (decode_podcast_line w) lines pl log
  = for_each (fun url pl => decode_podcast_core w url pl)
      (filter is_entry_line (map Py.strip lines)) pl log.
Proof.
  apply (for_each_filter_map Py.strip is_entry_line
           (fun url pl => decode_podcast_core w url pl)).
Qed.

Lemma decode_podcast_core_fst w url pl log :
  fetch_decodes w url = true ->
  fst (decode_podcast_core w url pl log) = Ok (pl ++ enclosures_of w url)%list.
Proof.
  unfold fetch_decodes, enclosures_of.
  destruct (requests_get w url) as [r | e] eqn:Er.
  - destruct (decoded r) as [body | e'] eqn:Ed; [| discriminate]. intros _.
    rewrite (decode_podcast_core_ok w url pl log r body Er Ed). reflexivity.
  - intros _. rewrite (decode_podcast_core_raise w url pl log e Er).
    simpl. rewrite app_nil_r. reflexivity.
Qed.

Lemma decode_podcast_lines_fst w xs :
  forallb (fetch_decodes w) xs = true ->
  forall pl log,
    fst (for_each (fun url pl => decode_podcast_core w url pl) xs pl log)
    = Ok (pl ++ flat_map (enclosures_of w) xs)%list.
Proof.
  induction xs as [| x xs IH]; intros H pl log.
  - simpl. rewrite app_nil_r. reflexivity.
  - simpl in H. apply andb_prop in H. destruct H as [Hx Hxs].
    simpl. unfold bind.
    pose proof (decode_podcast_core_fst w x pl log Hx) as Hc.
    destruct (decode_podcast_core w x pl log) as [[pl1 | e] lg]; simpl in Hc;
      [| discriminate].
    inversion Hc; subst. rewrite (IH Hxs), <- app_assoc. reflexivity.
Qed.

(** A podcast list that can be opened: the fetcher is run on its entry
    lines, one after the other. *)
Lemma decode_podcast_opened w f p pl text log :
  open_read w (fspath f) = Ok text ->
  decode_podcast w f p pl log
  = for_each (fun url pl => decode_podcast_core w url pl) (entry_lines text) pl
      (log ++ [(DEBUG, podcast_debug_text f)])%list.
Proof.
  intros Ho. unfold decode_podcast, bind, logger_debug, lift. rewrite Ho.
  apply decode_podcast_lines.
Qed.

Lemma all_feeds_down w urls pl log :
  forallb (get_raises w) urls = true ->
  for_each (fun url pl => decode_podcast_core w url pl) urls pl log
  = (Ok pl, (log ++ get_failure_records w urls)%list).
Proof.
  revert log. induction urls as [| u urls IH]; intros log H.
  - simpl. rewrite app_nil_r. reflexivity.
  - simpl in H. apply andb_prop in H. destruct H as [Hu Hr].
    unfold get_raises in Hu. cbn [for_each get_failure_records flat_map].
    destruct (requests_get w u) as [r | e] eqn:E; [discriminate |].
    unfold bind. rewrite (decode_podcast_core_raise w u pl log e E).
    rewrite (IH _ Hr). unfold get_failure_records. rewrite <- app_assoc. reflexivity.
Qed.

(** C8: a GET that raises is logged and adds nothing, and the fetcher
    returns normally.  In a podcast list the lines after the failing one
    are fetched all the same, from the list as it was; after a podcast list
    whose feeds all fail the loop over the folder goes on with the
    remaining entries, the list unchanged, and after one whose feeds fail
    or answer it goes on from the list with the enclosures of those that
    answered.  A status other than 200 is
    logged and the body is scanned all the same; a body without a match
    adds nothing and is logged. *)
Theorem C8_feed_errors_are_absorbed (w : World) (url : string) (pl : list string)
        (log : list log_record) :
  (forall e, requests_get w url = Raise e ->
     decode_podcast_core w url pl log
     = (Ok pl, (log ++ [(ERROR, get_error_text e)])%list))
  /\ (forall e f p text pre post,
        requests_get w url = Raise e ->
        open_read w (fspath f) = Ok text ->
        entry_lines text = (pre ++ url :: post)%list ->
        decode_podcast w f p pl
        =m= (logger_debug (podcast_debug_text f) ;;;
             acc <- for_each (fun u acc => decode_podcast_core w u acc) pre pl ;;
             logger_error (get_error_text e) ;;;
             for_each (fun u acc => decode_podcast_core w u acc) post acc))
  /\ (forall f rest p text,
        Py.endswith (folded_name f) "livestream.txt" = false ->
        Py.endswith (folded_name f) "podcast.txt" = true ->
        open_read w (DirEntry.path f) = Ok text ->
        forallb (get_raises w) (entry_lines text) = true ->
        process_directory w (f :: rest) p pl false log
        = process_directory w rest p pl false
            (log ++ (DEBUG, podcast_debug_text (PEntry f))
                 :: get_failure_records w (entry_lines text))%list)
  /\ (forall f rest p text,
        Py.endswith (folded_name f) "livestream.txt" = false ->
        Py.endswith (folded_name f) "podcast.txt" = true ->
        open_read w (DirEntry.path f) = Ok text ->
        forallb (fetch_decodes w) (entry_lines text) = true ->
        exists log',
          process_directory w (f :: rest) p pl false log
          = process_directory w rest p
              (pl ++ flat_map (enclosures_of w) (entry_lines text))%list false log')
  /\ (forall r body,
        requests_get w url = Ok r -> status_code r <> 200%Z -> decoded r = Ok body ->
        decode_podcast_core w url pl log
        = (Ok (pl ++ Re.findall enclosure_re body)%list,
           (log
            ++ [(ERROR, status_error_text (status_code r) url)]
            ++ (if Nat.eqb (List.length (Re.findall enclosure_re body)) 0
                then [(ERROR, zero_entries_text url)]
                else []))%list))
  /\ (forall r body,
        requests_get w url = Ok r -> status_code r = 200%Z -> decoded r = Ok body ->
        Re.findall enclosure_re body = [] ->
        decode_podcast_core w url pl log
        = (Ok pl,
           (log ++ [(ERROR, zero_entries_text url)])%list)).
Proof.
  split; [| split; [| split; [| split; [| split]]]].
  - intros e He. apply decode_podcast_core_raise, He.
  - intros e f p text pre post He Ho Hl lg.
    rewrite (decode_podcast_opened w f p pl text lg Ho), Hl, for_each_app.
    cbn [for_each]. unfold bind, logger_debug, logger_error.
    destruct (for_each (fun u acc => decode_podcast_core w u acc) pre pl
                (lg ++ [(DEBUG, podcast_debug_text f)])%list) as [[acc | e'] lg'];
      [| reflexivity].
    rewrite (decode_podcast_core_raise w url acc lg' e He). reflexivity.
  - intros f rest p text H1 H2 Ho Hdown.
    rewrite process_directory_cons, (podcast_classified _ _ _ _ H1 H2).
    unfold returning. rewrite bind_assoc.
    change (fspath (PEntry f)) with (DirEntry.path f) in *.
    unfold bind at 1.
    rewrite (decode_podcast_opened w (PEntry f) p pl text log Ho).
    rewrite (all_feeds_down w (entry_lines text) pl _ Hdown).
    rewrite bind_ret_l, <- app_assoc. reflexivity.
  - intros f rest p text H1 H2 Ho Hdec.
    pose proof (decode_podcast_lines_fst w (entry_lines text) Hdec pl
                  (log ++ [(DEBUG, podcast_debug_text (PEntry f))])%list) as Hfst.
    destruct (for_each (fun url pl => decode_podcast_core w url pl) (entry_lines text) pl
                (log ++ [(DEBUG, podcast_debug_text (PEntry f))])%list)
      as [[pl' | e] lg] eqn:E; simpl in Hfst; [| discriminate].
    inversion Hfst; subst pl'. exists lg.
    rewrite process_directory_cons, (podcast_classified _ _ _ _ H1 H2).
    unfold returning. rewrite bind_assoc.
    change (fspath (PEntry f)) with (DirEntry.path f) in *.
    unfold bind at 1.
    rewrite (decode_podcast_opened w (PEntry f) p pl text log Ho), E.
    rewrite bind_ret_l. reflexivity.
  - intros r body Hr Hs Hb. rewrite (decode_podcast_core_ok w url pl log r body Hr Hb).
    destruct (Z.eqb_spec (status_code r) 200); [contradiction | reflexivity].
  - intros r body Hr Hs Hb Hf. rewrite (decode_podcast_core_ok w url pl log r body Hr Hb).
    rewrite Hf, Hs, app_nil_r. reflexivity.
Qed.

Lemma C8_witness :
  decode_podcast_core demo_world "http://feed/down" ["x"] []
  = (Ok ["x"], [(ERROR, "Get URL: ConnectionError: connection refused")])
  /\ decode_podcast demo_world (PEntry (entry "3-podcast.txt" "/music/B")) "/music/B" ["x"] []
     = (Ok ["x"; "http://h/1.mp3"; "http://h/2.mp3"],
        [(DEBUG, "Decode podcast: '<DirEntry '3-podcast.txt'>'");
         (ERROR, "Get URL: ConnectionError: connection refused")])
  /\ process_directory down_world
       [entry "d-podcast.txt" "/lib/D"; entry "e.mp3" "/lib/D"] "/lib/D" ["x"] false []
     = (Ok ["x"; "/lib/D/e.mp3"],
        [(DEBUG, "Decode podcast: '<DirEntry 'd-podcast.txt'>'");
         (ERROR, "Get URL: ConnectionError: connection refused");
         (ERROR, "Get URL: ConnectionError: connection refused")])
  /\ decode_podcast_core demo_world "http://feed/404" ["x"] []
     = (Ok ["x"],
        [(ERROR, "Got error code 404 fetching from 'http://feed/404'");
         (ERROR, "Zero file entries in parsed content from 'http://feed/404'")]).
Proof.
  destruct (C8_feed_errors_are_absorbed demo_world "http://feed/down" ["x"] [])
    as [H1 [H2 _]].
  destruct (C8_feed_errors_are_absorbed down_world "http://feed/down" ["x"] [])
    as [_ [_ [H3 _]]].
  destruct (C8_feed_errors_are_absorbed demo_world "http://feed/404" ["x"] [])
    as [_ [_ [_ [_ [H4 _]]]]].
  split; [| split; [| split]].
  - apply (H1 (Exn ConnectionError "connection refused")). reflexivity.
  - rewrite (H2 (Exn ConnectionError "connection refused")
               (PEntry (entry "3-podcast.txt" "/music/B")) "/music/B"
               ("http://feed/down" ++ LF ++ "http://feed/ok") [] ["http://feed/ok"]
               eq_refl eq_refl eq_refl).
    vm_compute. reflexivity.
  - rewrite (H3 (entry "d-podcast.txt" "/lib/D") [entry "e.mp3" "/lib/D"] "/lib/D"
               ("http://feed/down" ++ LF ++ "http://feed/out")
               eq_refl eq_refl eq_refl eq_refl).
    vm_compute. reflexivity.
  - apply (H4 {| status_code := 404; decoded := Ok "not found" |} "not found");
      [reflexivity | discriminate | reflexivity].
Defined.

(** C3: the fetcher appends what [findall] returns for [enclosure_re], and
    two enclosures on two lines of the body give two entries in body order;
    two enclosures on one line give one entry only, the second: the leading
    [.*] of the pattern runs over the first. *)
Theorem C3_two_enclosures_on_one_line_yield_one :
  Re.findall enclosure_re feed_two_lines = ["http://h/1.mp3"; "http://h/2.mp3"]
  /\ Re.findall enclosure_re feed_one_line = ["http://h/2.mp3"]
  /\ decode_podcast_core demo_world "http://feed/oneline" [] []
     = (Ok ["http://h/2.mp3"], []).
Proof. vm_compute. repeat split. Qed.

(** ** Plain folders *)

Lemma process_directory_plain (w : World) (dir : list DirEntry.t) (p : string)
      (l : list string) log :
  forallb is_plain dir = true ->
  process_directory w dir p l false log
  = (Ok (l ++ map (fun e => OsPath.normpath (OsPath.join p (DirEntry.name e))) dir)%list, log).
Proof.
  revert l log. induction dir as [| f dir IH]; intros l log H.
  - simpl. rewrite app_nil_r. reflexivity.
  - simpl in H. apply andb_prop in H. destruct H as [Hf Hd].
    rewrite process_directory_cons, (dispatch_plain w f p l Hf).
    unfold returning, default_handler, decode_musicfile, bind, ret. simpl fst. simpl snd.
    rewrite (IH _ _ Hd). simpl map. rewrite <- app_assoc. reflexivity.
Qed.

(** A folder of plain media files resolves to the entries sorted by their
    lowered names, each joined to the path the folder was scanned under. *)
Lemma plain_folder_listing (w : World) (cls : ClassState) (entries : list DirEntry.t)
      (p : string) log :
  forallb is_plain (filter (_is_valid cls) entries) = true ->
  process_listing w cls entries p log
  = (Ok (map (fun e => OsPath.normpath (OsPath.join p (DirEntry.name e)))
             (Py.sorted folded_name (filter (_is_valid cls) entries))), log).
Proof.
  intros H. unfold process_listing.
  change (fun x : DirEntry.t => Py.casefold (DirEntry.name x)) with folded_name.
  rewrite process_directory_plain; [reflexivity |].
  apply forallb_forall. intros e He. apply sorted_In in He.
  revert e He. apply forallb_forall. exact H.
Qed.

(** C1: for the library [/music] and its folder [A] of plain media files
    the playlist holds the files in case-insensitive order of their names
    under the absolute path of the folder, [/music/A/a.mp3] and so on, not
    the paths relative to the library, [A/a.mp3] and so on. *)
Theorem C1_plain_folder_entries_are_absolute :
  scandir demo_world "/music/A"
  = Ok [entry "b.mp3" "/music/A"; entry "a.mp3" "/music/A"; entry "C.mp3" "/music/A";
        entry ".hidden" "/music/A"; entry "cover.jpg" "/music/A";
        {| DirEntry.name := "sub"; DirEntry.path := "/music/A/sub"; DirEntry.is_file := false |}]
  /\ parse demo_world default_class demo_collector "A" false []
     = (Ok {| playlist := ["/music/A/a.mp3"; "/music/A/b.mp3"; "/music/A/C.mp3"];
              _music_library_base_path := "/music";
              _folder := "/music/A";
              _recursive := false |}, [])
  /\ ["/music/A/a.mp3"; "/music/A/b.mp3"; "/music/A/C.mp3"]
     <> map (fun nm => OsPath.normpath (OsPath.join "A" nm)) ["a.mp3"; "b.mp3"; "C.mp3"].
Proof. vm_compute. repeat split. discriminate. Qed.

(** ** The root folder *)

(** When [scandir] fails, whatever the error, [os.walk] yields nothing. *)
Lemma scandir_raise w p e : scandir w p = Raise e -> os_walk w p = [].
Proof.
  unfold scandir, os_walk. destruct (resolve w p) as [n | e'] eqn:E.
  - destruct n; try discriminate; intros H; reflexivity.
  - intros H. reflexivity.
Qed.

(** C7: when listing the folder fails, [parse] raises nothing in
    recursive mode and leaves the empty playlist without a log record, as
    [os.walk] drops the error before [parse] could see it; in
    non-recursive mode the error of a folder that is missing or is no
    directory is caught, logged, and the playlist left empty. *)
Theorem C7_missing_folder_recursive_mode_logs_nothing (w : World) (cls : ClassState)
        (self : PlaylistCollector) (path : string) (log : list log_record) (e : exn) :
  scandir w (OsPath.abspath (cwd w) (OsPath.join (_music_library_base_path self) path))
  = Raise e ->
  (exn_cls e = FileNotFoundError \/ exn_cls e = NotADirectoryError ->
   parse w cls self path false log
   = (Ok (emptied w self path false), (log ++ [(ERROR, error_message e)])%list))
  /\ parse w cls self path true log = (Ok (emptied w self path true), log).
Proof.
  intros H. pose proof (scandir_raise _ _ _ H) as Hw. split.
  - intros Hc. unfold parse, try_except, bind, _parse_nonrecusive, lift. simpl _folder.
    rewrite H. destruct e as [c m]. simpl in Hc.
    destruct Hc as [-> | ->]; reflexivity.
  - unfold parse, try_except, bind, _parse_recursive. simpl _folder.
    rewrite Hw. reflexivity.
Qed.

Lemma C7_witness :
  parse demo_world default_class demo_collector "nope" false []
  = (Ok (emptied demo_world demo_collector "nope" false),
     [(ERROR, error_message (enoent "/music/nope"))])
  /\ parse demo_world default_class demo_collector "nope" true []
     = (Ok (emptied demo_world demo_collector "nope" true), []).
Proof.
  destruct (C7_missing_folder_recursive_mode_logs_nothing demo_world default_class
              demo_collector "nope" [] (enoent "/music/nope") eq_refl) as [H1 H2].
  split; [apply H1; left; reflexivity | exact H2].
Defined.

(** ** Read failures *)

Section ReadFailure.
Variable w : World.
Variable cls : ClassState.

Lemma decode_livestream_raise f p l e log :
  open_read w (DirEntry.path f) = Raise e ->
  exists log', decode_livestream w f p l log = (Raise e, log').
Proof.
  intros H. unfold decode_livestream, bind, logger_debug, lift. rewrite H.
  eexists. reflexivity.
Qed.

Lemma decode_podcast_raise f p l e log :
  open_read w (fspath f) = Raise e ->
  exists log', decode_podcast w f p l log = (Raise e, log').
Proof.
  intros H. unfold decode_podcast, bind, logger_debug, lift. rewrite H.
  eexists. reflexivity.
Qed.

Lemma decode_m3u_raise f p l e log :
  open_read w (DirEntry.path f) = Raise e ->
  exists log', decode_m3u w f p l log = (Raise e, log').
Proof.
  intros H. unfold decode_m3u, bind, logger_debug, lift. rewrite H.
  eexists. reflexivity.
Qed.

Lemma dispatch_read_failure f p l e log :
  open_read w (DirEntry.path f) = Raise e ->
  is_read_list_file f = true ->
  exists log', dispatch (special_handlers w) f p l log = (Raise e, log').
Proof.
  intros H Hk. rewrite dispatch_cases. unfold is_read_list_file in Hk.
  destruct (Py.endswith (folded_name f) "livestream.txt") eqn:E1.
  { destruct (decode_livestream_raise f p l e log H) as [lg Hl].
    exists lg. unfold returning. apply bind_raise. exact Hl. }
  destruct (Py.endswith (folded_name f) "podcast.txt") eqn:E2.
  { destruct (decode_podcast_raise (PEntry f) p l e log H) as [lg Hl].
    exists lg. unfold returning. apply bind_raise. exact Hl. }
  simpl in Hk. rewrite (m3u_not_txt _ Hk). unfold is_m3u in Hk. rewrite Hk.
  destruct (decode_m3u_raise f p l e log H) as [lg Hl].
  exists lg. unfold returning. apply bind_raise. exact Hl.
Qed.

Lemma process_directory_read_failure pre f post p l e log pl log1 :
  open_read w (DirEntry.path f) = Raise e ->
  is_read_list_file f = true ->
  (forall x, In x pre -> is_m3u x = false) ->
  process_directory w pre p l false log = (Ok pl, log1) ->
  exists log2, process_directory w (pre ++ f :: post)%list p l false log = (Raise e, log2).
Proof.
  intros H Hk Hpre Hrun.
  destruct (dispatch_read_failure f p pl e log1 H Hk) as [lg Hl].
  exists lg. rewrite process_directory_app by exact Hpre.
  rewrite (bind_ok _ _ _ _ _ Hrun), process_directory_cons.
  apply bind_raise. exact Hl.
Qed.

Lemma for_each_raise {A B : Type} (body : A -> B -> M B) pre x post acc log acc' log1 e log2 :
  for_each body pre acc log = (Ok acc', log1) ->
  body x acc' log1 = (Raise e, log2) ->
  for_each body (pre ++ x :: post)%list acc log = (Raise e, log2).
Proof.
  intros Hpre Hx. rewrite for_each_app, (bind_ok _ _ _ _ _ Hpre). simpl.
  apply bind_raise. exact Hx.
Qed.

End ReadFailure.

(** C4: an exception that leaves the selected resolution function leaves
    [parse] too, unless it is a [FileNotFoundError] or a
    [NotADirectoryError]: those [parse] catches wherever they were raised,
    logs, and keeps the empty playlist.  A livestream list, podcast list or
    folder playlist that cannot be read makes its handler, the loop over
    its folder and the loop over the folders raise; a generic [.txt] file
    is not opened at all. *)
Theorem C4_read_failures_leave_parse_unless_caught (w : World) (cls : ClassState)
        (self : PlaylistCollector) (path : string) (recursive : bool) (e : exn) :
  (forall log log',
      selected w cls recursive
        (OsPath.abspath (cwd w) (OsPath.join (_music_library_base_path self) path)) log
      = (Raise e, log') ->
      (exn_cls e <> FileNotFoundError -> exn_cls e <> NotADirectoryError ->
       parse w cls self path recursive log = (Raise e, log'))
      /\ (exn_cls e = FileNotFoundError \/ exn_cls e = NotADirectoryError ->
          parse w cls self path recursive log
          = (Ok (emptied w self path recursive), (log' ++ [(ERROR, error_message e)])%list)))
  /\ (forall p entries pre f post log pl log1,
        scandir w p = Ok entries ->
        Py.sorted folded_name (filter (_is_valid cls) entries) = (pre ++ f :: post)%list ->
        (forall x, In x pre -> is_m3u x = false) ->
        process_directory w pre p [] false log = (Ok pl, log1) ->
        is_read_list_file f = true ->
        open_read w (DirEntry.path f) = Raise e ->
        exists log2, _parse_nonrecusive w cls p log = (Raise e, log2))
  /\ (forall top dpre d dpost log acc log1 log2,
        Py.sorted Py.casefold (os_walk w top) = (dpre ++ d :: dpost)%list ->
        for_each (add_folder w cls) dpre [] log = (Ok acc, log1) ->
        _parse_nonrecusive w cls d log1 = (Raise e, log2) ->
        _parse_recursive w cls top log = (Raise e, log2))
  /\ (forall f p l,
        Py.endswith (folded_name f) "livestream.txt" = false ->
        Py.endswith (folded_name f) "podcast.txt" = false ->
        Py.endswith (folded_name f) ".txt" = true ->
        open_read w (DirEntry.path f) = Raise e ->
        dispatch (special_handlers w) f p l =m= ret (l, false)).
Proof.
  split; [| split; [| split]].
  - intros log log' Hrun. unfold selected in Hrun. split.
    + intros H1 H2. unfold parse, try_except, bind. simpl _folder.
      destruct recursive; rewrite Hrun; destruct e as [c m]; simpl in *;
        destruct c; try reflexivity; congruence.
    + intros Hc. unfold parse, try_except, bind. simpl _folder.
      destruct recursive; rewrite Hrun; destruct e as [c m]; simpl in *;
        destruct Hc as [-> | ->]; reflexivity.
  - intros p entries pre f post log pl log1 Hs Hl Hpre Hrun Hk Ho.
    destruct (process_directory_read_failure w pre f post p [] e log pl log1 Ho Hk Hpre Hrun)
      as [lg Hr].
    exists lg. unfold _parse_nonrecusive, bind, lift. rewrite Hs.
    unfold process_listing.
    change (fun x : DirEntry.t => Py.casefold (DirEntry.name x)) with folded_name.
    rewrite Hl. exact Hr.
  - intros top dpre d dpost log acc log1 log2 Hl Hpre Hd.
    unfold _parse_recursive. fold (add_folder w cls). rewrite Hl.
    apply (for_each_raise (add_folder w cls) dpre d dpost [] log acc log1 e log2 Hpre).
    unfold add_folder. apply bind_raise. exact Hd.
  - intros f p l H1 H2 H3 _ log. rewrite dispatch_cases, H1, H2, H3. reflexivity.
Qed.

Lemma C4_witness :
  parse demo_world default_class demo_collector "P" false []
  = (Raise (Exn PermissionError "[Errno 13] Permission denied"),
     [(DEBUG, "Decode livestream: '<DirEntry '1-livestream.txt'>'")])
  /\ (exists log2,
         _parse_nonrecusive demo_world default_class "/music/P" []
         = (Raise (Exn PermissionError "[Errno 13] Permission denied"), log2))
  /\ parse demo_world default_class demo_collector "P" true []
     = (Raise (Exn PermissionError "[Errno 13] Permission denied"),
        [(DEBUG, "Decode livestream: '<DirEntry '1-livestream.txt'>'")])
  /\ dispatch (special_handlers demo_world) (entry "notes.txt" "/music/T") "/music/T" []
     =m= ret ([], false).
Proof.
  destruct (C4_read_failures_leave_parse_unless_caught demo_world default_class
              demo_collector "P" false (Exn PermissionError "[Errno 13] Permission denied"))
    as [H1 [H2 [H3 H4]]].
  destruct (C4_read_failures_leave_parse_unless_caught demo_world default_class
              demo_collector "P" true (Exn PermissionError "[Errno 13] Permission denied"))
    as [H1' _].
  split; [| split; [| split]].
  - apply H1; [vm_compute; reflexivity | discriminate | discriminate].
  - apply (H2 "/music/P"
              [entry "1-livestream.txt" "/music/P"; entry "2.mp3" "/music/P"]
              [] (entry "1-livestream.txt" "/music/P") [entry "2.mp3" "/music/P"] [] [] []);
      try (vm_compute; reflexivity).
    intros x [].
  - apply H1'; [| discriminate | discriminate].
    unfold selected.
    apply (H3 "/music/P" [] "/music/P" [] [] [] []); vm_compute; reflexivity.
  - apply H4; vm_compute; reflexivity.
Defined.

(** C4, as stated, fails: the livestream list of folder [G] is listed and
    cannot be opened, the error is a [FileNotFoundError], and [parse]
    returns normally with the empty playlist. *)
Lemma C4_counterexample :
  scandir demo_world "/music/G"
  = Ok [entry "1-livestream.txt" "/music/G"; entry "2.mp3" "/music/G"]
  /\ open_read demo_world "/music/G/1-livestream.txt"
     = Raise (Exn FileNotFoundError "[Errno 2] No such file or directory")
  /\ parse demo_world default_class demo_collector "G" false []
     = (Ok (emptied demo_world demo_collector "G" false),
        [(DEBUG, "Decode livestream: '<DirEntry '1-livestream.txt'>'");
         (ERROR, " FileNotFoundError: [Errno 2] No such file or directory")]).
Proof. vm_compute. repeat split. Qed.

(** A feed address in a folder playlist is handed to [decode_podcast],
    which opens it as a file: the [FileNotFoundError] ends the resolution
    with the empty playlist. *)
Example m3u_feed_line_is_opened_as_file :
  parse demo_world default_class demo_collector "X" false []
  = (Ok (emptied demo_world demo_collector "X" false),
     [(DEBUG, "Decode M3U '/music/X/p.m3u'. Replacing current (sub-)folder playlist");
      (DEBUG, "Decode podcast: 'http://feed/ok.xml'");
      (ERROR, " FileNotFoundError: [Errno 2] No such file or directory: 'http://feed/ok.xml'")]).
Proof. vm_compute. reflexivity. Qed.

(** ** Recursive mode *)

Lemma node_nested_ind (P : node -> Prop) :
  (forall c, P (File c)) ->
  P Other ->
  P Denied ->
  (forall children, Forall (fun c => P (snd c)) children -> P (Dir children)) ->
  forall n, P n.
Proof.
  intros Hf Ho Hx Hd. fix IH 1. intros [c | children | |].
  - apply Hf.
  - apply Hd. induction children as [| c l IHl]; constructor; [apply IH | exact IHl].
  - apply Ho.
  - apply Hx.
Qed.

Lemma walk_node_complete top n q : subdir top n q -> In q (walk_node top n).
Proof.
  induction 1 as [top children | top children nm children' q Hin Hsub IH].
  - left. reflexivity.
  - simpl. right. apply in_flat_map. exists (nm, Dir children'). split; assumption.
Qed.

Lemma walk_node_sound n : forall top q, In q (walk_node top n) -> subdir top n q.
Proof.
  induction n as [c | | | children IH] using node_nested_ind; intros top q H;
    try (destruct H; fail).
  simpl in H. destruct H as [<- | H]; [constructor |].
  apply in_flat_map in H. destruct H as [[nm c] [Hin Hq]].
  rewrite Forall_forall in IH. specialize (IH (nm, c) Hin (OsPath.join top nm) q Hq).
  simpl in IH. inversion IH; subst; simpl in *.
  - eapply subdir_child; [exact Hin | constructor].
  - eapply subdir_child; [exact Hin | exact IH].
Qed.

Lemma add_folder_concat w cls dirs acc log :
  for_each (add_folder w cls) dirs acc log
  = bind (map_m (_parse_nonrecusive w cls) dirs)
         (fun pls => ret (acc ++ concat pls)%list) log.
Proof.
  revert acc log. induction dirs as [| d dirs IH]; intros acc log.
  - cbn. rewrite app_nil_r. reflexivity.
  - cbn [for_each map_m]. unfold add_folder at 1. rewrite !bind_assoc.
    apply bind_ext. intros folder log'. rewrite bind_ret_l, IH, bind_assoc.
    apply bind_ext. intros pls log''. rewrite bind_ret_l.
    cbn. rewrite app_assoc. reflexivity.
Qed.

(** C6: in recursive mode the directories walked are the root and every
    directory below it that may be listed and is reached through
    directories that may be listed; they are put in order of their folded
    paths, so case-insensitively, and the result is the concatenation, in
    that order, of what [_parse_nonrecusive] gives for each.  Folders [A],
    [B] and [A/sub] come in the order [A], [A/sub], [B]; folders [c], [B]
    and [a] come in the order [a], [B], [c], where the code points put [B]
    first. *)
Theorem C6_recursive_is_sorted_concatenation (w : World) (cls : ClassState) (path : string) :
  (forall q, In q (os_walk w path) <-> exists n, resolve w path = Ok n /\ subdir path n q)
  /\ Sorted casefold_le (Py.sorted Py.casefold (os_walk w path))
  /\ Permutation (Py.sorted Py.casefold (os_walk w path)) (os_walk w path)
  /\ _parse_recursive w cls path
     =m= (pls <- map_m (_parse_nonrecusive w cls) (Py.sorted Py.casefold (os_walk w path)) ;;
          ret (concat pls))
  /\ (forall self rel log pl log',
        OsPath.abspath (cwd w) (OsPath.join (_music_library_base_path self) rel) = path ->
        _parse_recursive w cls path log = (Ok pl, log') ->
        parse w cls self rel true log
        = (Ok {| playlist := pl;
                 _music_library_base_path := _music_library_base_path self;
                 _folder := path;
                 _recursive := true |}, log'))
  /\ Py.sorted Py.casefold (os_walk walk_world "/lib")
     = ["/lib"; "/lib/A"; "/lib/A/sub"; "/lib/B"]
  /\ parse walk_world default_class walk_collector "." true []
     = (Ok {| playlist := ["/lib/A/a.mp3"; "/lib/A/sub/s.mp3"; "/lib/B/b.mp3"];
              _music_library_base_path := "/lib";
              _folder := "/lib";
              _recursive := true |}, [])
  /\ os_walk case_world "/lib" = ["/lib"; "/lib/c"; "/lib/B"; "/lib/a"]
  /\ Py.sorted Py.casefold (os_walk case_world "/lib") = ["/lib"; "/lib/a"; "/lib/B"; "/lib/c"]
  /\ String.leb "/lib/B" "/lib/a" = true
  /\ parse case_world default_class walk_collector "." true []
     = (Ok {| playlist := ["/lib/a/1.mp3"; "/lib/B/2.mp3"; "/lib/c/3.mp3"];
              _music_library_base_path := "/lib";
              _folder := "/lib";
              _recursive := true |}, []).
Proof.
  split; [| split; [| split; [| split; [| split; [| split; [| split]]]]]].
  - intros q. unfold os_walk. destruct (resolve w path) as [n | e]; split.
    + intros H. exists n. split; [reflexivity | apply walk_node_sound, H].
    + intros [n' [Hn Hs]]. inversion Hn; subst. apply walk_node_complete, Hs.
    + intros [].
    + intros [n' [Hn _]]. discriminate.
  - apply (sorted_sorted string Py.casefold).
  - apply sorted_perm.
  - intros log. unfold _parse_recursive. fold (add_folder w cls).
    rewrite add_folder_concat. reflexivity.
  - intros self rel log pl log' Hp Hrun.
    unfold parse, try_except, bind. simpl _folder. rewrite Hp, Hrun. reflexivity.
  - vm_compute. reflexivity.
  - vm_compute. reflexivity.
  - vm_compute. repeat split.
Qed.

Lemma C6_witness :
  In "/lib/A/sub" (os_walk walk_world "/lib")
  /\ parse walk_world default_class walk_collector "." true []
     = (Ok {| playlist := ["/lib/A/a.mp3"; "/lib/A/sub/s.mp3"; "/lib/B/b.mp3"];
              _music_library_base_path := "/lib";
              _folder := "/lib";
              _recursive := true |}, []).
Proof.
  destruct (C6_recursive_is_sorted_concatenation walk_world default_class "/lib")
    as [H1 [_ [_ [_ [H5 _]]]]].
  split.
  - apply H1. eexists. split; [vm_compute; reflexivity |].
    eapply subdir_child with (nm := "A"); [right; left; reflexivity |].
    eapply subdir_child with (nm := "sub"); [left; reflexivity |].
    apply subdir_root.
  - apply (H5 walk_collector "." []); vm_compute; reflexivity.
Defined.

(** C6, as stated, fails: [/lib/L] is a directory of the subtree, the
    listing of [/lib] shows it, and it may not be listed.  The walk leaves
    it out without a word, and [parse] returns the entries of the other
    folders and logs nothing, where the per-folder resolution of [/lib/L]
    raises. *)
Lemma C6_counterexample :
  scandir locked_world "/lib"
  = Ok [{| DirEntry.name := "L"; DirEntry.path := "/lib/L"; DirEntry.is_file := false |};
        {| DirEntry.name := "A"; DirEntry.path := "/lib/A"; DirEntry.is_file := false |}]
  /\ resolve locked_world "/lib/L" = Ok Denied
  /\ _parse_nonrecusive locked_world default_class "/lib/L" []
     = (Raise (Exn PermissionError "[Errno 13] Permission denied: '/lib/L'"), [])
  /\ os_walk locked_world "/lib" = ["/lib"; "/lib/A"]
  /\ parse locked_world default_class walk_collector "." true []
     = (Ok {| playlist := ["/lib/A/a.mp3"];
              _music_library_base_path := "/lib";
              _folder := "/lib";
              _recursive := true |}, []).
Proof. vm_compute. repeat split. Qed.

(** ** The matcher finds a match exactly when there is one *)

Lemma length_append (a b : string) :
  String.length (a ++ b) = String.length a + String.length b.
Proof. induction a as [| x a IH]; simpl; [reflexivity | rewrite IH; reflexivity]. Qed.

Lemma length_zero (a : string) : String.length a = 0 -> a = "".
Proof. destruct a; [reflexivity | discriminate]. Qed.

Section MatcherCorrect.
Variable R : Type.
Variable ic : bool.

Lemma blind_any_caps (k : string -> Re.captures -> option R) s c1 c2 :
  caps_blind k -> k s c1 <> None -> k s c2 <> None.
Proof. intros Hk H1 H2. apply H1. eapply Hk. exact H2. Qed.

Lemma finds_blind r (k : string -> Re.captures -> option R) :
  finds R ic r -> caps_blind k -> caps_blind (fun s caps => Re.rmatch ic r s caps k).
Proof.
  intros Hr Hk s c1 c2 H1.
  destruct (Re.rmatch ic r s c2 k) eqn:E; [| reflexivity].
  exfalso. assert (H2 : Re.rmatch ic r s c2 k <> None) by congruence.
  apply (Hr k Hk) in H2. apply (Hr k Hk s c1) in H2. contradiction.
Qed.

Lemma finds_one_char (r : Re.regex) (test : ascii -> bool) :
  (forall s caps (k : string -> Re.captures -> option R),
      Re.rmatch ic r s caps k
      = match s with
        | String x s' => if test x then k s' caps else None
        | "" => None
        end) ->
  (forall u t, matching ic r u t <-> exists x, u = String x "" /\ test x = true) ->
  finds R ic r.
Proof.
  intros Hrun Hm k Hk s caps. rewrite Hrun. split.
  - destruct s as [| x s']; [congruence |].
    destruct (test x) eqn:E; [| congruence].
    intros H. exists (String x ""), s', caps. repeat split; [| exact H].
    apply Hm. exists x. auto.
  - intros [u [t [caps' [Hs [Hu Hkt]]]]]. apply Hm in Hu. destruct Hu as [x [-> Hx]].
    subst s. simpl. rewrite Hx. eapply blind_any_caps; eassumption.
Qed.

Lemma finds_star a : finds R ic a -> finds R ic (Re.Star a).
Proof.
  intros Ha k Hk.
  assert (Hloop : forall fuel s caps, String.length s <= fuel ->
            Re.star_loop (Re.rmatch ic a) k fuel s caps <> None
            <-> exists u t caps', s = u ++ t /\ matching ic (Re.Star a) u t
                                  /\ k t caps' <> None).
  { induction fuel as [| fuel IH]; intros s caps Hlen.
    - apply Nat.le_0_r, length_zero in Hlen. subst s. simpl. split.
      + intros H. exists "", "", caps. repeat split; [constructor | exact H].
      + intros [u [t [caps' [Hs [_ Hkt]]]]].
        destruct u; [| discriminate]. simpl in Hs. subst t.
        eapply blind_any_caps; eassumption.
    - set (kc := fun s' caps' =>
                   if (String.length s' <? String.length s)%nat
                   then Re.star_loop (Re.rmatch ic a) k fuel s' caps' else None).
      assert (Hkc : caps_blind kc).
      { intros s' c1 c2. unfold kc.
        destruct (Nat.ltb_spec (String.length s') (String.length s)) as [Hlt | _];
          [| reflexivity].
        intros H1. destruct (Re.star_loop (Re.rmatch ic a) k fuel s' c2) eqn:E;
          [| reflexivity].
        exfalso.
        assert (H2 : Re.star_loop (Re.rmatch ic a) k fuel s' c2 <> None) by congruence.
        apply IH in H2; [| lia]. apply (IH s' c1) in H2; [contradiction | lia]. }
      change (Re.star_loop (Re.rmatch ic a) k (S fuel) s caps)
        with (match Re.rmatch ic a s caps kc with
              | Some x => Some x
              | None => k s caps
              end).
      split.
      + destruct (Re.rmatch ic a s caps kc) eqn:E.
        * intros _.
          assert (H : Re.rmatch ic a s caps kc <> None) by congruence.
          apply (Ha kc Hkc) in H. destruct H as [u1 [t1 [caps1 [Hs [Hm Hk1]]]]].
          unfold kc in Hk1.
          destruct (Nat.ltb_spec (String.length t1) (String.length s)) as [Hlt | _];
            [| congruence].
          apply IH in Hk1; [| lia]. destruct Hk1 as [u2 [t [caps' [Ht [Hm2 Hkt]]]]].
          exists (u1 ++ u2), t, caps'. subst t1 s. split; [symmetry; apply append_assoc |].
          split; [| exact Hkt]. apply m_star_s; [exact Hm | | exact Hm2].
          intros ->. simpl in Hlt. lia.
        * intros H. exists "", s, caps. repeat split; [constructor | exact H].
      + intros [u [t [caps' [Hs [Hm Hkt]]]]].
        inversion Hm as [| | | | | | | a' t' | a' u1 u2 t' Hm1 Hne Hm2 | |]; subst.
        * simpl. destruct (Re.rmatch ic a t caps kc); [congruence |].
          eapply blind_any_caps; eassumption.
        * assert (H : Re.rmatch ic a ((u1 ++ u2) ++ t) caps kc <> None).
          { apply (Ha kc Hkc). exists u1, (u2 ++ t), caps'.
            split; [apply append_assoc |]. split; [exact Hm1 |].
            unfold kc.
            assert (Hlt : String.length (u2 ++ t) < String.length ((u1 ++ u2) ++ t)).
            { rewrite append_assoc, (length_append u1).
              destruct u1; [congruence | simpl; lia]. }
            destruct (Nat.ltb_spec (String.length (u2 ++ t))
                                   (String.length ((u1 ++ u2) ++ t))); [| lia].
            apply IH; [lia |]. exists u2, t, caps'. auto. }
          destruct (Re.rmatch ic a ((u1 ++ u2) ++ t) caps kc); congruence. }
  intros s caps. apply Hloop. apply Nat.le_refl.
Qed.

Theorem rmatch_finds r : finds R ic r.
Proof.
  induction r as [| c | | neg items | a IHa b IHb | a IHa b IHb | a IHa | n a IHa |].
  - (* Eps *)
    intros k Hk s caps. simpl. split.
    + intros H. exists "", s, caps. repeat split; [constructor | exact H].
    + intros [u [t [caps' [Hs [Hm Hkt]]]]]. inversion Hm; subst. simpl.
      eapply blind_any_caps; eassumption.
  - (* Chr *)
    apply (finds_one_char (Re.Chr c) (Re.chr_eq ic c)); [reflexivity |].
    intros u t. split.
    + intros H. inversion H; subst. eauto.
    + intros [x [-> Hx]]. constructor. exact Hx.
  - (* Any *)
    apply (finds_one_char Re.Any (fun x => negb (Ascii.eqb x Py.nl))).
    + intros s caps k. destruct s as [| x s']; [reflexivity |].
      simpl. destruct (Ascii.eqb x Py.nl); reflexivity.
    + intros u t. split.
      * intros H. inversion H; subst. exists x. split; [reflexivity |].
        apply negb_true_iff. assumption.
      * intros [x [-> Hx]]. constructor. apply negb_true_iff. exact Hx.
  - (* Set_ *)
    apply (finds_one_char (Re.Set_ neg items) (fun x => xorb neg (Re.in_set ic items x)));
      [reflexivity |].
    intros u t. split.
    + intros H. inversion H; subst. eauto.
    + intros [x [-> Hx]]. constructor. exact Hx.
  - (* Seq *)
    intros k Hk s caps.
    pose proof (finds_blind b k IHb Hk) as Hkb.
    change (Re.rmatch ic (Re.Seq a b) s caps k)
      with (Re.rmatch ic a s caps (fun s' caps' => Re.rmatch ic b s' caps' k)).
    split.
    + intros H0. apply (IHa _ Hkb) in H0.
      destruct H0 as [u1 [t1 [caps1 [Hs [Hm1 H]]]]]. apply (IHb k Hk) in H.
      destruct H as [u2 [t [caps' [Ht [Hm2 Hkt]]]]]. subst.
      exists (u1 ++ u2), t, caps'. split; [symmetry; apply append_assoc |].
      split; [constructor; assumption | exact Hkt].
    + intros [u [t [caps' [Hs [Hm Hkt]]]]]. inversion Hm; subst.
      apply (IHa _ Hkb).
      exists u1, (u2 ++ t), caps'. split; [apply append_assoc |].
      split; [assumption |]. apply (IHb k Hk). exists u2, t, caps'. auto.
  - (* Alt *)
    intros k Hk s caps. simpl. split.
    + destruct (Re.rmatch ic a s caps k) eqn:E.
      * intros _. assert (H : Re.rmatch ic a s caps k <> None) by congruence.
        apply (IHa k Hk) in H. destruct H as [u [t [caps' [Hs [Hm Hkt]]]]].
        exists u, t, caps'. split; [exact Hs |]. split; [apply m_alt_l, Hm | exact Hkt].
      * intros H. apply (IHb k Hk) in H. destruct H as [u [t [caps' [Hs [Hm Hkt]]]]].
        exists u, t, caps'. split; [exact Hs |]. split; [apply m_alt_r, Hm | exact Hkt].
    + intros [u [t [caps' [Hs [Hm Hkt]]]]]. inversion Hm; subst.
      * assert (H : Re.rmatch ic a (u ++ t) caps k <> None).
        { apply (IHa k Hk). exists u, t, caps'. auto. }
        destruct (Re.rmatch ic a (u ++ t) caps k); congruence.
      * destruct (Re.rmatch ic a (u ++ t) caps k); [congruence |].
        apply (IHb k Hk). exists u, t, caps'. auto.
  - (* Star *)
    apply finds_star, IHa.
  - (* Group *)
    intros k Hk s caps.
    set (kg := fun s' caps' => k s' ((n, Re.consumed s s') :: caps')).
    assert (Hkg : caps_blind kg) by (intros s' c1 c2; unfold kg; apply Hk).
    change (Re.rmatch ic (Re.Group n a) s caps k) with (Re.rmatch ic a s caps kg).
    split.
    + intros H. apply (IHa kg Hkg) in H. destruct H as [u [t [caps' [Hs [Hm Hkt]]]]].
      exists u, t, ((n, Re.consumed s t) :: caps').
      split; [exact Hs |]. split; [constructor; exact Hm | exact Hkt].
    + intros [u [t [caps' [Hs [Hm Hkt]]]]]. inversion Hm; subst.
      apply (IHa kg Hkg).
      exists u, t, caps'. split; [reflexivity |]. split; [assumption |].
      unfold kg. eapply blind_any_caps; eassumption.
  - (* Eol *)
    intros k Hk s caps. simpl. split.
    + destruct (String.eqb s "" || String.eqb s (String Py.nl "")) eqn:E; [| congruence].
      intros H. exists "", s, caps. split; [reflexivity |]. split; [| exact H].
      constructor. apply orb_true_iff in E.
      destruct E as [E | E]; apply String.eqb_eq in E; auto.
    + intros [u [t [caps' [Hs [Hm Hkt]]]]]. inversion Hm as [| | | | | | | | | | t' Ht]; subst.
      simpl.
      assert (E : String.eqb t "" || String.eqb t (String Py.nl "") = true).
      { apply orb_true_iff. destruct Ht as [-> | ->]; [left | right]; reflexivity. }
      rewrite E. eapply blind_any_caps; eassumption.
Qed.

End MatcherCorrect.

(** [p.match(s)] succeeds exactly when the pattern matches a prefix of [s]. *)
Lemma matches_iff (p : Re.pattern) (s : string) :
  Re.matches p s = true
  <-> exists u t, s = u ++ t /\ matching (Re.ignorecase p) (Re.ast p) u t.
Proof.
  unfold Re.matches, Re.match_at.
  pose proof (rmatch_finds (string * Re.captures)%type (Re.ignorecase p) (Re.ast p)
                (fun s' caps => Some (s', caps))) as H.
  assert (Hk : caps_blind (fun (s' : string) (caps : Re.captures) => Some (s', caps)))
    by (intros s' c1 c2; discriminate).
  specialize (H Hk s []). split.
  - intros Hm.
    destruct (Re.rmatch (Re.ignorecase p) (Re.ast p) s [] (fun s' caps => Some (s', caps))) eqn:E;
      [| discriminate].
    assert (Hn : Some p0 <> None) by discriminate.
    apply H in Hn. destruct Hn as [u [t [_ [Hs [Hu _]]]]]. eauto.
  - intros [u [t [Hs Hu]]].
    assert (Hn : Re.rmatch (Re.ignorecase p) (Re.ast p) s [] (fun s' caps => Some (s', caps))
                 <> None).
    { apply H. exists u, t, []. repeat split; [exact Hs | exact Hu | discriminate]. }
    destruct (Re.rmatch (Re.ignorecase p) (Re.ast p) s [] (fun s' caps => Some (s', caps)));
      [reflexivity | congruence].
Qed.

(** ** The parser on a pattern put between parentheses *)

Lemma parse_alt_eq f s n :
  Re.parse_alt (S f) s n
  = match Re.parse_seq f s n with
    | Some (r, rest, n') =>
        match rest with
        | String c s' =>
            if Ascii.eqb c "|" then
              match Re.parse_alt f s' n' with
              | Some (r', rest', n'') => Some (Re.Alt r r', rest', n'')
              | None => None
              end
            else Some (r, rest, n')
        | "" => Some (r, rest, n')
        end
    | None => None
    end.
Proof. reflexivity. Qed.

Lemma parse_seq_eq f s n :
  Re.parse_seq (S f) s n
  = match s with
    | "" => Some (Re.Eps, s, n)
    | String c _ =>
        if Ascii.eqb c "|" || Ascii.eqb c ")" then Some (Re.Eps, s, n)
        else
          match Re.parse_atom f s n with
          | Some (a, s', n') =>
              match Re.parse_postfix a s' with
              | Some (a', s'') =>
                  match Re.parse_seq f s'' n' with
                  | Some (r, rest, n'') => Some (Re.Seq a' r, rest, n'')
                  | None => None
                  end
              | None => None
              end
          | None => None
          end
    end.
Proof. reflexivity. Qed.

Lemma parse_atom_eq f s n :
  Re.parse_atom (S f) s n
  = match s with
    | "" => None
    | String c s' =>
        if Ascii.eqb c "(" then
          if Py.startswith s' "?" then None
          else
            match Re.parse_alt f s' (S n) with
            | Some (r, String c' s'', n') =>
                if Ascii.eqb c' ")" then Some (Re.Group (S n) r, s'', n') else None
            | _ => None
            end
        else if Ascii.eqb c "." then Some (Re.Any, s', n)
        else if Ascii.eqb c "$" then Some (Re.Eol, s', n)
        else if Ascii.eqb c "\" then
          match s' with
          | String d s'' => if Re.is_alnum d then None else Some (Re.Chr d, s'', n)
          | "" => None
          end
        else if Ascii.eqb c "[" then
          match Re.parse_set s' with
          | Some (r, rest) => Some (r, rest, n)
          | None => None
          end
        else if Re.is_repeat c || Ascii.eqb c "^" || Ascii.eqb c "{"
                || negb (Py.ascii_char c) then None
        else Some (Re.Chr c, s', n)
    end.
Proof. reflexivity. Qed.

Lemma parse_set_items_ext first s items rest t :
  Re.parse_set_items first s = Some (items, rest) ->
  Re.parse_set_items first (s ++ t) = Some (items, rest ++ t).
Proof.
  revert first items rest. induction s as [| c s IH]; intros first items rest; simpl.
  - discriminate.
  - destruct (Ascii.eqb c "]" && negb first).
    + intros H. inversion H. reflexivity.
    + destruct (Ascii.eqb c "\" || Ascii.eqb c "-" || Ascii.eqb c "["
                || Ascii.eqb c "&" || Ascii.eqb c "~" || Ascii.eqb c "|"
                || negb (Py.ascii_char c)); [discriminate |].
      destruct (Re.parse_set_items false s) as [[items' rest'] |] eqn:E; [| discriminate].
      intros H. inversion H; subst. rewrite (IH false items' rest E). reflexivity.
Qed.

Lemma parse_set_ext s r rest t :
  Re.parse_set s = Some (r, rest) ->
  Re.parse_set (s ++ t) = Some (r, rest ++ t) /\ forall k, shift k r = r.
Proof.
  unfold Re.parse_set. destruct s as [| c s']; [discriminate |].
  change (String c s' ++ t) with (String c (s' ++ t)). cbv beta iota.
  destruct (Ascii.eqb c "^").
  - destruct (Re.parse_set_items true s') as [[items rest'] |] eqn:E; [| discriminate].
    intros H. inversion H; subst.
    rewrite (parse_set_items_ext true s' items rest t E).
    split; [reflexivity | intros; reflexivity].
  - change (String c (s' ++ t)) with (String c s' ++ t).
    destruct (Re.parse_set_items true (String c s')) as [[items rest'] |] eqn:E;
      [| discriminate].
    intros H. inversion H; subst.
    rewrite (parse_set_items_ext true (String c s') items rest t E).
    split; [reflexivity | intros; reflexivity].
Qed.

Lemma shift_repeat_of k c a : shift k (Re.repeat_of c a) = Re.repeat_of c (shift k a).
Proof.
  unfold Re.repeat_of. destruct (Ascii.eqb c "*"); [reflexivity |].
  destruct (Ascii.eqb c "+"); reflexivity.
Qed.

Lemma shift_is_eol k a : Re.is_eol (shift k a) = Re.is_eol a.
Proof. destruct a; reflexivity. Qed.

Lemma shift_nullable k a : Re.nullable (shift k a) = Re.nullable a.
Proof.
  induction a as [| c | | neg items | a IHa b IHb | a IHa b IHb | a IHa | n a IHa |];
    simpl; try reflexivity; try (rewrite IHa, IHb; reflexivity). exact IHa.
Qed.

Lemma parse_postfix_ext a s a' rest k t :
  Re.parse_postfix a s = Some (a', rest) ->
  Re.parse_postfix (shift k a) (s ++ String ")" t)
  = Some (shift k a', rest ++ String ")" t).
Proof.
  unfold Re.parse_postfix. destruct s as [| c s']; simpl.
  - intros H. inversion H. reflexivity.
  - rewrite shift_is_eol, shift_nullable. destruct (Re.is_repeat c).
    + destruct (Re.is_eol a || negb (Ascii.eqb c "?") && Re.nullable a); [discriminate |].
      destruct s' as [| c' s'']; simpl.
      * intros H. inversion H. rewrite shift_repeat_of. reflexivity.
      * destruct (Re.is_repeat c'); [discriminate |].
        intros H. inversion H. rewrite shift_repeat_of. reflexivity.
    + destruct (Ascii.eqb c "{"); [discriminate |].
      intros H. inversion H. reflexivity.
Qed.


Lemma startswith_question_app s t :
  Py.startswith s "?" = false ->
  Py.startswith (s ++ String ")" t) "?" = false.
Proof.
  destruct s as [| q s']; [reflexivity |].
  change (String q s' ++ String ")" t) with (String q (s' ++ String ")" t)).
  intros H. exact H.
Qed.

Lemma parse_extends f :
  extends Re.parse_alt f /\ extends Re.parse_seq f /\ extends Re.parse_atom f.
Proof.
  induction f as [| g [IHalt [IHseq IHatom]]].
  { repeat split; intros f' s n r rest n' k t _ H; discriminate. }
  split; [| split]; intros f' s n r rest n' k t Hle H;
    (destruct f' as [| g']; [lia |]); assert (Hg : g <= g') by lia.
  - (* parse_alt *)
    rewrite parse_alt_eq in H. rewrite parse_alt_eq.
    destruct (Re.parse_seq g s n) as [[[r1 rest1] n1] |] eqn:E; [| discriminate].
    rewrite (IHseq g' s n r1 rest1 n1 k t Hg E).
    destruct rest1 as [| c s1].
    + inversion H; subst. reflexivity.
    + change (String c s1 ++ String ")" t) with (String c (s1 ++ String ")" t)).
      cbv beta iota. destruct (Ascii.eqb c "|").
      * destruct (Re.parse_alt g s1 n1) as [[[r2 rest2] n2] |] eqn:E2; [| discriminate].
        rewrite (IHalt g' s1 n1 r2 rest2 n2 k t Hg E2). inversion H; subst. reflexivity.
      * inversion H; subst. reflexivity.
  - (* parse_seq *)
    rewrite parse_seq_eq in H. rewrite parse_seq_eq.
    destruct s as [| c s0].
    + inversion H; subst. reflexivity.
    + change (String c s0 ++ String ")" t) with (String c (s0 ++ String ")" t)).
      cbv beta iota. destruct (Ascii.eqb c "|" || Ascii.eqb c ")").
      * inversion H; subst. reflexivity.
      * change (String c (s0 ++ String ")" t)) with (String c s0 ++ String ")" t).
        destruct (Re.parse_atom g (String c s0) n) as [[[a s1] n1] |] eqn:Ea;
          [| discriminate].
        rewrite (IHatom g' (String c s0) n a s1 n1 k t Hg Ea).
        destruct (Re.parse_postfix a s1) as [[a' s2] |] eqn:Ep; [| discriminate].
        rewrite (parse_postfix_ext a s1 a' s2 k t Ep).
        destruct (Re.parse_seq g s2 n1) as [[[r2 rest2] n2] |] eqn:Es; [| discriminate].
        rewrite (IHseq g' s2 n1 r2 rest2 n2 k t Hg Es). inversion H; subst. reflexivity.
  - (* parse_atom *)
    rewrite parse_atom_eq in H. rewrite parse_atom_eq.
    destruct s as [| c s0]; [discriminate |].
    change (String c s0 ++ String ")" t) with (String c (s0 ++ String ")" t)).
    cbv beta iota. destruct (Ascii.eqb c "(").
    { destruct (Py.startswith s0 "?") eqn:Eq; [discriminate |].
      rewrite (startswith_question_app s0 t Eq).
      destruct (Re.parse_alt g s0 (S n)) as [[[r1 rest1] n1] |] eqn:E; [| discriminate].
      destruct rest1 as [| c' s1]; [discriminate |].
      change (S (n + k)) with (S n + k).
      rewrite (IHalt g' s0 (S n) r1 (String c' s1) n1 k t Hg E).
      change (String c' s1 ++ String ")" t) with (String c' (s1 ++ String ")" t)).
      cbv beta iota. destruct (Ascii.eqb c' ")"); [| discriminate].
      inversion H; subst. reflexivity. }
    destruct (Ascii.eqb c "."); [inversion H; subst; reflexivity |].
    destruct (Ascii.eqb c "$"); [inversion H; subst; reflexivity |].
    destruct (Ascii.eqb c "\").
    { destruct s0 as [| d s0']; [discriminate |].
      change (String d s0' ++ String ")" t) with (String d (s0' ++ String ")" t)).
      cbv beta iota. destruct (Re.is_alnum d); [discriminate |].
      inversion H; subst. reflexivity. }
    destruct (Ascii.eqb c "[").
    { destruct (Re.parse_set s0) as [[r1 rest1] |] eqn:E; [| discriminate].
      destruct (parse_set_ext s0 r1 rest1 (String ")" t) E) as [E' Hs].
      rewrite E'. inversion H; subst. rewrite Hs. reflexivity. }
    destruct (Re.is_repeat c || Ascii.eqb c "^" || Ascii.eqb c "{"
              || negb (Py.ascii_char c)); [discriminate |].
    inversion H; subst. reflexivity.
Qed.

Lemma parse_not_question f e n x :
  Re.parse_alt f e n = Some x -> Py.startswith e "?" = false.
Proof.
  destruct e as [| q e']; [reflexivity |].
  change (Py.startswith (String q e') "?") with (Ascii.eqb "?" q && true).
  rewrite andb_true_r. destruct (Ascii.eqb_spec "?" q) as [<- | _]; [| reflexivity].
  destruct f as [| [| [| f]]]; discriminate.
Qed.

Lemma compiles_to_parse e r :
  compiles_to e r ->
  exists n0, Re.parse_alt (3 * String.length e + 3) e 0 = Some (r, "", n0).
Proof.
  intros [ic H]. unfold Re.compile in H.
  destruct (Re.parse_alt (3 * String.length e + 3) e 0) as [[[r' rest] n0] |];
    [| discriminate].
  destruct rest; [| discriminate]. inversion H; subst. eauto.
Qed.

(** One ending between parentheses, followed by a bar or a closing
    parenthesis. *)
Lemma parse_seq_group e r n0 c X f n :
  Re.parse_alt (3 * String.length e + 3) e 0 = Some (r, "", n0) ->
  Ascii.eqb c "|" || Ascii.eqb c ")" = true ->
  3 * String.length e + 5 <= f ->
  Re.parse_seq f (String "(" (e ++ String ")" (String c X))) n
  = Some (Re.Seq (Re.Group (S n) (shift (S n) r)) Re.Eps, String c X, n0 + S n).
Proof.
  intros He Hc Hf.
  destruct f as [| [| f2]]; try lia.
  rewrite parse_seq_eq. cbv beta iota.
  change (Ascii.eqb "(" "|" || Ascii.eqb "(" ")") with false. cbv iota.
  rewrite parse_atom_eq. cbv beta iota.
  change (Ascii.eqb "(" "(") with true. cbv iota.
  rewrite (startswith_question_app e (String c X) (parse_not_question _ _ _ _ He)).
  destruct (parse_extends (3 * String.length e + 3)) as [Halt _].
  pose proof (Halt f2 e 0 r "" n0 (S n) (String c X) ltac:(lia) He) as Hx.
  change (0 + S n) with (S n) in Hx. rewrite Hx.
  change ("" ++ String ")" (String c X)) with (String ")" (String c X)). cbv beta iota.
  change (Ascii.eqb ")" ")") with true. cbv iota.
  assert (Hp : Re.parse_postfix (Re.Group (S n) (shift (S n) r)) (String c X)
               = Some (Re.Group (S n) (shift (S n) r), String c X)).
  { unfold Re.parse_postfix.
    apply orb_true_iff in Hc. destruct Hc as [Hc | Hc];
      apply Ascii.eqb_eq in Hc; subst c; reflexivity. }
  rewrite Hp. rewrite parse_seq_eq. cbv beta iota. rewrite Hc. reflexivity.
Qed.

Lemma matching_shift ic k r u t : matching ic (shift k r) u t <-> matching ic r u t.
Proof.
  split.
  - remember (shift k r) as r' eqn:Er. intros H. revert r Er.
    induction H; intros r0 Er; destruct r0; simpl in Er; inversion Er; subst;
      (constructor; auto; fail).
  - induction 1; simpl; (constructor; auto; fail).
Qed.

Lemma matching_group_eps ic g r u t :
  matching ic (Re.Seq (Re.Group g r) Re.Eps) u t <-> matching ic r u t.
Proof.
  split.
  - intros H. inversion H as [| | | | a b u1 u2 t' H1 H2 | | | | | |]; subst.
    inversion H2; subst. inversion H1; subst.
    rewrite append_nil_r. simpl in *. assumption.
  - intros H. rewrite <- (append_nil_r u). constructor; [| constructor].
    constructor. exact H.
Qed.

Lemma alternatives_text_cons e e2 es :
  alternatives_text (e :: e2 :: es)
  = String "(" (e ++ String ")" (String "|" (alternatives_text (e2 :: es)))).
Proof.
  unfold alternatives_text.
  change (Py.join ")|(" (e :: e2 :: es)) with (e ++ ")|(" ++ Py.join ")|(" (e2 :: es)).
  simpl append at 1. rewrite append_assoc. reflexivity.
Qed.

Lemma alternatives_text_single e :
  alternatives_text [e] = String "(" (e ++ ")").
Proof. reflexivity. Qed.

Lemma length_alternatives_cons e e2 es :
  String.length (alternatives_text (e :: e2 :: es))
  = String.length e + 3 + String.length (alternatives_text (e2 :: es)).
Proof.
  rewrite alternatives_text_cons. simpl. rewrite length_append. simpl. lia.
Qed.

(** The alternatives of the exclusion pattern parse to an expression
    that matches what one of the endings matches. *)
Lemma parse_alternatives es rs :
  es <> [] ->
  Forall2 compiles_to es rs ->
  forall f n t,
    3 * String.length (alternatives_text es) <= f ->
    exists alts n',
      Re.parse_alt f (alternatives_text es ++ String ")" t) n = Some (alts, String ")" t, n')
      /\ forall ic u t', matching ic alts u t' <-> Exists (fun r => matching ic r u t') rs.
Proof.
  intros Hne H. induction H as [| e r es rs He Hes IH]; [congruence |].
  clear Hne. intros f n t Hf.
  destruct (compiles_to_parse e r He) as [n0 Hp].
  destruct es as [| e2 es'].
  - inversion Hes; subst. rewrite alternatives_text_single in *.
    simpl String.length in Hf. rewrite length_append in Hf. simpl in Hf.
    destruct f as [| f1]; [lia |].
    exists (Re.Seq (Re.Group (S n) (shift (S n) r)) Re.Eps), (n0 + S n). split.
    + rewrite parse_alt_eq.
      change (String "(" (e ++ ")") ++ String ")" t)
        with (String "(" ((e ++ ")") ++ String ")" t)).
      rewrite append_assoc.
      change (")" ++ String ")" t) with (String ")" (String ")" t)).
      rewrite (parse_seq_group e r n0 ")" t f1 n Hp eq_refl ltac:(lia)).
      reflexivity.
    + intros ic u t'. rewrite matching_group_eps, matching_shift. split.
      * intros Hm. constructor. exact Hm.
      * intros Hm. inversion Hm; subst; [assumption |].
        match goal with Hx : Exists _ [] |- _ => inversion Hx end.
  - rewrite length_alternatives_cons in Hf.
    destruct f as [| f1]; [lia |].
    destruct (IH ltac:(discriminate) f1 (n0 + S n) t ltac:(lia)) as [alts' [n' [Hp' Hm']]].
    exists (Re.Alt (Re.Seq (Re.Group (S n) (shift (S n) r)) Re.Eps) alts'), n'. split.
    + rewrite parse_alt_eq, alternatives_text_cons.
      change (String "(" (e ++ String ")" (String "|" (alternatives_text (e2 :: es'))))
              ++ String ")" t)
        with (String "(" ((e ++ String ")" (String "|" (alternatives_text (e2 :: es'))))
                          ++ String ")" t)).
      rewrite append_assoc.
      change (String ")" (String "|" (alternatives_text (e2 :: es'))) ++ String ")" t)
        with (String ")" (String "|" (alternatives_text (e2 :: es') ++ String ")" t))).
      rewrite (parse_seq_group e r n0 "|" _ f1 n Hp eq_refl ltac:(lia)).
      cbv beta iota. change (Ascii.eqb "|" "|") with true. cbv iota.
      rewrite Hp'. reflexivity.
    + intros ic u t'. split.
      * intros Hm. inversion Hm; subst.
        -- apply Exists_cons_hd. apply matching_shift with (k := S n).
           apply matching_group_eps with (g := S n). assumption.
        -- apply Exists_cons_tl. apply Hm'. assumption.
      * intros Hm. inversion Hm; subst.
        -- apply m_alt_l. apply matching_group_eps, matching_shift. assumption.
        -- apply m_alt_r. apply Hm'. assumption.
Qed.

Lemma exclude_str_shape endings :
  exclude_str_of endings
  = String "." (String "*" (String "\" (String "." (String "("
      (alternatives_text (joined_endings endings) ++ String ")" "$"))))).
Proof.
  unfold exclude_str_of, alternatives_text.
  assert (Hj : Py.join ")|(" (joined_endings endings) = Py.join ")|(" endings)
    by (destruct endings; reflexivity).
  rewrite Hj. simpl. rewrite !append_assoc. reflexivity.
Qed.

(** Around the alternatives: [.*], the escaped dot, the outer group and
    the end of the subject. *)
Lemma parse_exclusion T alts n' f :
  Re.parse_alt (S f) (String "(" T ++ String ")" "$") 1 = Some (alts, String ")" "$", n') ->
  Re.parse_alt (S (S (S (S (S (S f))))))
    (String "." (String "*" (String "\" (String "." (String "("
       (String "(" T ++ String ")" "$")))))) 0
  = Some (exclusion_ast alts, "", n').
Proof.
  intros H.
  assert (Hb : Re.parse_seq (S (S f)) "$" n' = Some (Re.Seq Re.Eol Re.Eps, "", n'))
    by reflexivity.
  assert (Hc : Re.parse_atom (S (S f)) (String "(" (String "(" T ++ String ")" "$")) 0
               = Some (Re.Group 1 alts, "$", n')).
  { rewrite parse_atom_eq. cbv beta iota.
    change (Ascii.eqb "(" "(") with true. cbv iota.
    change (Py.startswith (String "(" T ++ String ")" "$") "?") with false. cbv iota.
    rewrite H. reflexivity. }
  assert (Hd : Re.parse_seq (S (S (S f))) (String "(" (String "(" T ++ String ")" "$")) 0
               = Some (Re.Seq (Re.Group 1 alts) (Re.Seq Re.Eol Re.Eps), "", n')).
  { rewrite parse_seq_eq. cbv beta iota.
    change (Ascii.eqb "(" "|" || Ascii.eqb "(" ")") with false. cbv iota.
    rewrite Hc.
    change (Re.parse_postfix (Re.Group 1 alts) "$") with (Some (Re.Group 1 alts, "$")).
    cbv iota. rewrite Hb. reflexivity. }
  assert (He : Re.parse_seq (S (S (S (S f))))
                 (String "\" (String "." (String "(" (String "(" T ++ String ")" "$")))) 0
               = Some (Re.Seq (Re.Chr ".") (Re.Seq (Re.Group 1 alts) (Re.Seq Re.Eol Re.Eps)),
                       "", n')).
  { rewrite parse_seq_eq. cbv beta iota.
    change (Ascii.eqb "\" "|" || Ascii.eqb "\" ")") with false. cbv iota.
    change (Re.parse_atom (S (S (S f)))
              (String "\" (String "." (String "(" (String "(" T ++ String ")" "$")))) 0)
      with (Some (Re.Chr ".", String "(" (String "(" T ++ String ")" "$"), 0)).
    cbv iota.
    change (Re.parse_postfix (Re.Chr ".") (String "(" (String "(" T ++ String ")" "$")))
      with (Some (Re.Chr ".", String "(" (String "(" T ++ String ")" "$"))).
    cbv iota. rewrite Hd. reflexivity. }
  rewrite parse_alt_eq, parse_seq_eq. cbv beta iota.
  change (Ascii.eqb "." "|" || Ascii.eqb "." ")") with false. cbv iota.
  change (Re.parse_atom (S (S (S (S f))))
            (String "." (String "*" (String "\" (String "." (String "("
               (String "(" T ++ String ")" "$")))))) 0)
    with (Some (Re.Any, String "*" (String "\" (String "." (String "("
                  (String "(" T ++ String ")" "$")))), 0)).
  cbv iota.
  change (Re.parse_postfix Re.Any
            (String "*" (String "\" (String "." (String "("
               (String "(" T ++ String ")" "$"))))))
    with (Some (Re.Star Re.Any,
                String "\" (String "." (String "(" (String "(" T ++ String ")" "$"))))).
  cbv iota. rewrite He. reflexivity.
Qed.

(** The exclusion pattern of endings that are patterns of their own. *)
Lemma compile_exclusion endings rs :
  Forall2 compiles_to (joined_endings endings) rs ->
  exists alts,
    Re.compile (exclude_str_of endings) true
    = Some {| Re.ast := exclusion_ast alts; Re.ignorecase := true |}
    /\ forall ic u t, matching ic alts u t <-> Exists (fun r => matching ic r u t) rs.
Proof.
  intros H.
  assert (Hne : joined_endings endings <> []) by (destruct endings; discriminate).
  set (T := alternatives_text (joined_endings endings)).
  assert (HT : exists T', T = String "(" T') by (eexists; reflexivity).
  destruct HT as [T' HT].
  assert (Hlen : String.length (exclude_str_of endings) = String.length T + 7).
  { rewrite exclude_str_shape. fold T. simpl. rewrite length_append. simpl. lia. }
  destruct (parse_alternatives (joined_endings endings) rs Hne H
              (S (3 * String.length T + 18)) 1 "$") as [alts [n' [Hp Hm]]].
  { fold T. lia. }
  exists alts. split; [| exact Hm].
  unfold Re.compile. rewrite Hlen.
  replace (3 * (String.length T + 7) + 3)
    with (S (S (S (S (S (S (3 * String.length T + 18))))))) by lia.
  rewrite exclude_str_shape. fold T. fold T in Hp. rewrite HT in Hp |- *.
  rewrite (parse_exclusion T' alts n' _ Hp). reflexivity.
Qed.

(** ** The exclusion pattern *)

Lemma star_any_matching ic a t : matching ic (Re.Star Re.Any) a t <-> no_nl a = true.
Proof.
  split.
  - remember (Re.Star Re.Any) as r eqn:Er. intros H.
    induction H; inversion Er; subst; [reflexivity |].
    inversion H; subst. simpl.
    match goal with Hx : Ascii.eqb _ Py.nl = false |- _ => rewrite Hx end.
    apply IHmatching2. reflexivity.
  - revert t. induction a as [| x a IH]; intros t Hn; [constructor |].
    simpl in Hn. apply andb_prop in Hn. destruct Hn as [Hx Ha].
    change (String x a) with (String x "" ++ a).
    apply m_star_s; [| discriminate | apply IH, Ha].
    constructor. apply negb_true_iff. exact Hx.
Qed.

Lemma lower_dot x : Py.lower_ascii x = "."%char -> x = "."%char.
Proof.
  destruct x as [[] [] [] [] [] [] [] []]; vm_compute; intros H;
    solve [reflexivity | discriminate H].
Qed.

Lemma exclusion_matching alts u t :
  matching true (exclusion_ast alts) u t
  <-> exists a e, u = a ++ "." ++ e /\ no_nl a = true /\ matching true alts e t /\ at_end t.
Proof.
  unfold exclusion_ast. split.
  - intros H.
    inversion H as [| | | | r1 r2 u1 u2 t1 Hstar Hrest | | | | | |]; subst.
    inversion Hrest as [| | | | r3 r4 u3 u4 t2 Hdot Hgrp | | | | | |]; subst.
    inversion Hdot as [| c x t3 Hx | | | | | | | | |]; subst.
    inversion Hgrp as [| | | | r5 r6 u5 u6 t4 Hg Hend | | | | | |]; subst.
    inversion Hend as [| | | | r7 r8 u7 u8 t5 Heol Heps | | | | | |]; subst.
    inversion Heol as [| | | | | | | | | | t6 Ht]; subst.
    inversion Heps; subst. inversion Hg; subst.
    assert (Hd : x = "."%char).
    { unfold Re.chr_eq in Hx. apply Ascii.eqb_eq in Hx. symmetry in Hx.
      apply lower_dot. exact Hx. }
    subst x. clear Hx Hdot.
    change ("" ++ "") with "" in *. change ("" ++ t) with t in *.
    rewrite append_nil_r in *.
    exists u1, u5. split; [| split; [| split]].
    + reflexivity.
    + eapply star_any_matching. exact Hstar.
    + assumption.
    + exact Ht.
  - intros [a [e [-> [Ha [He Ht]]]]].
    apply m_seq; [apply star_any_matching, Ha |].
    change ("." ++ e) with (String "." "" ++ e).
    apply m_seq; [apply m_chr; reflexivity |].
    rewrite <- (append_nil_r e).
    apply m_seq; [apply m_group; exact He |].
    apply (@m_seq true Re.Eol Re.Eps "" "" t); [apply m_eol; exact Ht | apply m_eps].
Qed.








(** * Further properties of the code *)

(** ** White space *)

Lemma lstrip_head s :
  Py.lstrip s = "" \/ exists c r, Py.lstrip s = String c r /\ Py.isspace c = false.
Proof.
  induction s as [| c s IH]; simpl; [left; reflexivity |].
  destruct (Py.isspace c) eqn:E; [exact IH |].
  right. exists c, s. auto.
Qed.

Lemma rstrip_cons_nonspace c s :
  Py.isspace c = false -> exists r, Py.rstrip (String c s) = String c r.
Proof.
  intros H. simpl. destruct (Py.rstrip s); [rewrite H |]; eexists; reflexivity.
Qed.

Lemma rstrip_idem s : Py.rstrip (Py.rstrip s) = Py.rstrip s.
Proof.
  induction s as [| c s IH]; [reflexivity |].
  simpl. destruct (Py.rstrip s) as [| d r] eqn:E.
  - destruct (Py.isspace c) eqn:Ec; [reflexivity |]. simpl. rewrite Ec. reflexivity.
  - change (Py.rstrip (String c (String d r)))
      with (match Py.rstrip (String d r) with
            | "" => if Py.isspace c then "" else String c ""
            | x => String c x
            end).
    rewrite IH. reflexivity.
Qed.

Lemma lstrip_nonspace c r : Py.isspace c = false -> Py.lstrip (String c r) = String c r.
Proof. intros H. simpl. rewrite H. reflexivity. Qed.

(** [strip] leaves nothing to strip. *)
Lemma strip_idem s : Py.strip (Py.strip s) = Py.strip s.
Proof.
  unfold Py.strip. destruct (lstrip_head s) as [-> | [c [r [-> Hc]]]]; [reflexivity |].
  destruct (rstrip_cons_nonspace c r Hc) as [r' Hr].
  rewrite Hr, (lstrip_nonspace c r' Hc), <- Hr. apply rstrip_idem.
Qed.

(** ** The livestream list *)

Lemma for_each_append (xs acc : list string) log :
  for_each (fun x acc => ret (acc ++ [x])%list) xs acc log = (Ok (acc ++ xs)%list, log).
Proof.
  revert acc log. induction xs as [| x xs IH]; intros acc log; simpl.
  - rewrite app_nil_r. reflexivity.
  - rewrite bind_ret_l, IH, <- app_assoc. reflexivity.
Qed.

Lemma decode_livestream_lines lines pl log :
  for_each decode_livestream_line lines pl log
  = (Ok (pl ++ filter is_entry_line (map Py.strip lines))%list, log).
Proof.
  rewrite <- for_each_append.
  apply (for_each_filter_map Py.strip is_entry_line
           (fun x acc => ret (acc ++ [x])%list)).
Qed.

Lemma entry_lines_trimmed text e :
  In e (entry_lines text) ->
  e <> "" /\ Py.startswith e "#" = false /\ Py.strip e = e.
Proof.
  unfold entry_lines. intros H. apply filter_In in H. destruct H as [Hin He].
  apply in_map_iff in Hin. destruct Hin as [x [<- _]].
  unfold is_entry_line in He. apply andb_prop in He. destruct He as [Hl Hc].
  split; [| split].
  - intros E. rewrite E in Hl. discriminate.
  - apply negb_true_iff. exact Hc.
  - apply strip_idem.
Qed.

(** X1: a readable livestream list adds its lines to the playlist in file
    order: stripped, blank lines and comment lines left out, nothing else
    changed; one debug record is logged; every added entry is non-empty,
    does not start with [#] and has no white space at either end. *)
Theorem X1_livestream_appends_trimmed_lines (w : World) (f : DirEntry.t) (p : string)
        (pl : list string) (log : list log_record) (text : string) :
  open_read w (DirEntry.path f) = Ok text ->
  decode_livestream w f p pl log
  = (Ok (pl ++ entry_lines text)%list, (log ++ [(DEBUG, livestream_debug_text f)])%list)
  /\ forall e, In e (entry_lines text) ->
               e <> "" /\ Py.startswith e "#" = false /\ Py.strip e = e.
Proof.
  intros H. split; [| apply entry_lines_trimmed].
  unfold decode_livestream, bind, logger_debug, lift. rewrite H.
  apply decode_livestream_lines.
Qed.

Lemma X1_witness :
  decode_livestream demo_world (entry "2-livestream.txt" "/music/B") "/music/B" ["x"] []
  = (Ok ["x"; "http://s/1"; "http://s/2"],
     [(DEBUG, "Decode livestream: '<DirEntry '2-livestream.txt'>'")])
  /\ ("http://s/1" <> "" /\ Py.startswith "http://s/1" "#" = false
      /\ Py.strip "http://s/1" = "http://s/1")
  /\ decode_livestream m3u_world (entry "it's-livestream.txt" "/lib/Q") "/lib/Q" [] []
     = (Ok ["http://s/1"],
        [(DEBUG, "Decode livestream: '<DirEntry " ++ Py.dq ++ "it's-livestream.txt"
                 ++ Py.dq ++ ">'")]).
Proof.
  destruct (X1_livestream_appends_trimmed_lines demo_world
              (entry "2-livestream.txt" "/music/B") "/music/B" ["x"] []
              ("# radio" ++ LF ++ " http://s/1 " ++ LF ++ LF ++ "http://s/2") eq_refl)
    as [H1 H2].
  destruct (X1_livestream_appends_trimmed_lines m3u_world
              (entry "it's-livestream.txt" "/lib/Q") "/lib/Q" [] [] "http://s/1" eq_refl)
    as [H3 _].
  split; [exact H1 |]. split; [apply H2; left; reflexivity | exact H3].
Defined.

(** ** What the folder loop keeps *)

Lemma for_each_extends {A : Type} (body : A -> list string -> M (list string)) xs :
  (forall x acc log acc' log',
      body x acc log = (Ok acc', log') -> exists d, acc' = (acc ++ d)%list) ->
  forall acc log r log',
    for_each body xs acc log = (Ok r, log') -> exists d, r = (acc ++ d)%list.
Proof.
  intros Hb. induction xs as [| x xs IH]; intros acc log r log' H.
  - inversion H. exists []. rewrite app_nil_r. reflexivity.
  - simpl in H. unfold bind in H.
    destruct (body x acc log) as [[acc1 | e] log1] eqn:E; [| discriminate].
    destruct (Hb _ _ _ _ _ E) as [d1 ->].
    destruct (IH _ _ _ _ H) as [d2 ->].
    exists (d1 ++ d2)%list. rewrite app_assoc. reflexivity.
Qed.

Lemma decode_podcast_core_extends w url pl log pl' log' :
  decode_podcast_core w url pl log = (Ok pl', log') -> exists d, pl' = (pl ++ d)%list.
Proof.
  unfold decode_podcast_core.
  destruct (requests_get w url) as [r | e].
  - unfold bind, lift, ret, logger_error.
    destruct (negb (Z.eqb (status_code r) 200)); simpl;
      (destruct (decoded r) as [body | e']; [| discriminate]);
      destruct (Nat.eqb (List.length (Re.findall enclosure_re body)) 0); simpl;
      intros H; inversion H; eauto.
  - unfold bind, ret, logger_error. simpl. intros H. inversion H.
    exists []. rewrite app_nil_r. reflexivity.
Qed.

Lemma decode_podcast_extends w f p pl log pl' log' :
  decode_podcast w f p pl log = (Ok pl', log') -> exists d, pl' = (pl ++ d)%list.
Proof.
  unfold decode_podcast, bind, logger_debug, lift.
  destruct (open_read w (fspath f)) as [text | e]; [| discriminate].
  apply for_each_extends. intros x acc lg acc' lg'. unfold decode_podcast_line.
  destruct (is_entry_line (Py.strip x)).
  - apply decode_podcast_core_extends.
  - intros H. inversion H. exists []. rewrite app_nil_r. reflexivity.
Qed.

Lemma decode_livestream_extends w f p pl log pl' log' :
  decode_livestream w f p pl log = (Ok pl', log') -> exists d, pl' = (pl ++ d)%list.
Proof.
  unfold decode_livestream, bind, logger_debug, lift.
  destruct (open_read w (DirEntry.path f)) as [text | e]; [| discriminate].
  rewrite decode_livestream_lines. intros H. inversion H. eauto.
Qed.

Lemma dispatch_extends w f p l log step log' :
  is_m3u f = false ->
  dispatch (special_handlers w) f p l log = (Ok step, log') ->
  exists d, fst step = (l ++ d)%list.
Proof.
  intros Hm. rewrite dispatch_cases. fold (is_m3u f). rewrite Hm.
  unfold returning, bind.
  destruct (Py.endswith (folded_name f) "livestream.txt").
  { destruct (decode_livestream w f p l log) as [[pl' | e] lg] eqn:E; [| discriminate].
    intros H. inversion H; subst. simpl. eapply decode_livestream_extends. exact E. }
  destruct (Py.endswith (folded_name f) "podcast.txt").
  { destruct (decode_podcast w (PEntry f) p l log) as [[pl' | e] lg] eqn:E; [| discriminate].
    intros H. inversion H; subst. simpl. eapply decode_podcast_extends. exact E. }
  destruct (Py.endswith (folded_name f) ".txt").
  { intros H. inversion H; subst. exists []. simpl. rewrite app_nil_r. reflexivity. }
  unfold default_handler, decode_musicfile, ret. intros H. inversion H; subst.
  simpl. eauto.
Qed.

(** X2: as long as no folder playlist is among the entries, the loop over
    a folder only ever appends: the list it was started with is a prefix
    of the list it returns, so nothing collected earlier is dropped or
    reordered. *)
Theorem X2_without_m3u_the_folder_loop_only_appends (w : World) (dir : list DirEntry.t)
        (p : string) (l : list string) (log : list log_record)
        (pl : list string) (log' : list log_record) :
  (forall e, In e dir -> is_m3u e = false) ->
  process_directory w dir p l false log = (Ok pl, log') ->
  exists added, pl = (l ++ added)%list.
Proof.
  revert l log. induction dir as [| f dir IH]; intros l log Hd H.
  - inversion H. exists []. rewrite app_nil_r. reflexivity.
  - rewrite process_directory_cons in H. unfold bind in H.
    destruct (dispatch (special_handlers w) f p l log) as [[step | e] lg] eqn:E;
      [| discriminate].
    assert (Hf : is_m3u f = false) by (apply Hd; left; reflexivity).
    rewrite (dispatch_not_m3u_stop w f p l log step lg Hf E) in H.
    destruct (dispatch_extends w f p l log step lg Hf E) as [d1 Hd1].
    rewrite Hd1 in H.
    destruct (IH _ _ (fun e He => Hd e (or_intror He)) H) as [d2 ->].
    exists (d1 ++ d2)%list. rewrite app_assoc. reflexivity.
Qed.

Lemma X2_witness :
  exists added,
    ["x"; "/music/B/1.mp3"; "http://s/1"; "http://s/2"] = (["x"] ++ added)%list.
Proof.
  apply (X2_without_m3u_the_folder_loop_only_appends demo_world
           [entry "1.mp3" "/music/B"; entry "2-livestream.txt" "/music/B"]
           "/music/B" ["x"] []
           ["x"; "/music/B/1.mp3"; "http://s/1"; "http://s/2"]
           [(DEBUG, "Decode livestream: '<DirEntry '2-livestream.txt'>'")]).
  - intros e [<- | [<- | []]]; reflexivity.
  - vm_compute. reflexivity.
Defined.

(** ** Folders that need no network *)

Lemma open_read_same_files w1 w2 p :
  cwd w1 = cwd w2 -> root w1 = root w2 -> open_read w1 p = open_read w2 p.
Proof. intros Hc Hr. unfold open_read, resolve. rewrite Hc, Hr. reflexivity. Qed.

Lemma scandir_same_files w1 w2 p :
  cwd w1 = cwd w2 -> root w1 = root w2 -> scandir w1 p = scandir w2 p.
Proof. intros Hc Hr. unfold scandir, resolve. rewrite Hc, Hr. reflexivity. Qed.

Lemma dispatch_offline w1 w2 f p l :
  cwd w1 = cwd w2 -> root w1 = root w2 -> is_offline f = true ->
  dispatch (special_handlers w1) f p l = dispatch (special_handlers w2) f p l.
Proof.
  intros Hc Hr Ho. rewrite !dispatch_cases. unfold is_offline in Ho.
  apply andb_prop in Ho. destruct Ho as [Hm Ho]. apply negb_true_iff in Hm.
  unfold is_m3u in Hm. rewrite Hm.
  destruct (Py.endswith (folded_name f) "livestream.txt").
  - unfold decode_livestream. rewrite (open_read_same_files w1 w2 _ Hc Hr). reflexivity.
  - simpl in Ho. apply negb_true_iff in Ho. rewrite Ho. reflexivity.
Qed.

(** X3: a folder whose valid entries are neither podcast lists nor folder
    playlists is resolved without the feed fetcher: two environments with
    the same files and different networks give the same result and the
    same log. *)
Theorem X3_offline_folder_ignores_the_network (w1 w2 : World) (cls : ClassState)
        (p : string) (entries : list DirEntry.t) :
  cwd w1 = cwd w2 -> root w1 = root w2 ->
  scandir w1 p = Ok entries ->
  forallb is_offline (filter (_is_valid cls) entries) = true ->
  _parse_nonrecusive w1 cls p =m= _parse_nonrecusive w2 cls p.
Proof.
  intros Hc Hr Hs Ho log. unfold _parse_nonrecusive, bind, lift.
  rewrite <- (scandir_same_files w1 w2 p Hc Hr), Hs. unfold process_listing.
  assert (Hall : forall e, In e (Py.sorted (fun x => Py.casefold (DirEntry.name x))
                                   (filter (_is_valid cls) entries)) ->
                           is_offline e = true).
  { intros e He. apply sorted_In in He. revert e He. apply forallb_forall. exact Ho. }
  revert Hall. generalize (Py.sorted (fun x => Py.casefold (DirEntry.name x))
                             (filter (_is_valid cls) entries)).
  intros dir. generalize (@nil string). revert log.
  induction dir as [| f dir IH]; intros log l Hall; [reflexivity |].
  rewrite !process_directory_cons.
  rewrite (dispatch_offline w1 w2 f p l Hc Hr (Hall f (or_introl eq_refl))).
  unfold bind. destruct (dispatch (special_handlers w2) f p l log) as [[step | e] lg];
    [| reflexivity].
  destruct (snd step).
  - rewrite !process_directory_stopped. reflexivity.
  - apply IH. intros e He. apply Hall. right. exact He.
Qed.

Lemma X3_witness :
  _parse_nonrecusive demo_world default_class "/music/A"
  =m= _parse_nonrecusive
        {| cwd := cwd demo_world; root := root demo_world;
           requests_get := fun _ => Raise (Exn ConnectionError "offline") |}
        default_class "/music/A".
Proof.
  eapply (X3_offline_folder_ignores_the_network demo_world
            {| cwd := cwd demo_world; root := root demo_world;
               requests_get := fun _ => Raise (Exn ConnectionError "offline") |}
            default_class "/music/A"); try reflexivity.
Defined.

(** ** A folder without sub-folders *)

Lemma flat_map_no_dirs top children :
  forallb (fun c => negb (node_is_dir (snd c))) children = true ->
  flat_map (fun c => walk_node (OsPath.join top (fst c)) (snd c)) children = [].
Proof.
  induction children as [| c l IH]; [reflexivity |].
  simpl. intros H. apply andb_prop in H. destruct H as [Hc Hl].
  rewrite (IH Hl). destruct (snd c); try reflexivity. discriminate.
Qed.

(** X4: on a directory that may be listed and has no sub-directory the
    recursive mode does what the non-recursive mode does: same playlist or
    exception, same log.  On a directory that may not be listed the two
    differ: the recursive mode returns the empty list, the non-recursive
    mode raises [PermissionError]. *)
Theorem X4_recursive_equals_flat_on_leaf_folder (w : World) (cls : ClassState)
        (p : string) :
  (forall children,
      resolve w p = Ok (Dir children) ->
      forallb (fun c => negb (node_is_dir (snd c))) children = true ->
      (exists entries, scandir w p = Ok entries)
      /\ _parse_recursive w cls p =m= _parse_nonrecusive w cls p)
  /\ (resolve w p = Ok Denied ->
      forall log,
        _parse_recursive w cls p log = (Ok [], log)
        /\ _parse_nonrecusive w cls p log = (Raise (eacces p), log)).
Proof.
  split.
  - intros children Hr Hc. split.
    + unfold scandir. rewrite Hr. eexists. reflexivity.
    + intros log. unfold _parse_recursive, os_walk. rewrite Hr.
      simpl walk_node. rewrite (flat_map_no_dirs p children Hc).
      simpl. unfold bind, ret.
      destruct (_parse_nonrecusive w cls p log) as [[pl | e] lg]; reflexivity.
  - intros Hr log. split.
    + unfold _parse_recursive, os_walk. rewrite Hr. reflexivity.
    + unfold _parse_nonrecusive, scandir, bind, lift. rewrite Hr. reflexivity.
Qed.

Lemma X4_witness :
  _parse_recursive demo_world default_class "/music/B" []
  = _parse_nonrecusive demo_world default_class "/music/B" []
  /\ _parse_recursive locked_world default_class "/lib/L" [] = (Ok [], [])
  /\ _parse_nonrecusive locked_world default_class "/lib/L" []
     = (Raise (eacces "/lib/L"), []).
Proof.
  destruct (X4_recursive_equals_flat_on_leaf_folder demo_world default_class "/music/B")
    as [H1 _].
  destruct (X4_recursive_equals_flat_on_leaf_folder locked_world default_class "/lib/L")
    as [_ H2].
  split; [| exact (H2 eq_refl [])].
  destruct (H1 [("1.mp3", mp3);
                ("2-livestream.txt",
                 File (Ok ("# radio" ++ LF ++ " http://s/1 " ++ LF ++ LF ++ "http://s/2")));
                ("3-podcast.txt", File (Ok ("http://feed/down" ++ LF ++ "http://feed/ok")));
                ("4.mp3", mp3)] eq_refl eq_refl) as [_ H].
  apply H.
Defined.

(** ** Plain folders, in general *)

Lemma parse_of_ok (w : World) (cls : ClassState) (self : PlaylistCollector) (rel : string)
      (recursive : bool) (log : list log_record) (pl : list string)
      (log' : list log_record) :
  (if recursive then _parse_recursive w cls else _parse_nonrecusive w cls)
    (OsPath.abspath (cwd w) (OsPath.join (_music_library_base_path self) rel)) log
  = (Ok pl, log') ->
  parse w cls self rel recursive log
  = (Ok {| playlist := pl;
           _music_library_base_path := _music_library_base_path self;
           _folder := OsPath.abspath (cwd w)
                        (OsPath.join (_music_library_base_path self) rel);
           _recursive := recursive |}, log').
Proof.
  intros H. unfold parse, try_except, bind. simpl _folder. rewrite H. reflexivity.
Qed.

Lemma parse_nonrecusive_listing w cls p entries log :
  scandir w p = Ok entries ->
  _parse_nonrecusive w cls p log = process_listing w cls entries p log.
Proof. intros H. unfold _parse_nonrecusive, bind, lift. rewrite H. reflexivity. Qed.

(** X5: when every valid entry of the folder is a plain media file, the
    non-recursive [parse] returns without logging; the playlist has one
    entry per valid entry: the entries in case-insensitive order of their
    names (a permutation of the valid entries, neighbours in order), each
    joined to the absolute path of the folder and normalised. *)
Theorem X5_plain_folder_playlist (w : World) (cls : ClassState) (self : PlaylistCollector)
        (rel : string) (log : list log_record) (entries : list DirEntry.t) :
  scandir w (OsPath.abspath (cwd w) (OsPath.join (_music_library_base_path self) rel))
  = Ok entries ->
  forallb is_plain (filter (_is_valid cls) entries) = true ->
  let folder := OsPath.abspath (cwd w) (OsPath.join (_music_library_base_path self) rel) in
  let directory := Py.sorted folded_name (filter (_is_valid cls) entries) in
  parse w cls self rel false log
  = (Ok {| playlist := map (fun e => OsPath.normpath (OsPath.join folder (DirEntry.name e)))
                           directory;
           _music_library_base_path := _music_library_base_path self;
           _folder := folder;
           _recursive := false |}, log)
  /\ Permutation directory (filter (_is_valid cls) entries)
  /\ Sorted (fun a b => String.leb (folded_name a) (folded_name b) = true) directory.
Proof.
  intros Hs Hp folder directory. split; [| split].
  - apply parse_of_ok. rewrite (parse_nonrecusive_listing w cls _ entries log Hs).
    apply plain_folder_listing. exact Hp.
  - apply sorted_perm.
  - apply (sorted_sorted DirEntry.t folded_name).
Qed.

Lemma X5_witness :
  parse demo_world default_class demo_collector "A" false []
  = (Ok {| playlist := ["/music/A/a.mp3"; "/music/A/b.mp3"; "/music/A/C.mp3"];
           _music_library_base_path := "/music";
           _folder := "/music/A";
           _recursive := false |}, []).
Proof.
  destruct (X5_plain_folder_playlist demo_world default_class demo_collector "A" []
              [entry "b.mp3" "/music/A"; entry "a.mp3" "/music/A"; entry "C.mp3" "/music/A";
               entry ".hidden" "/music/A"; entry "cover.jpg" "/music/A";
               {| DirEntry.name := "sub"; DirEntry.path := "/music/A/sub";
                  DirEntry.is_file := false |}])
    as [H _]; [reflexivity | reflexivity |].
  exact H.
Defined.

(** ** Entries are absolute paths *)

Lemma startswith_slash p :
  Py.startswith p "/" = true -> exists p', p = String "/" p'.
Proof.
  destruct p as [| c p']; [discriminate |].
  change (Py.startswith (String c p') "/") with (Ascii.eqb "/" c && true).
  rewrite andb_true_r. intros H. apply Ascii.eqb_eq in H. subst c. eauto.
Qed.

Lemma normpath_absolute p :
  Py.startswith p "/" = true -> Py.startswith (OsPath.normpath p) "/" = true.
Proof.
  intros H. destruct (startswith_slash p H) as [p' ->]. unfold OsPath.normpath.
  change (String.eqb (String "/" p') "") with false. cbv iota.
  rewrite H. cbv zeta.
  destruct (Py.startswith (String "/" p') "//" && negb (Py.startswith (String "/" p') "///"));
    reflexivity.
Qed.

Lemma join_absolute a b :
  Py.startswith a "/" = true -> Py.startswith (OsPath.join a b) "/" = true.
Proof.
  intros H. unfold OsPath.join. destruct (Py.startswith b OsPath.sep) eqn:Eb; [exact Eb |].
  destruct (startswith_slash a H) as [a' ->].
  destruct (String.eqb (String "/" a') "" || Py.endswith (String "/" a') OsPath.sep);
    reflexivity.
Qed.

Lemma abspath_absolute cwd p :
  Py.startswith cwd "/" = true -> Py.startswith (OsPath.abspath cwd p) "/" = true.
Proof.
  intros H. unfold OsPath.abspath, OsPath.isabs. apply normpath_absolute.
  destruct (Py.startswith p OsPath.sep) eqn:E; [exact E | apply join_absolute, H].
Qed.

(** X6: with an absolute working directory, the folder [parse] scans is
    an absolute path whatever base and folder were given, and every entry
    the default handler adds for a file of that folder is an absolute
    path too: it is never relative to the music library. *)
Theorem X6_default_entries_are_absolute (w : World) (cls : ClassState)
        (self : PlaylistCollector) (rel : string) (recursive : bool)
        (f : DirEntry.t) (pl : list string) (log : list log_record) :
  Py.startswith (cwd w) "/" = true ->
  let folder := OsPath.abspath (cwd w) (OsPath.join (_music_library_base_path self) rel) in
  Py.startswith folder "/" = true
  /\ (forall self' log', parse w cls self rel recursive log = (Ok self', log') ->
                         _folder self' = folder)
  /\ exists e, decode_musicfile f folder pl log = (Ok (pl ++ [e])%list, log)
               /\ Py.startswith e "/" = true.
Proof.
  intros Hc folder.
  assert (Hf : Py.startswith folder "/" = true) by (apply abspath_absolute, Hc).
  split; [exact Hf |]. split.
  - intros self' log'. unfold parse, try_except, bind. simpl _folder. fold folder.
    destruct ((if recursive then _parse_recursive w cls else _parse_nonrecusive w cls)
                folder log) as [[pl' | e] lg].
    + intros H. inversion H. reflexivity.
    + destruct (exn_cls e); intros H; inversion H; reflexivity.
  - eexists. split; [reflexivity |]. apply normpath_absolute, join_absolute, Hf.
Qed.

Lemma X6_witness :
  Py.startswith "/music/A" "/" = true
  /\ exists e, decode_musicfile (entry "a.mp3" "/music/A") "/music/A" [] []
               = (Ok ([] ++ [e])%list, [])
               /\ Py.startswith e "/" = true.
Proof.
  destruct (X6_default_entries_are_absolute demo_world default_class demo_collector "A"
              false (entry "a.mp3" "/music/A") [] [] eq_refl) as [H1 [_ H3]].
  split; [exact H1 | exact H3].
Defined.

(** ** The podcast list *)

(** X7: a podcast list that can be read, none of whose feeds answers with
    a body that fails to decode, adds to the playlist the enclosures of
    its feeds, feed after feed in the order of the lines of the file; a
    feed that cannot be fetched adds nothing. *)
Theorem X7_podcast_list_appends_enclosures_in_line_order (w : World) (f : pathlike)
        (p : string) (pl : list string) (log : list log_record) (text : string) :
  open_read w (fspath f) = Ok text ->
  forallb (fetch_decodes w) (entry_lines text) = true ->
  fst (decode_podcast w f p pl log)
  = Ok (pl ++ flat_map (enclosures_of w) (entry_lines text))%list.
Proof.
  intros Ho Hf. unfold decode_podcast, bind, logger_debug, lift. rewrite Ho.
  rewrite decode_podcast_lines. apply decode_podcast_lines_fst. exact Hf.
Qed.

Lemma X7_witness :
  fst (decode_podcast demo_world (PEntry (entry "3-podcast.txt" "/music/B")) "/music/B"
         ["x"] [])
  = Ok (["x"] ++ flat_map (enclosures_of demo_world) ["http://feed/down"; "http://feed/ok"])%list.
Proof.
  apply (X7_podcast_list_appends_enclosures_in_line_order demo_world
           (PEntry (entry "3-podcast.txt" "/music/B")) "/music/B" ["x"] []
           ("http://feed/down" ++ LF ++ "http://feed/ok")); reflexivity.
Defined.

(** X8: a fetched answer whose body cannot be decoded is not absorbed the
    way a failed GET is: the fetcher raises the decoding error, and the
    loop over the lines of a podcast list raises with it. *)
Theorem X8_undecodable_body_raises (w : World) (url : string) (pl : list string)
        (log : list log_record) (r : Response) (e : exn) :
  requests_get w url = Ok r ->
  decoded r = Raise e ->
  fst (decode_podcast_core w url pl log) = Raise e
  /\ forall line rest,
      Py.strip line = url -> is_entry_line url = true ->
      fst (for_each (decode_podcast_line w) (line :: rest) pl log) = Raise e.
Proof.
  intros Hr Hd.
  assert (Hc : fst (decode_podcast_core w url pl log) = Raise e).
  { unfold decode_podcast_core. rewrite Hr. unfold bind, lift, logger_error, ret.
    destruct (negb (Z.eqb (status_code r) 200)); simpl; rewrite Hd; reflexivity. }
  split; [exact Hc |].
  intros line rest Hs Hl. simpl. unfold decode_podcast_line at 1. rewrite Hs, Hl.
  unfold bind. destruct (decode_podcast_core w url pl log) as [[pl1 | e1] lg];
    simpl in Hc; [discriminate | inversion Hc; reflexivity].
Qed.

Lemma X8_witness :
  fst (decode_podcast_core
         {| cwd := "/"; root := Dir [];
            requests_get := fun _ =>
              Ok {| status_code := 200;
                    decoded := Raise (Exn UnicodeDecodeError "invalid start byte") |} |}
         "http://feed/latin1" ["x"] [])
  = Raise (Exn UnicodeDecodeError "invalid start byte").
Proof.
  apply (X8_undecodable_body_raises
           {| cwd := "/"; root := Dir [];
              requests_get := fun _ =>
                Ok {| status_code := 200;
                      decoded := Raise (Exn UnicodeDecodeError "invalid start byte") |} |}
           "http://feed/latin1" ["x"] []
           {| status_code := 200;
              decoded := Raise (Exn UnicodeDecodeError "invalid start byte") |}
           (Exn UnicodeDecodeError "invalid start byte")); reflexivity.
Defined.

(** ** The folder playlist *)

Lemma m3u_entries_plain w p xs :
  forallb (fun l => negb (is_feed_line l)) xs = true ->
  forall acc log,
    for_each (m3u_entry w p) xs acc log
    = (Ok (acc ++ map (m3u_plain_entry p) xs)%list, log).
Proof.
  induction xs as [| x xs IH]; intros H acc log.
  - simpl. rewrite app_nil_r. reflexivity.
  - simpl in H. apply andb_prop in H. destruct H as [Hx Hxs].
    apply negb_true_iff in Hx. unfold is_feed_line in Hx.
    simpl. unfold m3u_entry at 1. rewrite Hx.
    unfold m3u_plain_entry at 1.
    destruct (Py.startswith x "http://" || Py.startswith x "https://"
              || Py.startswith x "ftp://");
      rewrite bind_ret_l, (IH Hxs), <- app_assoc; reflexivity.
Qed.

(** X9: a folder playlist that can be read and has no line ending in
    [.xml] or [.podcast] yields, whatever had been collected, exactly one
    entry per line that counts, in file order: the line itself when it
    starts with [http://], [https://] or [ftp://], else the line joined to
    the folder path and normalised; it logs one debug record. *)
Theorem X9_m3u_without_feeds (w : World) (f : DirEntry.t) (p : string)
        (acc : list string) (log : list log_record) (text : string) :
  open_read w (DirEntry.path f) = Ok text ->
  forallb (fun l => negb (is_feed_line l)) (entry_lines text) = true ->
  decode_m3u w f p acc log
  = (Ok (map (m3u_plain_entry p) (entry_lines text)),
     (log ++ [(DEBUG, m3u_debug_text f)])%list).
Proof.
  intros Ho Hf. unfold decode_m3u, bind, logger_debug, lift. rewrite Ho.
  rewrite decode_m3u_lines. apply (m3u_entries_plain w p _ Hf []).
Qed.

Lemma X9_witness :
  decode_m3u demo_world (entry "p.M3U" "/music/M") "/music/M" ["/music/M/a.mp3"] []
  = (Ok ["/music/M/c.mp3"; "http://u/v"],
     [(DEBUG, "Decode M3U '/music/M/p.M3U'. Replacing current (sub-)folder playlist")]).
Proof.
  apply (X9_m3u_without_feeds demo_world (entry "p.M3U" "/music/M") "/music/M"
           ["/music/M/a.mp3"] [] ("c.mp3" ++ LF ++ "#x" ++ LF ++ "http://u/v"));
    reflexivity.
Defined.

(** X10: a line of a folder playlist that ends in [.xml] or [.podcast] is
    not fetched: it is opened as a file, and when no such file can be
    opened the handler raises what [open] raised, after one debug record;
    the list collected so far is lost with it. *)
Theorem X10_m3u_feed_line_is_opened_as_a_file (w : World) (p : string) (line : string)
        (pl : list string) (log : list log_record) (e : exn) :
  is_entry_line (Py.strip line) = true ->
  is_feed_line (Py.strip line) = true ->
  open_read w (Py.strip line) = Raise e ->
  decode_m3u_line w p line pl log
  = (Raise e, (log ++ [(DEBUG, podcast_debug_text (PStr (Py.strip line)))])%list).
Proof.
  intros Hl Hf Ho. unfold decode_m3u_line. rewrite Hl.
  unfold is_feed_line in Hf. rewrite Hf.
  unfold decode_podcast, bind, logger_debug, lift. simpl fspath. rewrite Ho. reflexivity.
Qed.

Lemma X10_witness :
  decode_m3u_line demo_world "/music/X" "http://feed/ok.xml" ["x"] []
  = (Raise (enoent "http://feed/ok.xml"),
     [(DEBUG, "Decode podcast: 'http://feed/ok.xml'")]).
Proof.
  apply (X10_m3u_feed_line_is_opened_as_a_file demo_world "/music/X" "http://feed/ok.xml"
           ["x"] [] (enoent "http://feed/ok.xml")); reflexivity.
Defined.

(** ** One line of feed, one enclosure *)

Section GreedyStar.
Variable R : Type.
Variable ic : bool.

Lemma star_loop_S (step : string -> Re.captures -> (string -> Re.captures -> option R) -> option R)
      (k : string -> Re.captures -> option R) fuel s caps :
  Re.star_loop step k (S fuel) s caps
  = match step s caps
            (fun s' caps' =>
               if (String.length s' <? String.length s)%nat
               then Re.star_loop step k fuel s' caps' else None) with
    | Some x => Some x
    | None => k s caps
    end.
Proof. reflexivity. Qed.

Lemma star_any_step (k : string -> Re.captures -> option R) fuel c s1 caps :
  Ascii.eqb c Py.nl = false ->
  Re.star_loop (Re.rmatch ic Re.Any) k (S fuel) (String c s1) caps
  = match Re.star_loop (Re.rmatch ic Re.Any) k fuel s1 caps with
    | Some x => Some x
    | None => k (String c s1) caps
    end.
Proof.
  intros Hc. rewrite star_loop_S.
  change (Re.rmatch ic Re.Any (String c s1) caps
            (fun s' caps' =>
               if (String.length s' <? String.length (String c s1))%nat
               then Re.star_loop (Re.rmatch ic Re.Any) k fuel s' caps' else None))
    with (if Ascii.eqb c Py.nl then None
          else if (String.length s1 <? String.length (String c s1))%nat
               then Re.star_loop (Re.rmatch ic Re.Any) k fuel s1 caps else None).
  rewrite Hc.
  assert (Hlt : (String.length s1 <? String.length (String c s1))%nat = true)
    by (apply Nat.ltb_lt; simpl; lia).
  rewrite Hlt. reflexivity.
Qed.

Lemma star_any_stop (k : string -> Re.captures -> option R) fuel s caps :
  match s with String c _ => Ascii.eqb c Py.nl = true | "" => True end ->
  Re.star_loop (Re.rmatch ic Re.Any) k fuel s caps = k s caps.
Proof.
  intros H. destruct fuel as [| fuel]; [reflexivity |]. rewrite star_loop_S.
  destruct s as [| c s1]; [reflexivity |].
  change (Re.rmatch ic Re.Any (String c s1) caps
            (fun s' caps' =>
               if (String.length s' <? String.length (String c s1))%nat
               then Re.star_loop (Re.rmatch ic Re.Any) k fuel s' caps' else None))
    with (if Ascii.eqb c Py.nl then None
          else if (String.length s1 <? String.length (String c s1))%nat
               then Re.star_loop (Re.rmatch ic Re.Any) k fuel s1 caps else None).
  rewrite H. reflexivity.
Qed.

Lemma star_any_loop_complete (k : string -> Re.captures -> option R) a :
  forall t caps fuel,
    no_nl a = true -> String.length (a ++ t) <= fuel -> k t caps <> None ->
    Re.star_loop (Re.rmatch ic Re.Any) k fuel (a ++ t) caps <> None.
Proof.
  induction a as [| c a IH]; intros t caps fuel Ha Hlen Hk.
  - simpl "++". destruct fuel as [| fuel]; [exact Hk |]. rewrite star_loop_S.
    destruct (Re.rmatch ic Re.Any t caps _); [discriminate | exact Hk].
  - simpl in Ha. apply andb_prop in Ha. destruct Ha as [Hc Ha].
    apply negb_true_iff in Hc.
    change (String c a ++ t) with (String c (a ++ t)) in *.
    destruct fuel as [| fuel]; [simpl in Hlen; lia |].
    rewrite (star_any_step k fuel c (a ++ t) caps Hc).
    assert (H : Re.star_loop (Re.rmatch ic Re.Any) k fuel (a ++ t) caps <> None).
    { apply IH; [exact Ha | simpl in Hlen; lia | exact Hk]. }
    destruct (Re.star_loop (Re.rmatch ic Re.Any) k fuel (a ++ t) caps);
      [discriminate | contradiction].
Qed.

(** [.*] hands over at the longest prefix without newline after which the
    rest succeeds. *)
Lemma star_any_greedy (k : string -> Re.captures -> option R) fuel :
  forall s caps x,
    String.length s <= fuel ->
    Re.star_loop (Re.rmatch ic Re.Any) k fuel s caps = Some x ->
    exists a t,
      s = a ++ t /\ no_nl a = true /\ k t caps = Some x
      /\ forall a' t', s = a' ++ t' -> no_nl a' = true ->
                       String.length a < String.length a' -> k t' caps = None.
Proof.
  induction fuel as [| fuel IH]; intros s caps x Hlen H.
  - apply Nat.le_0_r, length_zero in Hlen. subst s. simpl in H.
    exists "", "". repeat split; [exact H |].
    intros a' t' Hs _ Hl. destruct a'; [simpl in Hl; lia | discriminate].
  - destruct s as [| c s1].
    + rewrite (star_any_stop k (S fuel) "" caps I) in H.
      exists "", "". repeat split; [exact H |].
      intros a' t' Hs _ Hl. destruct a'; [simpl in Hl; lia | discriminate].
    + destruct (Ascii.eqb c Py.nl) eqn:Hc.
      * rewrite (star_any_stop k (S fuel) (String c s1) caps Hc) in H.
        exists "", (String c s1). repeat split; [exact H |].
        intros a' t' Hs Hn Hl. destruct a' as [| c' a'']; [simpl in Hl; lia |].
        inversion Hs; subst. simpl in Hn. rewrite Hc in Hn. discriminate.
      * rewrite (star_any_step k fuel c s1 caps Hc) in H.
        destruct (Re.star_loop (Re.rmatch ic Re.Any) k fuel s1 caps) as [y |] eqn:E.
        -- inversion H; subst y.
           destruct (IH s1 caps x ltac:(simpl in Hlen; lia) E)
             as [a1 [t [Hs [Ha [Hk Hmax]]]]].
           exists (String c a1), t. split; [simpl; rewrite Hs; reflexivity |].
           split; [simpl; rewrite Hc; exact Ha |]. split; [exact Hk |].
           intros a' t' Hs' Hn Hl. destruct a' as [| c' a'']; [simpl in Hl; lia |].
           inversion Hs'; subst. simpl in Hn. apply andb_prop in Hn.
           apply (Hmax a'' t' H2 (proj2 Hn)). simpl in Hl. lia.
        -- exists "", (String c s1). repeat split; [exact H |].
           intros a' t' Hs Hn Hl. destruct a' as [| c' a'']; [simpl in Hl; lia |].
           inversion Hs; subst. simpl in Hn. apply andb_prop in Hn.
           destruct (k t' caps) eqn:Ek; [| reflexivity]. exfalso.
           apply (star_any_loop_complete k a'' t' caps fuel (proj2 Hn));
             [simpl in Hlen; lia | congruence | exact E].
Qed.

(** What a successful run returns is what the continuation returned at
    the end of some match. *)
Lemma rmatch_result r :
  forall (k : string -> Re.captures -> option R) s caps x,
    Re.rmatch ic r s caps k = Some x ->
    exists u t caps', s = u ++ t /\ matching ic r u t /\ k t caps' = Some x.
Proof.
  induction r as [| c | | neg items | a IHa b IHb | a IHa b IHb | a IHa | n a IHa |];
    intros k s caps x H.
  - exists "", s, caps. repeat split; [constructor | exact H].
  - simpl in H. destruct s as [| y s']; [discriminate |].
    destruct (Re.chr_eq ic c y) eqn:E; [| discriminate].
    exists (String y ""), s', caps. repeat split; [constructor; exact E | exact H].
  - simpl in H. destruct s as [| y s']; [discriminate |].
    destruct (Ascii.eqb y Py.nl) eqn:E; [discriminate |].
    exists (String y ""), s', caps. repeat split; [constructor; exact E | exact H].
  - simpl in H. destruct s as [| y s']; [discriminate |].
    destruct (xorb neg (Re.in_set ic items y)) eqn:E; [| discriminate].
    exists (String y ""), s', caps. repeat split; [constructor; exact E | exact H].
  - change (Re.rmatch ic (Re.Seq a b) s caps k)
      with (Re.rmatch ic a s caps (fun s' caps' => Re.rmatch ic b s' caps' k)) in H.
    apply IHa in H. destruct H as [u1 [t1 [caps1 [Hs [Hm1 H]]]]].
    apply IHb in H. destruct H as [u2 [t [caps2 [Ht [Hm2 Hk]]]]]. subst.
    exists (u1 ++ u2), t, caps2. split; [symmetry; apply append_assoc |].
    split; [constructor; assumption | exact Hk].
  - simpl in H. destruct (Re.rmatch ic a s caps k) as [y |] eqn:E.
    + inversion H; subst y. apply IHa in E. destruct E as [u [t [caps' [Hs [Hm Hk]]]]].
      exists u, t, caps'. split; [exact Hs |]. split; [apply m_alt_l, Hm | exact Hk].
    + apply IHb in H. destruct H as [u [t [caps' [Hs [Hm Hk]]]]].
      exists u, t, caps'. split; [exact Hs |]. split; [apply m_alt_r, Hm | exact Hk].
  - change (Re.rmatch ic (Re.Star a) s caps k)
      with (Re.star_loop (Re.rmatch ic a) k (String.length s) s caps) in H.
    remember (String.length s) as fuel eqn:Ef. clear Ef. revert s caps H.
    induction fuel as [| fuel IHf]; intros s caps H.
    + exists "", s, caps. repeat split; [constructor | exact H].
    + rewrite star_loop_S in H.
      destruct (Re.rmatch ic a s caps _) as [y |] eqn:E.
      * inversion H; subst y. apply IHa in E.
        destruct E as [u1 [t1 [caps1 [Hs [Hm1 Hk1]]]]].
        destruct (Nat.ltb_spec (String.length t1) (String.length s)) as [Hlt | _];
          [| discriminate].
        apply IHf in Hk1. destruct Hk1 as [u2 [t [caps2 [Ht [Hm2 Hk]]]]]. subst.
        exists (u1 ++ u2), t, caps2. split; [symmetry; apply append_assoc |].
        split; [| exact Hk]. apply m_star_s; [exact Hm1 | | exact Hm2].
        intros ->. simpl in Hlt. lia.
      * exists "", s, caps. repeat split; [constructor | exact H].
  - change (Re.rmatch ic (Re.Group n a) s caps k)
      with (Re.rmatch ic a s caps
              (fun s' caps' => k s' ((n, Re.consumed s s') :: caps'))) in H.
    apply IHa in H. destruct H as [u [t [caps' [Hs [Hm Hk]]]]].
    exists u, t, ((n, Re.consumed s t) :: caps'). split; [exact Hs |].
    split; [constructor; exact Hm | exact Hk].
  - simpl in H.
    destruct (String.eqb s "" || String.eqb s (String Py.nl "")) eqn:E; [| discriminate].
    exists "", s, caps. split; [reflexivity |]. split; [| exact H].
    constructor. apply orb_true_iff in E.
    destruct E as [E | E]; apply String.eqb_eq in E; auto.
Qed.

End GreedyStar.

Lemma no_nl_app a b : no_nl (a ++ b) = no_nl a && no_nl b.
Proof.
  induction a as [| c a IH]; [reflexivity |]. simpl. rewrite IH, andb_assoc. reflexivity.
Qed.

Lemma enclosure_run (kf : string -> Re.captures -> option (string * Re.captures)) s :
  Re.rmatch false (Re.ast enclosure_re) s [] kf
  = Re.star_loop (Re.rmatch false Re.Any)
      (fun s1 c1 => Re.rmatch false enclosure_rest s1 c1 kf) (String.length s) s [].
Proof. reflexivity. Qed.

Lemma enclosure_ast : Re.ast enclosure_re = Re.Seq (Re.Star Re.Any) enclosure_rest.
Proof. reflexivity. Qed.

Lemma enclosure_rest_nonempty u t : matching false enclosure_rest u t -> u <> "".
Proof.
  unfold enclosure_rest. intros H.
  inversion H as [| | | | a b u1 u2 t' H1 H2 | | | | | |]; subst.
  inversion H1; subst. discriminate.
Qed.

Lemma k_all_blind : caps_blind k_all.
Proof. intros s c1 c2. discriminate. Qed.

Lemma k_advance_blind s : caps_blind (k_advance s).
Proof.
  intros s' c1 c2. unfold k_advance.
  destruct (String.length s' <? String.length s)%nat; [discriminate | reflexivity].
Qed.

(** After a match of [enclosure_re] in a subject without newline there is
    no further match: the leading [.*] has gone as far right as a match
    allows. *)
Lemma enclosure_match_is_last
      (kf : string -> Re.captures -> option (string * Re.captures)) s s' caps' :
  caps_blind kf ->
  (forall t2 caps2 y, kf t2 caps2 = Some y -> fst y = t2) ->
  (forall r0 caps, String.length r0 < String.length s -> kf r0 caps <> None) ->
  no_nl s = true ->
  Re.rmatch false (Re.ast enclosure_re) s [] kf = Some (s', caps') ->
  forall v, suffix_of v s' ->
            Re.match_at enclosure_re v = None /\ Re.match_nonempty_at enclosure_re v = None.
Proof.
  intros Hblind Hfst Hadv Hnl Hrun v [w Hv].
  rewrite enclosure_run in Hrun.
  destruct (star_any_greedy _ false _ (String.length s) s [] (s', caps')
              (Nat.le_refl _) Hrun) as [a [t [Hs [Ha [Hk Hmax]]]]].
  destruct (rmatch_result _ false enclosure_rest kf t [] (s', caps') Hk)
    as [u [t2 [caps2 [Ht [Hm Hkf]]]]].
  apply Hfst in Hkf. simpl in Hkf. subst t2.
  pose proof (enclosure_rest_nonempty u s' Hm) as Hu.
  assert (Hno : forall (k : string -> Re.captures -> option (string * Re.captures)),
             Re.rmatch false (Re.ast enclosure_re) v [] k = None).
  { intros k. destruct (Re.rmatch false (Re.ast enclosure_re) v [] k) as [y |] eqn:E;
      [| reflexivity].
    exfalso.
    destruct (rmatch_result _ false (Re.ast enclosure_re) k v [] y E)
      as [u0 [r0 [caps0 [Hv0 [Hm0 _]]]]].
    rewrite enclosure_ast in Hm0.
    inversion Hm0 as [| | | | ra rb b c r0' Hb Hc | | | | | |]; subst.
    apply star_any_matching in Hb.
    pose proof (enclosure_rest_nonempty c r0 Hc) as Hcne.
    assert (Hsplit : a ++ u ++ w ++ (b ++ c) ++ r0 = (a ++ u ++ w ++ b) ++ c ++ r0)
      by (rewrite !append_assoc; reflexivity).
    assert (Hnl' : no_nl (a ++ u ++ w ++ b) = true).
    { rewrite Hsplit in Hnl. rewrite no_nl_app in Hnl.
      apply andb_prop in Hnl. exact (proj1 Hnl). }
    assert (Hlen : String.length a < String.length (a ++ u ++ w ++ b)).
    { rewrite !length_append. destruct u; [congruence | simpl; lia]. }
    pose proof (Hmax (a ++ u ++ w ++ b) (c ++ r0) Hsplit Hnl' Hlen) as Hnone.
    assert (Hsome : Re.rmatch false enclosure_rest (c ++ r0) [] kf <> None).
    { apply (rmatch_finds _ false enclosure_rest kf Hblind).
      exists c, r0, []. split; [reflexivity |]. split; [exact Hc |].
      apply Hadv. rewrite Hsplit, !length_append.
      destruct c; [congruence | simpl; lia]. }
    contradiction. }
  split; apply Hno.
Qed.

Lemma findall_from_S fuel p s b :
  Re.findall_from (S fuel) p s b
  = match (if b then Re.match_nonempty_at p s else Re.match_at p s) with
    | Some (s', caps) =>
        Re.group1 caps
          :: Re.findall_from fuel p s' (Nat.eqb (String.length s') (String.length s))
    | None =>
        match s with
        | "" => []
        | String _ t => Re.findall_from fuel p t false
        end
    end.
Proof. reflexivity. Qed.

Lemma findall_dead p fuel :
  forall s b,
    (forall v, suffix_of v s ->
               Re.match_at p v = None /\ Re.match_nonempty_at p v = None) ->
    Re.findall_from fuel p s b = [].
Proof.
  induction fuel as [| fuel IH]; intros s b H; [reflexivity |].
  rewrite findall_from_S.
  destruct (H s (ex_intro _ "" eq_refl)) as [H1 H2].
  assert (E : (if b then Re.match_nonempty_at p s else Re.match_at p s) = None)
    by (destruct b; assumption).
  rewrite E. destruct s as [| c t]; [reflexivity |].
  apply IH. intros v [w Hv]. apply H. exists (String c w). rewrite Hv. reflexivity.
Qed.

Lemma findall_single_line fuel :
  forall s b, no_nl s = true ->
              List.length (Re.findall_from fuel enclosure_re s b) <= 1.
Proof.
  induction fuel as [| fuel IH]; intros s b Hnl; [simpl; lia |].
  rewrite findall_from_S.
  destruct (if b then Re.match_nonempty_at enclosure_re s else Re.match_at enclosure_re s)
    as [[s' caps] |] eqn:E.
  - assert (Hdead : forall v, suffix_of v s' ->
              Re.match_at enclosure_re v = None
              /\ Re.match_nonempty_at enclosure_re v = None).
    { destruct b.
      - apply (enclosure_match_is_last (k_advance s) s s' caps (k_advance_blind s));
          [| | exact Hnl | exact E].
        + intros t2 caps2 y. unfold k_advance.
          destruct (String.length t2 <? String.length s)%nat; [| discriminate].
          intros Hy. inversion Hy. reflexivity.
        + intros r0 caps0 Hlt. unfold k_advance.
          apply Nat.ltb_lt in Hlt. rewrite Hlt. discriminate.
      - apply (enclosure_match_is_last k_all s s' caps k_all_blind);
          [| | exact Hnl | exact E].
        + intros t2 caps2 y Hy. inversion Hy. reflexivity.
        + intros r0 caps0 _. discriminate. }
    rewrite (findall_dead enclosure_re fuel s' _ Hdead). simpl. lia.
  - destruct s as [| c t]; [simpl; lia |].
    apply IH. simpl in Hnl. apply andb_prop in Hnl. exact (proj2 Hnl).
Qed.

(** X11: from a feed body without line break the fetcher takes one
    enclosure at most, however many the body holds: the leading [.*] of
    [enclosure_re] runs to the last of them. *)
Theorem X11_single_line_body_yields_at_most_one_entry (w : World) (url : string)
        (pl : list string) (log : list log_record) (r : Response) (body : string) :
  no_nl body = true ->
  List.length (Re.findall enclosure_re body) <= 1
  /\ (requests_get w url = Ok r -> decoded r = Ok body ->
      exists added, fst (decode_podcast_core w url pl log) = Ok (pl ++ added)%list
                    /\ List.length added <= 1).
Proof.
  intros Hnl.
  assert (H : List.length (Re.findall enclosure_re body) <= 1)
    by (apply findall_single_line, Hnl).
  split; [exact H |]. intros Hr Hd.
  exists (Re.findall enclosure_re body). split; [| exact H].
  rewrite (decode_podcast_core_ok w url pl log r body Hr Hd). reflexivity.
Qed.

Lemma X11_witness :
  List.length (Re.findall enclosure_re feed_one_line) <= 1
  /\ exists added,
      fst (decode_podcast_core demo_world "http://feed/oneline" ["x"] [])
      = Ok (["x"] ++ added)%list
      /\ List.length added <= 1.
Proof.
  destruct (X11_single_line_body_yields_at_most_one_entry demo_world "http://feed/oneline"
              ["x"] [] {| status_code := 200; decoded := Ok feed_one_line |} feed_one_line
              eq_refl) as [H1 H2].
  split; [exact H1 |]. apply H2; reflexivity.
Defined.

(** ** Endings without special characters *)

Lemma literal_char_tests c :
  is_literal_char c = true ->
  Ascii.eqb c "|" = false /\ Ascii.eqb c "(" = false /\ Ascii.eqb c ")" = false
  /\ Ascii.eqb c "." = false /\ Ascii.eqb c "$" = false /\ Ascii.eqb c "\" = false
  /\ Ascii.eqb c "[" = false /\ Ascii.eqb c "*" = false /\ Ascii.eqb c "+" = false
  /\ Ascii.eqb c "?" = false /\ Ascii.eqb c "^" = false /\ Ascii.eqb c "{" = false
  /\ Py.ascii_char c = true.
Proof.
  unfold is_literal_char, special_chars. intros H.
  apply andb_prop in H. destruct H as [H Ha]. apply negb_true_iff in H.
  cbn [existsb] in H.
  repeat (apply orb_false_elim in H; destruct H as [? H]).
  repeat split; assumption.
Qed.

Lemma parse_atom_literal f c s n :
  is_literal_char c = true ->
  Re.parse_atom (S f) (String c s) n = Some (Re.Chr c, s, n).
Proof.
  intros H. destruct (literal_char_tests c H)
    as [H1 [H2 [H3 [H4 [H5 [H6 [H7 [H8 [H9 [H10 [H11 [H12 H13]]]]]]]]]]]].
  rewrite parse_atom_eq. cbv beta iota. unfold Re.is_repeat.
  rewrite H2, H4, H5, H6, H7, H8, H9, H10, H11, H12, H13. reflexivity.
Qed.

Lemma parse_postfix_literal a s :
  all_literal s = true -> Re.parse_postfix a s = Some (a, s).
Proof.
  unfold Re.parse_postfix. destruct s as [| c s']; [reflexivity |].
  simpl. intros H. apply andb_prop in H. destruct H as [Hc _].
  destruct (literal_char_tests c Hc)
    as [H1 [H2 [H3 [H4 [H5 [H6 [H7 [H8 [H9 [H10 [H11 [H12 _]]]]]]]]]]]].
  unfold Re.is_repeat. rewrite H8, H9, H10, H12. reflexivity.
Qed.

Lemma parse_seq_literal e :
  forall f n, all_literal e = true -> 2 * String.length e + 1 <= f ->
              Re.parse_seq f e n = Some (lit e, "", n).
Proof.
  induction e as [| c e IH]; intros f n He Hf.
  - destruct f as [| f]; [lia | reflexivity].
  - simpl in He. apply andb_prop in He. destruct He as [Hc He].
    change (String.length (String c e)) with (S (String.length e)) in Hf.
    destruct f as [| [| f2]]; try lia.
    rewrite parse_seq_eq. cbv beta iota.
    destruct (literal_char_tests c Hc) as [H1 [_ [H3 _]]]. rewrite H1, H3. cbv iota.
    change (false || false) with false. cbv iota.
    rewrite (parse_atom_literal f2 c e n Hc), (parse_postfix_literal (Re.Chr c) e He).
    rewrite (IH (S f2) n He ltac:(lia)). reflexivity.
Qed.

Lemma literal_compiles e : all_literal e = true -> compiles_to e (lit e).
Proof.
  intros He. exists true. unfold Re.compile.
  replace (3 * String.length e + 3) with (S (3 * String.length e + 2)) by lia.
  rewrite parse_alt_eq.
  rewrite (parse_seq_literal e (3 * String.length e + 2) 0 He ltac:(lia)). reflexivity.
Qed.

Lemma matching_lit e : forall x t, matching true (lit e) x t <-> Py.casefold x = Py.casefold e.
Proof.
  induction e as [| c e IH]; intros x t; simpl; split.
  - intros H. inversion H. reflexivity.
  - intros H. destruct x; [constructor | discriminate].
  - intros H. inversion H as [| | | | a b u1 u2 t' H1 H2 | | | | | |]; subst.
    inversion H1 as [| c' y t'' Hy | | | | | | | | |]; subst.
    apply IH in H2. simpl. rewrite H2.
    unfold Re.chr_eq in Hy. apply Ascii.eqb_eq in Hy. rewrite Hy. reflexivity.
  - intros H. destruct x as [| y x']; [discriminate |]. simpl in H. inversion H.
    change (String y x') with (String y "" ++ x').
    constructor; [| apply IH; assumption].
    constructor. unfold Re.chr_eq. apply Ascii.eqb_eq. congruence.
Qed.

Lemma literals_compile es :
  Forall (fun e => all_literal e = true) es ->
  Forall2 compiles_to (joined_endings es) (map lit (joined_endings es)).
Proof.
  intros H.
  assert (Hj : Forall (fun e => all_literal e = true) (joined_endings es)).
  { destruct es; [repeat constructor | exact H]. }
  induction Hj; simpl; constructor; [apply literal_compiles; assumption | assumption].
Qed.

Lemma casefold_app a b : Py.casefold (a ++ b) = Py.casefold a ++ Py.casefold b.
Proof. induction a as [| c a IH]; simpl; [reflexivity | rewrite IH; reflexivity]. Qed.

Lemma casefold_split s : forall p q,
  Py.casefold s = p ++ q ->
  exists a b, s = a ++ b /\ Py.casefold a = p /\ Py.casefold b = q.
Proof.
  induction s as [| c s IH]; intros p q H.
  - destruct p; [| discriminate]. exists "", "". simpl in H. auto.
  - destruct p as [| d p'].
    + exists "", (String c s). simpl in H. auto.
    + simpl in H. inversion H. destruct (IH p' q H2) as [a [b [-> [Ha Hb]]]].
      exists (String c a), b. simpl. rewrite Ha. auto.
Qed.

Lemma no_nl_not_newline_end a x :
  no_nl (a ++ "." ++ x ++ String Py.nl "") = true -> False.
Proof.
  rewrite !no_nl_app. simpl. rewrite !andb_false_r. discriminate.
Qed.

(** X12: after [set_exclusion_endings] with endings of ASCII characters
    none of which is special, a name of ASCII characters is excluded
    exactly when it is: some text without newline, a dot, a text equal to
    one of the endings up to the case of letters, and then the end or one
    newline.  For a name without newline that is: lowered, the name ends
    in a dot and a lowered ending. *)
Theorem X12_plain_endings_exclude_by_suffix (endings : list string) :
  Forall (fun e => all_literal e = true) endings ->
  exists cs,
    set_exclusion_endings endings = Some cs
    /\ (forall name,
           Py.isascii name = true ->
           (Re.matches (_exclude_re cs) name = true
            <-> exists a x t e,
                name = a ++ "." ++ x ++ t /\ no_nl a = true /\ at_end t
                /\ In e (joined_endings endings) /\ Py.casefold x = Py.casefold e))
    /\ (forall name,
           Py.isascii name = true ->
           no_nl name = true ->
           (Re.matches (_exclude_re cs) name = true
            <-> exists e, In e (joined_endings endings)
                          /\ Py.endswith (Py.casefold name) ("." ++ Py.casefold e) = true)).
Proof.
  intros H.
  destruct (compile_exclusion endings (map lit (joined_endings endings))
              (literals_compile endings H)) as [alts [Hc Hm]].
  exists {| _exclude_endings := endings;
            _exclude_str := exclude_str_of endings;
            _exclude_re := {| Re.ast := exclusion_ast alts; Re.ignorecase := true |} |}.
  assert (Hiff : forall name,
             Re.matches {| Re.ast := exclusion_ast alts; Re.ignorecase := true |} name = true
             <-> exists a x t e,
                 name = a ++ "." ++ x ++ t /\ no_nl a = true /\ at_end t
                 /\ In e (joined_endings endings) /\ Py.casefold x = Py.casefold e).
  { intros name. rewrite matches_iff. simpl. split.
    - intros [u [t [-> Hu]]]. apply exclusion_matching in Hu.
      destruct Hu as [a [x [-> [Ha [Hx Ht]]]]].
      apply Hm in Hx. apply Exists_exists in Hx. destruct Hx as [r [Hr Hx]].
      apply in_map_iff in Hr. destruct Hr as [e [<- He]].
      apply matching_lit in Hx.
      exists a, x, t, e. split; [rewrite append_assoc; reflexivity | auto].
    - intros [a [x [t [e [-> [Ha [Ht [He Hx]]]]]]]].
      exists (a ++ "." ++ x), t. split; [rewrite append_assoc; reflexivity |].
      apply exclusion_matching. exists a, x. repeat split; try assumption.
      apply Hm. apply Exists_exists. exists (lit e).
      split; [apply in_map, He | apply matching_lit, Hx]. }
  split; [unfold set_exclusion_endings; rewrite Hc; reflexivity |].
  split; [intros name _; apply Hiff |].
  intros name _ Hnl. simpl _exclude_re. rewrite Hiff. split.
  - intros [a [x [t [e [-> [Ha [Ht [He Hx]]]]]]]].
    destruct Ht as [-> | ->]; [| exfalso; eapply no_nl_not_newline_end; exact Hnl].
    exists e. split; [exact He |]. apply endswith_app. exists (Py.casefold a).
    rewrite append_nil_r, casefold_app. simpl. rewrite Hx. reflexivity.
  - intros [e [He Hend]]. apply endswith_app in Hend. destruct Hend as [p Hp].
    destruct (casefold_split name p _ Hp) as [a [b [-> [Ha Hb]]]].
    destruct b as [| d x]; [discriminate |]. simpl in Hb. inversion Hb as [[Hd Hx]].
    apply lower_dot in Hd. subst d.
    exists a, x, "", e. split; [rewrite append_nil_r; reflexivity |].
    rewrite no_nl_app in Hnl. apply andb_prop in Hnl.
    split; [exact (proj1 Hnl) |]. split; [left; reflexivity |]. auto.
Qed.

Lemma X12_witness :
  exists cs,
    set_exclusion_endings ["log"; "zip"] = Some cs
    /\ Re.matches (_exclude_re cs) "debug.LOG" = true
    /\ Re.matches (_exclude_re cs) "catalog" = false.
Proof.
  destruct (X12_plain_endings_exclude_by_suffix ["log"; "zip"]) as [cs [Hs [_ Hn]]].
  { repeat constructor. }
  exists cs. split; [exact Hs |]. split.
  - apply (Hn "debug.LOG" eq_refl eq_refl). exists "log". split; [left |]; reflexivity.
  - destruct (Re.matches (_exclude_re cs) "catalog") eqn:E; [| reflexivity].
    apply (Hn "catalog" eq_refl eq_refl) in E. destruct E as [e [[<- | [<- | []]] He]];
      vm_compute in He; discriminate.
Defined.

(** ** The rendering can be read back *)

Lemma has_char_app c a b : has_char c (a ++ b) = has_char c a || has_char c b.
Proof.
  induction a as [| d a IH]; [reflexivity |].
  change (has_char c (String d a ++ b)) with (Ascii.eqb d c || has_char c (a ++ b)).
  change (has_char c (String d a)) with (Ascii.eqb d c || has_char c a).
  rewrite IH, orb_assoc. reflexivity.
Qed.

Lemma digits_no_colon d : has_char ":" (NilEmpty.string_of_uint d) = false.
Proof. induction d; simpl; assumption || reflexivity. Qed.

Lemma digits_no_nl d : no_nl (NilEmpty.string_of_uint d) = true.
Proof. induction d; simpl; assumption || reflexivity. Qed.

Lemma spaces_no_colon n : has_char ":" (spaces n) = false.
Proof. induction n; simpl; assumption || reflexivity. Qed.

Lemma spaces_no_nl n : no_nl (spaces n) = true.
Proof. induction n; simpl; assumption || reflexivity. Qed.

Lemma index_no_colon idx : has_char ":" (format_right 4 (str_of_nat idx)) = false.
Proof.
  unfold format_right, str_of_nat, NilZero.string_of_uint.
  rewrite has_char_app, spaces_no_colon.
  destruct (Nat.to_uint idx); try apply digits_no_colon. reflexivity.
Qed.

Lemma index_no_nl idx : no_nl (format_right 4 (str_of_nat idx)) = true.
Proof.
  unfold format_right, str_of_nat, NilZero.string_of_uint.
  rewrite no_nl_app, spaces_no_nl.
  destruct (Nat.to_uint idx); try apply digits_no_nl. reflexivity.
Qed.

Lemma after_colon_found p e :
  has_char ":" p = false -> after_colon (p ++ ": " ++ e) = Some e.
Proof.
  induction p as [| c p IH]; [reflexivity |].
  change (has_char ":" (String c p)) with (Ascii.eqb c ":" || has_char ":" p).
  intros H. apply orb_false_elim in H. destruct H as [Hc Hp].
  change (String c p ++ ": " ++ e) with (String c (p ++ ": " ++ e)).
  specialize (IH Hp). destruct (p ++ ": " ++ e) as [| d r] eqn:E; [discriminate |].
  change (after_colon (String c (String d r)))
    with (if Ascii.eqb c ":" && Ascii.eqb d " " then Some r else after_colon (String d r)).
  rewrite Hc. exact IH.
Qed.

Lemma split_line a b :
  no_nl a = true -> Py.split Py.nl (a ++ String Py.nl b) = a :: Py.split Py.nl b.
Proof.
  induction a as [| c a IH]; intros H; [reflexivity |].
  simpl in H. apply andb_prop in H. destruct H as [Hc Ha]. apply negb_true_iff in Hc.
  change (String c a ++ String Py.nl b) with (String c (a ++ String Py.nl b)).
  simpl Py.split. rewrite Hc, (IH Ha). reflexivity.
Qed.

Lemma split_no_line a : no_nl a = true -> Py.split Py.nl a = [a].
Proof.
  induction a as [| c a IH]; intros H; [reflexivity |].
  simpl in H. apply andb_prop in H. destruct H as [Hc Ha]. apply negb_true_iff in Hc.
  simpl Py.split. rewrite Hc, (IH Ha). reflexivity.
Qed.

Lemma str_entries_cons idx e rest :
  str_entries idx (e :: rest)
  = (format_right 4 (str_of_nat idx) ++ ": " ++ e) ++ String Py.nl (str_entries (S idx) rest).
Proof.
  change (str_entries idx (e :: rest))
    with (format_right 4 (str_of_nat idx)
          ++ (": " ++ (e ++ String Py.nl (str_entries (S idx) rest)))).
  generalize (format_right 4 (str_of_nat idx)) (String Py.nl (str_entries (S idx) rest)).
  intros a b. induction a as [| c a IH]; [reflexivity |].
  change (String c a ++ ": " ++ e ++ b) with (String c (a ++ ": " ++ e ++ b)).
  rewrite IH. reflexivity.
Qed.

Lemma str_entries_read_back entries :
  Forall (fun e => no_nl e = true) entries ->
  forall idx,
    flat_map (fun l => match after_colon l with Some e => [e] | None => [] end)
             (Py.split Py.nl (str_entries idx entries))
    = entries.
Proof.
  induction 1 as [| e rest He Hrest IH]; intros idx; [reflexivity |].
  rewrite str_entries_cons, split_line.
  - cbn [flat_map]. rewrite (after_colon_found _ e (index_no_colon idx)), IH. reflexivity.
  - rewrite !no_nl_app, index_no_nl, He. reflexivity.
Qed.

Lemma str_header_no_nl self : no_nl (_folder self) = true -> no_nl (str_header self) = true.
Proof.
  intros H. unfold str_header. rewrite !no_nl_app, H.
  destruct (_recursive self); reflexivity.
Qed.

(** X13: the rendering loses nothing: when neither the folder path nor an
    entry holds a newline, the entries read back from the text [__str__]
    gives are the entries [__iter__] runs through, in order; the empty
    playlist is rendered as the header and the line of the empty marker,
    which holds no entry. *)
Theorem X13_rendering_reads_back (self : PlaylistCollector) :
  no_nl (_folder self) = true ->
  Forall (fun e => no_nl e = true) (playlist self) ->
  entries_of_str (__str__ self) = __iter__ self
  /\ (playlist self = [] -> __str__ self = str_header self ++ LF ++ "    -- empty --").
Proof.
  intros Hf Hp. split.
  - unfold entries_of_str, __str__, __iter__.
    change (str_header self ++ LF
            ++ (if Nat.eqb (List.length (playlist self)) 0 then "    -- empty --" else "")
            ++ str_entries 0 (playlist self))
      with (str_header self
            ++ String Py.nl
                 ((if Nat.eqb (List.length (playlist self)) 0 then "    -- empty --" else "")
                  ++ str_entries 0 (playlist self))).
    rewrite (split_line _ _ (str_header_no_nl self Hf)).
    destruct (playlist self) as [| e rest] eqn:E; [reflexivity |].
    change ((if Nat.eqb (List.length (e :: rest)) 0 then "    -- empty --" else "")
            ++ str_entries 0 (e :: rest))
      with (str_entries 0 (e :: rest)).
    apply str_entries_read_back. exact Hp.
  - intros E. unfold __str__. rewrite E. reflexivity.
Qed.

Lemma X13_witness :
  entries_of_str
    (__str__ {| playlist := ["/music/A/a.mp3"; "http://s/1: live"];
                _music_library_base_path := "/music";
                _folder := "/music/A";
                _recursive := false |})
  = ["/music/A/a.mp3"; "http://s/1: live"].
Proof.
  apply (X13_rendering_reads_back
           {| playlist := ["/music/A/a.mp3"; "http://s/1: live"];
              _music_library_base_path := "/music";
              _folder := "/music/A";
              _recursive := false |}); [reflexivity | repeat constructor].
Defined.

Example str_rendering :
  __str__ {| playlist := ["a.mp3"; "b.mp3"];
             _music_library_base_path := "/music";
             _folder := "/music/A";
             _recursive := true |}
  = "Playlist for '/music/A' (recursive=True)" ++ LF
    ++ "   0: a.mp3" ++ LF ++ "   1: b.mp3" ++ LF.
Proof. reflexivity. Qed.

(** ** The top folder comes first *)

Lemma leb_prefix a s : String.leb a (a ++ s) = true.
Proof.
  unfold String.leb. induction a as [| c a IH].
  - destruct s; reflexivity.
  - change (String c a ++ s) with (String c (a ++ s)).
    cbn [String.compare]. unfold Ascii.compare. rewrite N.compare_refl. exact IH.
Qed.

Lemma join_extends top nm :
  Py.startswith nm "/" = false -> exists s, OsPath.join top nm = top ++ s.
Proof.
  intros H. unfold OsPath.join, OsPath.sep. rewrite H.
  destruct (String.eqb top "" || Py.endswith top "/"); eexists; reflexivity.
Qed.

Lemma walk_node_extends n :
  plain_names n = true ->
  forall top d, In d (walk_node top n) -> exists s, d = top ++ s.
Proof.
  induction n as [c | | | children IH] using node_nested_ind; intros Hn top d H;
    try (destruct H; fail).
  cbn [walk_node] in H. destruct H as [<- | H].
  - exists "". rewrite append_nil_r. reflexivity.
  - apply in_flat_map in H. destruct H as [[nm c] [Hin Hd]].
    cbn [plain_names] in Hn. rewrite forallb_forall in Hn.
    specialize (Hn (nm, c) Hin). apply andb_prop in Hn. destruct Hn as [Hnm Hc].
    apply negb_true_iff in Hnm. cbn [fst snd] in *.
    rewrite Forall_forall in IH.
    destruct (IH (nm, c) Hin Hc (OsPath.join top nm) d Hd) as [s ->].
    destruct (join_extends top nm Hnm) as [s' ->].
    exists (s' ++ s). apply append_assoc.
Qed.

Lemma sorted_least_first {A : Type} (key : A -> string) (x : A) (l : list A) :
  (forall y, In y l -> String.leb (key x) (key y) = true) ->
  Py.sorted key (x :: l) = x :: Py.sorted key l.
Proof.
  intros H. cbn [Py.sorted].
  destruct (Py.sorted key l) as [| y r] eqn:E; [reflexivity |].
  cbn [Py.insert]. rewrite H; [reflexivity |].
  apply (sorted_In A key l y). rewrite E. left. reflexivity.
Qed.

Lemma walk_sorted_top_first top children :
  plain_names (Dir children) = true ->
  Py.sorted Py.casefold (walk_node top (Dir children))
  = top :: Py.sorted Py.casefold (below top children).
Proof.
  intros Hn. change (walk_node top (Dir children)) with (top :: below top children).
  apply sorted_least_first. intros d Hd.
  destruct (walk_node_extends (Dir children) Hn top d (or_intror Hd)) as [s ->].
  rewrite casefold_app. apply leb_prefix.
Qed.

(** X15: in recursive mode the walked folder itself is resolved first.
    When the folder can be listed and no name of the tree starts with the
    separator, every directory [os.walk] reports has a path that extends
    the folder's, so the folder is the least in the order of the folded
    paths, and the playlist is what [_parse_nonrecusive] gives for the
    folder, followed by the entries of the directories below it. *)
Theorem X15_recursive_starts_with_the_top_folder (w : World) (cls : ClassState)
        (top : string) (entries : list DirEntry.t) :
  scandir w top = Ok entries ->
  (forall n, resolve w top = Ok n -> plain_names n = true) ->
  (forall d, In d (os_walk w top) -> casefold_le top d)
  /\ Py.sorted Py.casefold (os_walk w top)
     = top :: Py.sorted Py.casefold (tl (os_walk w top))
  /\ _parse_recursive w cls top
     =m= (first <- _parse_nonrecusive w cls top ;;
          rest <- map_m (_parse_nonrecusive w cls)
                        (Py.sorted Py.casefold (tl (os_walk w top))) ;;
          ret (first ++ concat rest)%list)
  /\ (forall log pl log',
        _parse_recursive w cls top log = (Ok pl, log') ->
        exists first log1 more,
          _parse_nonrecusive w cls top log = (Ok first, log1)
          /\ pl = (first ++ more)%list).
Proof.
  intros Hscan Hnames.
  assert (Hr : exists children, resolve w top = Ok (Dir children)).
  { unfold scandir in Hscan. destruct (resolve w top) as [[c | children | |] | e];
      try discriminate. eauto. }
  destruct Hr as [children Hr]. pose proof (Hnames _ Hr) as Hn.
  assert (Hw : os_walk w top = top :: below top children).
  { unfold os_walk. rewrite Hr. reflexivity. }
  assert (Hsort : Py.sorted Py.casefold (os_walk w top)
                  = top :: Py.sorted Py.casefold (tl (os_walk w top))).
  { rewrite Hw. apply (walk_sorted_top_first top children Hn). }
  assert (Heq : forall log,
             _parse_recursive w cls top log
             = bind (_parse_nonrecusive w cls top)
                    (fun first =>
                       bind (map_m (_parse_nonrecusive w cls)
                                   (Py.sorted Py.casefold (tl (os_walk w top))))
                            (fun rest => ret (first ++ concat rest)%list)) log).
  { intros log. unfold _parse_recursive. rewrite Hsort.
    fold (add_folder w cls). cbn [for_each]. unfold add_folder at 1.
    rewrite bind_assoc. apply bind_ext. intros first log1.
    rewrite bind_ret_l, add_folder_concat. reflexivity. }
  split; [| split; [exact Hsort | split]].
  - intros d Hd. unfold os_walk in Hd. rewrite Hr in Hd.
    destruct (walk_node_extends (Dir children) Hn top d Hd) as [s ->].
    unfold casefold_le. rewrite casefold_app. apply leb_prefix.
  - exact Heq.
  - intros log pl log' H. rewrite Heq in H. unfold bind in H.
    destruct (_parse_nonrecusive w cls top log) as [[first | e] log1]; [| discriminate].
    destruct (map_m (_parse_nonrecusive w cls)
                    (Py.sorted Py.casefold (tl (os_walk w top))) log1)
      as [[rest | e] log2]; [| discriminate].
    inversion H; subst. exists first, log1, (concat rest). split; reflexivity.
Qed.

Lemma X15_witness :
  Py.sorted Py.casefold (os_walk case_world "/lib")
  = "/lib" :: Py.sorted Py.casefold (tl (os_walk case_world "/lib"))
  /\ exists first log1 more,
      _parse_nonrecusive walk_world default_class "/lib/A" [] = (Ok first, log1)
      /\ _parse_recursive walk_world default_class "/lib/A" []
         = (Ok (first ++ more)%list, []).
Proof.
  destruct (X15_recursive_starts_with_the_top_folder case_world default_class "/lib"
              [{| DirEntry.name := "c"; DirEntry.path := "/lib/c"; DirEntry.is_file := false |};
               {| DirEntry.name := "B"; DirEntry.path := "/lib/B"; DirEntry.is_file := false |};
               {| DirEntry.name := "a"; DirEntry.path := "/lib/a"; DirEntry.is_file := false |}]
              eq_refl) as [_ [H2 _]].
  { intros n Hn. vm_compute in Hn. inversion Hn. reflexivity. }
  destruct (X15_recursive_starts_with_the_top_folder walk_world default_class "/lib/A"
              [{| DirEntry.name := "sub"; DirEntry.path := "/lib/A/sub";
                  DirEntry.is_file := false |};
               entry "a.mp3" "/lib/A"] eq_refl) as [_ [_ [_ H4]]].
  { intros n Hn. vm_compute in Hn. inversion Hn. reflexivity. }
  split; [exact H2 |].
  destruct (H4 [] ["/lib/A/a.mp3"; "/lib/A/sub/s.mp3"] []
              ltac:(vm_compute; reflexivity)) as [first [log1 [more [E1 E2]]]].
  exists first, log1, more. split; [exact E1 |].
  rewrite <- E2. vm_compute. reflexivity.
Defined.
